(** * fstd2nc: the [Series] mixin (fstd2nc/mixins/series.py)

    A shallow embedding of the timeseries / vertical-profile handling of
    fstd2nc, and the proofs of its specification.

    - [Classifier]: the part of [Series.__init__] that runs after the base
      constructor and rewrites the record table in place.
    - [Makevars]: [Series._makevars], over an explicit object store, since
      axis objects are shared by reference between variables. *)

From Stdlib Require Import ZArith Ascii.
From Stdlib Require Floats.SpecFloat.
From stdpp Require Import gmap strings list.

Local Open Scope string_scope.
Local Open Scope Z_scope.
Local Open Scope list_scope.

(** * The record table and its classifier *)

Module Classifier.

(** A numpy column: a plain array, or a masked array with its mask. *)
Inductive column :=
| plain (data : list Z)
| masked (data : list Z) (mask : list bool).

Definition data_of (c : column) : list Z :=
  match c with plain d => d | masked d _ => d end.

(** [np.ma.getmaskarray]: the mask as a full boolean array, all [False] for
    an array that carries none. *)
Definition ma_getmaskarray (c : column) : list bool :=
  match c with
  | plain d => replicate (length d) false
  | masked _ m => m
  end.

(** [np.ma.asarray]: a masked array is returned as it is, a plain array is
    wrapped into a masked array that masks nothing. *)
Definition ma_asarray (c : column) : column :=
  masked (data_of c) (ma_getmaskarray c).

(** Assignment to the [mask] attribute. *)
Definition set_mask (c : column) (m : list bool) : column := masked (data_of c) m.

(** [self._headers]: a dict of equally long columns, one entry per record.
    Only the columns that [Series.__init__] reads or writes are kept;
    [leadtime] and [reftime] may be absent, [station_id] is absent until
    the classifier adds it. *)
Record headers := {
  typvar : list string;
  grtyp : list string;
  ip1 : list Z;
  ip3 : list Z;
  ig1 : list Z;
  ig2 : list Z;
  ig3 : list Z;
  ig4 : list Z;
  leadtime : option column;
  reftime : option column;
  station_id : option column
}.

(** Elementwise [column == literal] on a bytes column. *)
Definition eq_lit (lit : string) (col : list string) : list bool :=
  (λ s, bool_decide (s = lit)) <$> col.

Definition is_series (fields : headers) : list bool :=
  zip_with andb (eq_lit "T " (typvar fields))
    (zip_with orb
       (zip_with orb (eq_lit "+" (grtyp fields)) (eq_lit "Y" (grtyp fields)))
       (eq_lit "T" (grtyp fields))).

Definition is_split_series (fields : headers) : list bool :=
  zip_with andb (eq_lit "T " (typvar fields)) (eq_lit "+" (grtyp fields)).

(** Conversion to dtype [int32]: two's complement wrap-around. *)
Definition int32 (z : Z) : Z := (z + 2 ^ 31) `mod` 2 ^ 32 - 2 ^ 31.

(** [column[sel] = v] with a boolean selector. *)
Definition assign_where (sel : list bool) (v : Z) (col : list Z) : list Z :=
  zip_with (λ (b : bool) x, if b then v else x) sel col.

(** [col.mask = getmaskarray(col) | sel] after [col = np.ma.asarray(col)]. *)
Definition mask_where (sel : list bool) (col : column) : column :=
  let col := ma_asarray col in
  set_mask col (zip_with orb (ma_getmaskarray col) sel).

(** The body of [Series.__init__] after the call to the base constructor. *)
Definition Series_init (fields : headers) : headers :=
  let is_series := is_series fields in
  let is_split_series := is_split_series fields in
  let station_id := masked (int32 <$> ip3 fields) (negb <$> is_split_series) in
  {| typvar := typvar fields;
     grtyp := grtyp fields;
     ip1 := assign_where is_series 0 (ip1 fields);
     ip3 := ip3 fields;
     ig1 := assign_where is_series 0 (ig1 fields);
     ig2 := assign_where is_series 0 (ig2 fields);
     ig3 := assign_where is_series 0 (ig3 fields);
     ig4 := assign_where is_series 0 (ig4 fields);
     leadtime := mask_where is_series <$> leadtime fields;
     reftime := mask_where is_series <$> reftime fields;
     station_id := Some station_id |}.

(** The two predicates on one record. *)
Definition series_rec (t g : string) : bool :=
  bool_decide (t = "T ") && (bool_decide (g = "+") || bool_decide (g = "Y") || bool_decide (g = "T")).

Definition split_series_rec (t g : string) : bool :=
  bool_decide (t = "T ") && bool_decide (g = "+").

(** What a reader sees in a column at row [i]: the value and whether it is
    masked. *)
Definition read (c : column) (i : nat) : option (Z * bool) :=
  x ← data_of c !! i; m ← ma_getmaskarray c !! i; Some (x, m).

End Classifier.

(** * Variables, axes and the object store *)

Module Makevars.

(** Objects are referred to by their address in the store; Python's [id]
    and [is] become the address and its equality. *)
Abbreviation addr := nat (only parsing).

(** Attribute values. *)
Inductive att :=
| att_str (s : string)
| att_int (n : Z).

#[global] Instance att_eq_dec : EqDecision att.
Proof. solve_decision. Defined.

(** The floating-point types of numpy arrays: IEEE 754 binary32 and
    binary64.  A floating-point number is a [spec_float]: a signed zero, an
    infinity, NaN, or a sign, a mantissa and an exponent. *)
Inductive float_type := float32 | float64.

Abbreviation float := SpecFloat.spec_float (only parsing).

(** Modelled from the spec: the axis containers of [fstd2nc.mixins], which
    are not part of this file.  An axis is either a pure dimension (name
    and length only) or a valued axis (name, attributes and a 1-D array of
    values; its length is the length of the array).  The array of a valued
    axis holds integers (64-bit integers, dates and times in seconds) or
    floating-point numbers of one type. *)
Inductive axis :=
| _dim_type (name : string) (length : nat)
| _axis_type (name : string) (atts : list (string * att)) (array : list Z)
| _axis_type_f (name : string) (atts : list (string * att)) (dtype : float_type)
    (array : list float).

Definition axis_name (a : axis) : string :=
  match a with _dim_type n _ => n | _axis_type n _ _ => n | _axis_type_f n _ _ _ => n end.

Definition axis_len (a : axis) : nat :=
  match a with
  | _dim_type _ n => n
  | _axis_type _ _ arr => length arr
  | _axis_type_f _ _ _ arr => length arr
  end.

(** The array of a valued axis, when it holds integers; of any valued axis. *)
Definition axis_array (a : axis) : option (list Z) :=
  match a with _axis_type _ _ arr => Some arr | _ => None end.

Inductive values :=
| ints (xs : list Z)
| floats (dtype : float_type) (xs : list float).

Definition axis_values (a : axis) : option values :=
  match a with
  | _dim_type _ _ => None
  | _axis_type _ _ arr => Some (ints arr)
  | _axis_type_f _ _ ft arr => Some (floats ft arr)
  end.

(** Assignment to the [name] attribute of an axis object. *)
Definition axis_rename (nm : string) (a : axis) : axis :=
  match a with
  | _dim_type _ n => _dim_type nm n
  | _axis_type _ atts arr => _axis_type nm atts arr
  | _axis_type_f _ atts ft arr => _axis_type_f nm atts ft arr
  end.

(** The arrays held by coordinate variables: a scalar, a 1-D array of
    numbers, or a 2-D array of single characters. *)
Inductive ndarray :=
| scalar (x : Z)
| vector (xs : list Z)
| fvector (dtype : float_type) (xs : list float)
| chars (rows : list (list ascii)).

Definition array_values (v : values) : ndarray :=
  match v with ints xs => vector xs | floats ft xs => fvector ft xs end.

(** Modelled from the spec: [_var_type], a coordinate variable held in
    memory (name, attributes, axes, array). *)
Record coord := _var_type {
  c_name : string;
  c_atts : list (string * att);
  c_axes : list addr;
  c_array : ndarray
}.

(** Modelled from the spec: the variables built by the generic pipeline.
    [record_id] is kept by its shape, one entry per outer axis; [deps]
    holds addresses of coordinate variables. *)
Record variable := {
  v_name : string;
  v_atts : gmap string att;
  v_axes : list addr;
  v_deps : list addr;
  v_record_id : list nat
}.

Definition set_axes (axs : list addr) (v : variable) : variable :=
  {| v_name := v_name v; v_atts := v_atts v; v_axes := axs;
     v_deps := v_deps v; v_record_id := v_record_id v |}.

Definition set_deps (ds : list addr) (v : variable) : variable :=
  {| v_name := v_name v; v_atts := v_atts v; v_axes := v_axes v;
     v_deps := ds; v_record_id := v_record_id v |}.

Definition set_record_id (sh : list nat) (v : variable) : variable :=
  {| v_name := v_name v; v_atts := v_atts v; v_axes := v_axes v;
     v_deps := v_deps v; v_record_id := sh |}.

Definition set_att (k : string) (x : att) (v : variable) : variable :=
  {| v_name := v_name v; v_atts := <[k := x]> (v_atts v); v_axes := v_axes v;
     v_deps := v_deps v; v_record_id := v_record_id v |}.

(** The store: axis objects, coordinate variables, and the warnings issued
    so far. *)
Record store := {
  axes_heap : list axis;
  coord_heap : list coord;
  warnings : list string
}.

(** ** A state and exception monad *)

Definition M (A : Type) : Type := store → option (A * store).

#[global] Instance M_ret : MRet M := λ A x s, Some (x, s).

#[global] Instance M_bind : MBind M :=
  λ A B k m s, match m s with Some (x, s') => k x s' | None => None end.

(** A Python exception: the whole call is abandoned. *)
Definition raise {A} : M A := λ _, None.

Definition lift {A} (o : option A) : M A :=
  match o with Some x => mret x | None => raise end.

Definition get_axes : M (list axis) := λ s, Some (axes_heap s, s).

(** Construction of an axis object: a fresh address. *)
Definition new_axis (a : axis) : M addr :=
  λ s, Some (length (axes_heap s),
             {| axes_heap := axes_heap s ++ [a];
                coord_heap := coord_heap s;
                warnings := warnings s |}).

Definition new_coord (c : coord) : M addr :=
  λ s, Some (length (coord_heap s),
             {| axes_heap := axes_heap s;
                coord_heap := coord_heap s ++ [c];
                warnings := warnings s |}).

(** [axis.name = nm], in place. *)
Definition set_name (a : addr) (nm : string) : M unit :=
  λ s, Some (tt, {| axes_heap := alter (axis_rename nm) a (axes_heap s);
                    coord_heap := coord_heap s;
                    warnings := warnings s |}).

(** Modelled from the spec: [warn] of [fstd2nc.stdout], which lives outside
    this file; the message is recorded in the store. *)
Definition warn (msg : string) : M unit :=
  λ s, Some (tt, {| axes_heap := axes_heap s;
                    coord_heap := coord_heap s;
                    warnings := warnings s ++ [msg] |}).

(** ** Reading objects *)

(** Addresses held by variables denote live objects; a read outside the
    store does not arise and yields the empty name and length 0. *)
Definition name_at (h : list axis) (a : addr) : string :=
  from_option axis_name "" (h !! a).

Definition len_at (h : list axis) (a : addr) : nat :=
  from_option axis_len 0%nat (h !! a).

(** Modelled from the spec: [dims], [getaxis] and [index] of the variable
    and tuple types.  [dims] lists the names of the axes; [getaxis] gives
    the first axis with the name, or [None]. *)
Definition dims_in (h : list axis) (axs : list addr) : list string :=
  name_at h <$> axs.

Definition getaxis_in (h : list axis) (axs : list addr) (nm : string) : option addr :=
  snd <$> list_find (λ a, name_at h a = nm) axs.

(** [tuple.index]: position of the first occurrence; raises when absent. *)
Definition index (nm : string) (dims : list string) : M nat :=
  lift (fst <$> list_find (λ d, d = nm) dims).

Definition dims (v : variable) : M (list string) :=
  h ← get_axes; mret (dims_in h (v_axes v)).

Definition getaxis (v : variable) (nm : string) : M (option addr) :=
  h ← get_axes; mret (getaxis_in h (v_axes v) nm).

Definition len (a : addr) : M nat :=
  h ← get_axes; mret (len_at h a).

(** The [array] attribute where the code needs integers (a date to
    convert, indices into an array): a pure dimension has no array, and a
    floating-point one is refused there. *)
Definition array_of (a : addr) : M (list Z) :=
  h ← get_axes; lift (h !! a ≫= axis_array).

(** The [array] attribute, of any type. *)
Definition values_of (a : addr) : M values :=
  h ← get_axes; lift (h !! a ≫= axis_values).

(** [axes[k] = a]: raises out of range. *)
Definition setitem (k : nat) (a : addr) (v : variable) : M variable :=
  if bool_decide (k < length (v_axes v))%nat
  then mret (set_axes (<[k := a]> (v_axes v)) v) else raise.

(** [axes.pop(k)]: raises out of range. *)
Definition pop (k : nat) (v : variable) : M variable :=
  if bool_decide (k < length (v_axes v))%nat
  then mret (set_axes (delete k (v_axes v)) v) else raise.

(** [record_id.squeeze(axis=k)] on the shape: the axis must exist and have
    length one. *)
Definition squeeze_axis (k : nat) (v : variable) : M variable :=
  match v_record_id v !! k with
  | Some 1%nat => mret (set_record_id (delete k (v_record_id v)) v)
  | _ => raise
  end.

(** [var.atts.get(k) == s] *)
Definition att_is (v : variable) (k s : string) : bool :=
  bool_decide (v_atts v !! k = Some (att_str s)).

(** [for var in self._varlist], with the dictionaries local to the pass
    threaded through the iterations. *)
Fixpoint for_each {C} (body : C → variable → M (C * variable)) (c : C) (vs : list variable)
  : M (C * list variable) :=
  match vs with
  | [] => mret (c, [])
  | v :: vs' =>
      '(c1, v') ← body c v;
      '(c2, vs'') ← for_each body c1 vs';
      mret (c2, v' :: vs'')
  end.

(** [for var in varlist] over a group of variables of [self._varlist],
    given by their positions; each variable is updated in place. *)
Fixpoint for_group (body : variable → M variable) (group : list nat) (vars : list variable)
  : M (list variable) :=
  match group with
  | [] => mret vars
  | i :: group' =>
      v ← lift (vars !! i);
      v' ← body v;
      for_group body group' (<[i := v']> vars)
  end.

(** ** Collaborators *)

(** A record as returned by [_fstlir]: the data array [d], flattened in
    row-major order, with its shape, and the date of origin stamp. *)
Record header := {
  h_shape : list nat;
  h_d : list Z;
  h_dateo : Z
}.

Record datetime := {
  year : Z; month : Z; day : Z; hour : Z; minute : Z; second : Z
}.

(** The options kept on [self] by [Series.__init__] (and, for
    [_squash_forecasts], by a sibling mixin). *)
Record Series := {
  _momentum_vars : list string;
  _thermo_vars : list string;
  _missing_bottom_profile_level : bool;
  _squash_forecasts : bool
}.

(** ** Pieces of numpy *)

(** [squeeze]: all axes of length one are removed from the shape. *)
Definition squeeze (shape : list nat) : list nat :=
  filter (λ n, n ≠ 1%nat) shape.

(** [array[:-1]] on a squeezed array: the last entry along the first axis
    is dropped; a 0-d array cannot be sliced. *)
Definition drop_last (a : list nat * list Z) : M (list nat * list Z) :=
  match a.1 with
  | [] => raise
  | n :: rest => mret ((n - 1)%nat :: rest, take ((n - 1) * foldr Nat.mul 1%nat rest) a.2)
  end.

(** [transpose] of a 2-D array of shape [(a, b)], as the list of its [b]
    rows. *)
Definition transpose2 (a b : nat) (flat : list Z) : list (list Z) :=
  (λ i, (λ j, default 0 (flat !! (j * b + i)%nat)) <$> seq 0 a) <$> seq 0 b.

Fixpoint drop_while {A} (p : A → bool) (l : list A) : list A :=
  match l with
  | [] => []
  | x :: l' => if p x then drop_while p l' else l
  end.

Definition rstrip_by {A} (p : A → bool) (l : list A) : list A :=
  reverse (drop_while p (reverse l)).

(** The ASCII characters removed by [str.rstrip()]. *)
Definition is_space (b : Z) : bool :=
  ((9 <=? b)%Z && (b <=? 13)%Z) || ((28 <=? b)%Z && (b <=? 32)%Z).

(** [str.rstrip()] seen on the bytes of the name: besides the ASCII
    whitespace, the characters it removes are these, in UTF-8 (U+0085,
    U+00A0, U+1680, U+2000 to U+200A, U+2028, U+2029, U+202F, U+205F,
    U+3000). *)
Definition wide_spaces : list (list Z) :=
  [[194; 133]; [194; 160]; [225; 154; 128]]
  ++ ((λ b, [226; 128; b]) <$> [128; 129; 130; 131; 132; 133; 134; 135; 136; 137; 138])
  ++ [[226; 128; 168]; [226; 128; 169]; [226; 128; 175]; [226; 129; 159];
      [227; 128; 128]].

(** On the reversed bytes: the bytes left once one trailing whitespace
    character is removed, if there is one. *)
Definition strip_space (r : list Z) : option (list Z) :=
  match r with
  | [] => None
  | b :: r' =>
      if is_space b then Some r'
      else (λ w, drop (length w.2) r)
             <$> list_find (λ w, reverse w `prefix_of` r) wide_spaces
  end.

Fixpoint strip_spaces (n : nat) (r : list Z) : list Z :=
  match n with
  | O => r
  | S n => match strip_space r with Some r' => strip_spaces n r' | None => r end
  end.

Definition rstrip (l : list Z) : list Z :=
  reverse (strip_spaces (length l) (reverse l)).

(** One station name: numpy hands out the item without its trailing NULs,
    it is decoded, stripped of trailing whitespace and written back
    NUL-padded to [strlen].  What is written back must be ASCII: a byte
    from 128 on that is left raises, whether it fails to decode or to
    encode. *)
Definition decode_name (strlen : nat) (row : list Z) : M (list ascii) :=
  let arr := rstrip_by (λ b, (b =? 0)%Z) row in
  let name := rstrip arr in
  if forallb (λ b, (0 <=? b)%Z && (b <? 128)%Z) name then
    mret ((λ b, ascii_of_N (Z.to_N b)) <$> (name ++ replicate (strlen - length name) 0))
  else raise.

(** The floating-point formats: bits of precision and bound of the
    exponent. *)
Definition prec (ft : float_type) : Z :=
  match ft with float32 => 24 | float64 => 53 end.

Definition emax (ft : float_type) : Z :=
  match ft with float32 => 128 | float64 => 1024 end.

(** A Python integer taken to the type of a floating-point array, and the
    product in that type, rounded to the nearest number (ties to even). *)
Definition float_of_int (ft : float_type) (z : Z) : float :=
  SpecFloat.binary_normalize (prec ft) (emax ft) z 0 false.

Definition float_mul (ft : float_type) (x y : float) : float :=
  SpecFloat.SFmul (prec ft) (emax ft) x y.

(** 64-bit integers, the storage of [datetime64[s]] and [timedelta64[s]];
    their least value is NaT, not a time. *)
Definition wrap64 (z : Z) : Z := (z + 2 ^ 63) `mod` 2 ^ 64 - 2 ^ 63.

Definition NaT : Z := - 2 ^ 63.

(** The cast of a floating-point number to [timedelta64]: the fraction is
    dropped; NaN, the infinities and what does not fit in 64 bits give
    NaT. *)
Definition timedelta_of_float (x : float) : Z :=
  match x with
  | SpecFloat.S754_zero _ => 0
  | SpecFloat.S754_finite sign m e =>
      let z := Z.shiftl (Z.pos m) e in
      let z := if sign then - z else z in
      if bool_decide (- 2 ^ 63 < z < 2 ^ 63) then z else NaT
  | _ => NaT
  end.

(** [np.array(array*3600,'timedelta64[s]')]: the product is taken in the
    type of the array, then cast. *)
Definition timedelta64_s (hours : values) : list Z :=
  match hours with
  | ints xs => (λ h, wrap64 (h * 3600)) <$> xs
  | floats ft xs =>
      (λ x, timedelta_of_float (float_mul ft x (float_of_int ft 3600))) <$> xs
  end.

(** [datetime64 + timedelta64]: NaT on either side gives NaT. *)
Definition datetime_add (t d : Z) : Z :=
  if bool_decide (t = NaT ∨ d = NaT) then NaT else wrap64 (t + d).

(** [array[indices,:]]: rows selected in the order of [indices]; negative
    indices count from the end, anything else out of range raises. *)
Definition take_rows (rows : list (list ascii)) (indices : list Z)
  : option (list (list ascii)) :=
  let n := Z.of_nat (length rows) in
  mapM (λ i, if bool_decide (0 ≤ i < n) then rows !! Z.to_nat i
             else if bool_decide (- n ≤ i < 0) then rows !! Z.to_nat (i + n)
             else None) indices.

Definition chars_of (a : ndarray) : M (list (list ascii)) :=
  match a with chars rows => mret rows | _ => raise end.

(** ** [Series._makevars] *)

Section makevars.

Variable self : Series.
(** [self._fstlir(nomvar=...)]: at most one record of that name. *)
Variable _fstlir : string → option header.
(** [fstd2nc.mixins.dates.stamp2datetime_scalar]. *)
Variable stamp2datetime_scalar : Z → datetime.
(** [self._get_header_atts]. *)
Variable _get_header_atts : header → list (string * att).
(** [self._iter_axes(name, varlist=True)]: the axes of that name found in
    the variables, each with the positions of the variables that hold it. *)
Variable _iter_axes : string → list axis → list variable → list (addr * list nat).

(** Station names, as a 2-D character array.  The record holds bytes, so
    [array -= 128] wraps around modulo 256. *)
Definition get_station : M (option (addr * coord)) :=
  match _fstlir "STNS" with
  | None => mret None
  | Some station_header =>
      match h_shape station_header with
      | [a; b] =>
          let array := transpose2 a b (h_d station_header) in
          first ← lift (concat array !! 0%nat);
          let array :=
            if bool_decide (128 ≤ first)
            then (λ row : list Z, (λ x, (x - 128) `mod` 256) <$> row) <$> array
            else array in
          let nstations := b in
          let strlen := a in
          array ← mapM (decode_name strlen) array;
          station_id ← new_axis (_dim_type "station_id" nstations);
          station_strlen ← new_axis (_dim_type "station_strlen" strlen);
          let station := _var_type "station" [] [station_id; station_strlen] (chars array) in
          s ← new_coord station;
          mret (Some (s, station))
      | _ => raise
      end
  end.

(** The forecast axis. *)
Definition get_forecast_axis : M (option addr) :=
  match _fstlir "HH  " with
  | None => mret None
  | Some forecast_header =>
      let atts := [("units", att_str "hours")] in
      let starting_hour := hour (stamp2datetime_scalar (h_dateo forecast_header)) in
      let array := (λ x, x - starting_hour) <$> h_d forecast_header in
      forecast_axis ← new_axis (_axis_type "forecast" atts array);
      mret (Some forecast_axis)
  end.

(** One round of the loop over [(b'SH  ', b'SV  ')]; the pair holds
    [thermo] and [momentum]. *)
Definition get_vertical (vertvar : string) (tm : option addr * option addr)
  : M (option addr * option addr) :=
  match _fstlir vertvar with
  | None => mret tm
  | Some header =>
      let array := (squeeze (h_shape header), h_d header) in
      array ← (if _missing_bottom_profile_level self then drop_last array else mret array);
      if bool_decide (length array.1 ≠ 1%nat) then mret tm else
      let atts := _get_header_atts header in
      thermo ← (if bool_decide (vertvar = "SH  ")
                then a ← new_axis (_axis_type "level" atts array.2); mret (Some a)
                else mret tm.1);
      momentum ← (if bool_decide (vertvar = "SV  ")
                  then a ← new_axis (_axis_type "level" atts array.2); mret (Some a)
                  else mret tm.2);
      mret (thermo, momentum)
  end.

(** [station.shape[0]] and [station.axes[k]]. *)
Definition station_axis (station : addr * coord) (k : nat) : M addr :=
  lift (c_axes station.2 !! k).

Definition station_shape0 (station : addr * coord) : M nat :=
  a ← station_axis station 0; len a.

(** First loop: 'Y' data, the [i] axis becomes the station axis. *)
Definition name_station_axis (station : option (addr * coord)) (_ : unit) (var : variable)
  : M (unit * variable) :=
  if att_is var "typvar" "T" && att_is var "grtyp" "Y" then
    dims ← dims var;
    iaxis ← getaxis var "i";
    match iaxis, station with
    | Some iaxis, Some station =>
        n ← len iaxis;
        n0 ← station_shape0 station;
        if bool_decide (n = n0) then
          k ← index "i" dims;
          a0 ← station_axis station 0;
          var ← setitem k a0 var;
          mret (tt, var)
        else mret (tt, var)
    | _, _ => mret (tt, var)
    end
  else mret (tt, var).

(** Second loop: '+' data, the degenerate vertical axis coming from IP1 is
    removed. *)
Definition drop_level (_ : unit) (var : variable) : M (unit * variable) :=
  if att_is var "typvar" "T" && att_is var "grtyp" "+" then
    dims ← dims var;
    if bool_decide ("level" ∈ dims) then
      k ← index "level" dims;
      var ← squeeze_axis k var;
      k ← index "level" dims;
      var ← pop k var;
      mret (tt, var)
    else mret (tt, var)
  else mret (tt, var).

(** [if var.name in names and axis is not None], then the comparison of
    the lengths: the named vertical axis is taken when it fits. *)
Definition try_levels (names : list string) (axis : option addr) (msg : string)
    (var : variable) (level : addr) : M addr :=
  match axis with
  | Some axis =>
      if bool_decide (v_name var ∈ names) then
        n ← len level;
        n' ← len axis;
        if bool_decide (n = n') then mret axis
        else _ ← warn msg; mret level
      else mret level
  | None => mret level
  end.

(** Third loop, first half: the [j] dimension is the forecast time.
    [dims] is the tuple taken at the top of the round. *)
Definition remap_j (forecast_axis : option addr) (dims : list string)
    (var : variable) : M variable :=
  jaxis ← getaxis var "j";
  match jaxis, forecast_axis with
  | Some jaxis, Some forecast_axis =>
      n ← len jaxis;
      n' ← len forecast_axis;
      if bool_decide (n = n') then
        k ← index "j" dims; setitem k forecast_axis var
      else mret var
  | _, _ => mret var
  end.

(** Third loop, second half: the [i] dimension is the vertical level.
    [known_levels] is the dictionary of generic level dimensions. *)
Definition remap_i (momentum thermo : option addr) (dims : list string)
    (known_levels : gmap nat addr) (var : variable)
  : M (gmap nat addr * variable) :=
  iaxis ← getaxis var "i";
  match iaxis with
  | None => mret (known_levels, var)
  | Some iaxis =>
      n ← len iaxis;
      if bool_decide (n = 1%nat) then
        k ← index "i" dims;
        var ← pop k var;
        mret (known_levels, var)
      else
        let level := iaxis in
        _ ← set_name level "level";
        level ← try_levels (_momentum_vars self) momentum
                  "Wrong number of momentum levels found in the data." var level;
        level ← try_levels (_thermo_vars self) thermo
                  "Wrong number of thermodynamic levels found in the data." var level;
        '(known_levels, level, var) ←
          (if bool_decide (level = iaxis) then
             _ ← warn ("Unable to find the vertical coordinates for " +:+ v_name var +:+ ".");
             nlev ← len level;
             known_levels ←
               (if bool_decide (known_levels !! nlev = None) then
                  d ← new_axis (_dim_type "level" nlev);
                  mret (<[nlev := d]> known_levels)
                else mret known_levels);
             level ← lift (known_levels !! nlev);
             mret (known_levels, level, var)
           else
             mret (known_levels, level, set_att "kind" (att_int 5) var));
        k ← index "i" dims;
        var ← setitem k level var;
        mret (known_levels, var)
  end.

(** Third loop: for '+' data, [j] is the forecast and [i] the vertical
    level. *)
Definition remap_profile (forecast_axis momentum thermo : option addr)
    (known_levels : gmap nat addr) (var : variable)
  : M (gmap nat addr * variable) :=
  if negb (att_is var "typvar" "T") then mret (known_levels, var) else
  if negb (att_is var "grtyp" "+") then mret (known_levels, var) else
  dims ← dims var;
  var ← remap_j forecast_axis dims var;
  remap_i momentum thermo dims known_levels var.

(** The three dictionaries of the squashing pass, keyed by the identities
    of the time axis and of the forecast axis. *)
Record squash_cache := {
  known_squashed_forecasts : gmap (addr * addr) addr;
  known_leadtimes : gmap (addr * addr) addr;
  known_reftimes : gmap (addr * addr) addr
}.

Definition squash_forecast (known : squash_cache) (var : variable)
  : M (squash_cache * variable) :=
  time ← getaxis var "time";
  forecast ← getaxis var "forecast";
  match time, forecast with
  | Some time, Some forecast =>
      n ← len time;
      if bool_decide (n ≠ 1%nat) then
        _ ← warn "Can't use datev for timeseries data with multiple dates of origin.  Try re-running with the --dateo option.";
        mret (known, var)
      else
        d ← dims var;
        k ← index "time" d;
        var ← squeeze_axis k var;
        d ← dims var;
        k ← index "time" d;
        var ← pop k var;
        let key := (time, forecast) in
        known ←
          (if bool_decide (known_squashed_forecasts known !! key = None) then
             time_array ← array_of time;
             time0 ← lift (time_array !! 0%nat);
             forecast_array ← values_of forecast;
             let forecast_timedelta := timedelta64_s forecast_array in
             let squashed_times_array := datetime_add time0 <$> forecast_timedelta in
             time ← new_axis (_axis_type "time"
                      [("standard_name", att_str "time");
                       ("long_name", att_str "Validity time");
                       ("axis", att_str "T")] squashed_times_array);
             leadtime ← new_coord (_var_type "leadtime"
                      [("standard_name", att_str "forecast_period");
                       ("long_name", att_str "Lead time (since forecast_reference_time)");
                       ("units", att_str "hours")] [time] (array_values forecast_array));
             reftime ← new_coord (_var_type "reftime"
                      [("standard_name", att_str "forecast_reference_time")]
                      [] (scalar time0));
             mret {| known_squashed_forecasts := <[key := time]> (known_squashed_forecasts known);
                     known_leadtimes := <[key := leadtime]> (known_leadtimes known);
                     known_reftimes := <[key := reftime]> (known_reftimes known) |}
           else mret known);
        d ← dims var;
        k ← index "forecast" d;
        squashed ← lift (known_squashed_forecasts known !! key);
        var ← setitem k squashed var;
        leadtime ← lift (known_leadtimes known !! key);
        reftime ← lift (known_reftimes known !! key);
        mret (known, set_deps (v_deps var ++ [leadtime; reftime]) var)
  | _, _ => mret (known, var)
  end.

(** One round of the loop over the station_id axes and their variables. *)
Definition attach_station (station : addr * coord) (vars : list variable)
    (group : addr * list nat) : M (list variable) :=
  let '(station_id, varlist) := group in
  n ← len station_id;
  n0 ← station_shape0 station;
  '(vars, station_coord) ←
    (if bool_decide (n = n0) then
       a0 ← station_axis station 0;
       vars ← for_group (λ var, d ← dims var; k ← index "station_id" d; setitem k a0 var)
                 varlist vars;
       mret (vars, station.1)
     else
       ids ← array_of station_id;
       let indices := (λ x, x - 1) <$> ids in
       rows ← chars_of (c_array station.2);
       array ← lift (take_rows rows indices);
       station_id ← new_axis (_axis_type "station_id" [] ids);
       a1 ← station_axis station 1;
       let axes := [station_id; a1] in
       station_coord ← new_coord (_var_type "station" [] axes (chars array));
       mret (vars, station_coord));
  for_group (λ var, mret (set_deps (v_deps var ++ [station_coord]) var)) varlist vars.

Fixpoint attach_stations (station : addr * coord) (groups : list (addr * list nat))
    (vars : list variable) : M (list variable) :=
  match groups with
  | [] => mret vars
  | g :: groups' =>
      vars ← attach_station station vars g;
      attach_stations station groups' vars
  end.

Definition empty_cache : squash_cache :=
  {| known_squashed_forecasts := ∅; known_leadtimes := ∅; known_reftimes := ∅ |}.

(** The axis remapper: the three loops over the variables. *)
Definition remap_axes (station : option (addr * coord))
    (forecast_axis momentum thermo : option addr) (varlist : list variable)
  : M (list variable) :=
  '(_, varlist) ← for_each (name_station_axis station) tt varlist;
  '(_, varlist) ← for_each drop_level tt varlist;
  '(_, varlist) ← for_each (remap_profile forecast_axis momentum thermo) ∅ varlist;
  mret varlist.

Definition squash_forecasts (varlist : list variable) : M (list variable) :=
  if _squash_forecasts self then
    '(_, varlist) ← for_each squash_forecast empty_cache varlist;
    mret varlist
  else mret varlist.

Definition hook_stations (station : option (addr * coord)) (varlist : list variable)
  : M (list variable) :=
  match station with
  | Some station =>
      h ← get_axes;
      attach_stations station (_iter_axes "station_id" h varlist) varlist
  | None => mret varlist
  end.

(** [Series._makevars], from the variable list left by the generic
    pipeline ([super()._makevars()]). *)
Definition Series_makevars (varlist : list variable) : M (list variable) :=
  station ← get_station;
  forecast_axis ← get_forecast_axis;
  tm ← get_vertical "SH  " (None, None);
  '(thermo, momentum) ← get_vertical "SV  " tm;
  varlist ← remap_axes station forecast_axis momentum thermo varlist;
  varlist ← squash_forecasts varlist;
  hook_stations station varlist.

End makevars.

End Makevars.

(** * The options of [Series.__init__] *)

Module Options.

Import Makevars.

(** Text: a string stands for the Python [str] with the same code points,
    all below 256. *)

(** The value found under a keyword: nothing, a [str], or anything else
    (a list of names). *)
Inductive arg :=
| arg_none
| arg_str (s : string)
| arg_list (names : list string).

(** The code points below 256 that [str.split()] takes for whitespace. *)
Definition isspace (c : ascii) : bool :=
  let n := N_of_ascii c in
  ((9 <=? n) && (n <=? 13) || (28 <=? n) && (n <=? 32) || (n =? 133) || (n =? 160))%N.

(** [s.replace(old, new)] for one-character [old] and [new]. *)
Fixpoint replace (old new : ascii) (s : string) : string :=
  match s with
  | EmptyString => EmptyString
  | String c s' => String (if bool_decide (c = old) then new else c) (replace old new s')
  end.

(** [s.split()]: the maximal runs of characters that are not whitespace;
    [word] is the run being read. *)
Fixpoint split_from (word : string) (s : string) : list string :=
  match s with
  | EmptyString => if bool_decide (word = "") then [] else [word]
  | String c s' =>
      if isspace c
      then (if bool_decide (word = "") then [] else [word]) ++ split_from "" s'
      else split_from (word +:+ String c "") s'
  end.

Definition split (s : string) : list string := split_from "" s.

(** The handling of [profile_momentum_vars] and
    [profile_thermodynamic_vars]. *)
Definition names_of (vars : arg) : list string :=
  match vars with
  | arg_none => []
  | arg_str s => split (replace "," " " s)
  | arg_list names => names
  end.

(** The keywords popped by [Series.__init__]; an absent one is [None]. *)
Record kwargs := {
  profile_momentum_vars : arg;
  profile_thermodynamic_vars : arg;
  missing_bottom_profile_level : option bool
}.

(** The options of [self] after [Series.__init__]; [_squash_forecasts] is
    not set here. *)
Definition Series_options (kw : kwargs) (squash : bool) : Series :=
  {| _momentum_vars := names_of (profile_momentum_vars kw);
     _thermo_vars := names_of (profile_thermodynamic_vars kw);
     _missing_bottom_profile_level := default false (missing_bottom_profile_level kw);
     _squash_forecasts := squash |}.

End Options.

(** * Vocabulary of the specification *)

Module Spec.

Import Makevars.

(** ** Outcomes of a computation *)

(** [wp E m s Q]: the run of [m] from [s] ends in a result and a store that
    satisfy [Q]; [E] tells what an exception counts for ([True]: partial
    correctness, [False]: the run is known to return). *)
Definition wp (E : Prop) {A} (m : M A) (s : store) (Q : A → store → Prop) : Prop :=
  match m s with Some (x, s') => Q x s' | None => E end.

(** The pass [for_each body c0 vs] from [s0] has reached variable number
    [p] with the dictionaries [c] and the store [s]. *)
Definition reaches {C} (body : C → variable → M (C * variable)) (c0 : C) (s0 : store)
    (vs : list variable) (p : nat) (c : C) (s : store) : Prop :=
  ∃ pre, for_each body c0 (take p vs) s0 = Some ((c, pre), s).

(** ** What a pass may do to the store *)

(** The only change ever made to an axis object: an axis named [i] whose
    length is not one is renamed to [level]. *)
Definition axis_step (x x' : axis) : Prop :=
  x' = x ∨ (axis_name x = "i" ∧ axis_len x ≠ 1%nat ∧ x' = axis_rename "level" x).

Definition evolves (s s' : store) : Prop :=
  (∀ a x, axes_heap s !! a = Some x →
     ∃ x', axes_heap s' !! a = Some x' ∧ axis_step x x')
  ∧ coord_heap s `prefix_of` coord_heap s'
  ∧ warnings s `prefix_of` warnings s'.

(** Objects are only added. *)
Definition extends (s s' : store) : Prop :=
  axes_heap s `prefix_of` axes_heap s'
  ∧ coord_heap s `prefix_of` coord_heap s'
  ∧ warnings s `prefix_of` warnings s'.

(** Every run of [m] that returns leaves a store related to the initial
    one by [evolves]. *)
Definition keeps {A} (m : M A) : Prop :=
  ∀ s x s', m s = Some (x, s') → evolves s s'.

Definition same_store {C} (x y : C * store) : Prop := x.2 = y.2.

(** Every run of [m] that returns has only added objects and warnings. *)
Definition grows {A} (m : M A) : Prop :=
  ∀ s x s', m s = Some (x, s') → extends s s'.

(** Every run of [m] that returns leaves the axis object at [b] as it
    was. *)
Definition spares {A} (b : addr) (m : M A) : Prop :=
  ∀ s x s', m s = Some (x, s') → is_Some (axes_heap s !! b) →
    axes_heap s' !! b = axes_heap s !! b.

(** The axes of a variable are live objects of the store. *)
Definition live (h : list axis) (var : variable) : Prop :=
  Forall (λ b, is_Some (h !! b)) (v_axes var).

#[global] Instance live_dec h var : Decision (live h var).
Proof. unfold live. apply _. Defined.

(** The store after [axis.name = 'level'], and after a warning. *)
Definition renamed (a : addr) (s : store) : store :=
  {| axes_heap := alter (axis_rename "level") a (axes_heap s);
     coord_heap := coord_heap s; warnings := warnings s |}.

Definition warned (msg : string) (s : store) : store :=
  {| axes_heap := axes_heap s; coord_heap := coord_heap s;
     warnings := warnings s ++ [msg] |}.

(** ** The axis remapper *)

(** Position and address of the first axis of a given name: what
    [dims.index] and [getaxis] return together. *)
Definition find_axis (h : list axis) (axs : list addr) (nm : string)
  : option (nat * addr) :=
  list_find (λ a, name_at h a = nm) axs.

(** A '+' variable: type 'T', grid '+'. *)
Definition is_profile (var : variable) : Prop :=
  att_is var "typvar" "T" = true ∧ att_is var "grtyp" "+" = true.

(** The axes handed to the remapper are those the extractor built: a
    forecast axis named [forecast], vertical axes named [level]. *)
Definition extracted (s : store) (fa mo th : option addr) : Prop :=
  (∀ f, fa = Some f → name_at (axes_heap s) f = "forecast")
  ∧ (∀ m, mo = Some m → name_at (axes_heap s) m = "level")
  ∧ (∀ t, th = Some t → name_at (axes_heap s) t = "level").

(** No profile variable before number [p] holds the axis object [a]. *)
Definition unshared (vars : list variable) (p : nat) (a : addr) : Prop :=
  Forall (λ u, is_profile u → a ∉ v_axes u) (take p vars).

#[global] Instance is_profile_dec var : Decision (is_profile var).
Proof. unfold is_profile. apply _. Defined.

#[global] Instance unshared_dec vars p a : Decision (unshared vars p a).
Proof. unfold unshared. apply _. Defined.

(** The axes of a variable after the second loop, and after the first
    half of the third. *)
Definition drop_level_axes (h : list axis) (axs : list addr) : list addr :=
  match find_axis h axs "level" with
  | Some (kl, _) => delete kl axs
  | None => axs
  end.

Definition remap_j_axes (h : list axis) (fa : option addr) (axs : list addr) : list addr :=
  match find_axis h axs "j", fa with
  | Some (k, j), Some f =>
      if bool_decide (len_at h j = len_at h f) then <[k := f]> axs else axs
  | _, _ => axs
  end.

(** The dictionary of generic level dimensions holds what it says. *)
Definition levels_ok (known : gmap nat addr) (s : store) : Prop :=
  ∀ n d, known !! n = Some d → axes_heap s !! d = Some (_dim_type "level" n).

Definition level_rel (x y : gmap nat addr * store) : Prop :=
  evolves x.2 y.2 ∧ x.1 ⊆ y.1 ∧ (levels_ok x.1 x.2 → levels_ok y.1 y.2).

Definition unable_msg (var : variable) : string :=
  "Unable to find the vertical coordinates for " +:+ v_name var +:+ ".".

(** A profile variable with more than a degenerate [i] axis (the first
    axis named [i] is [a], at position [k], of length [n]), named in
    neither list of variables. *)
Definition unidentified (self : Series) (s : store) (var : variable)
    (k : nat) (a : addr) (n : nat) : Prop :=
  is_profile var
  ∧ (find_axis (axes_heap s) (v_axes var) "i" = Some (k, a))
  ∧ len_at (axes_heap s) a = n ∧ n ≠ 1%nat
  ∧ (v_name var ∉ _momentum_vars self) ∧ (v_name var ∉ _thermo_vars self).

(** ** Squashing *)

Definition time_atts : list (string * att) :=
  [("standard_name", att_str "time"); ("long_name", att_str "Validity time");
   ("axis", att_str "T")].

Definition leadtime_atts : list (string * att) :=
  [("standard_name", att_str "forecast_period");
   ("long_name", att_str "Lead time (since forecast_reference_time)");
   ("units", att_str "hours")].

Definition reftime_atts : list (string * att) :=
  [("standard_name", att_str "forecast_reference_time")].

Definition squash_msg : string :=
  "Can't use datev for timeseries data with multiple dates of origin.  Try re-running with the --dateo option.".

(** The validity times: the date of origin plus the forecast hours, in
    seconds. *)
Definition validity_times (time0 : Z) (hours : values) : list Z :=
  datetime_add time0 <$> timedelta64_s hours.

(** What the three dictionaries hold for a pair of axes [(t, f)]: the
    squashed time axis [d] and the coordinates [lt] and [rt]. *)
Definition squash_entry (known : squash_cache) (s : store) (t f d lt rt : addr)
    (time0 : Z) (hours : values) : Prop :=
  known_squashed_forecasts known !! (t, f) = Some d
  ∧ known_leadtimes known !! (t, f) = Some lt
  ∧ known_reftimes known !! (t, f) = Some rt
  ∧ axes_heap s !! d = Some (_axis_type "time" time_atts (validity_times time0 hours))
  ∧ coord_heap s !! lt = Some (_var_type "leadtime" leadtime_atts [d] (array_values hours))
  ∧ coord_heap s !! rt = Some (_var_type "reftime" reftime_atts [] (scalar time0)).

Definition squash_ok (known : squash_cache) (s : store) : Prop :=
  ∀ t f d, known_squashed_forecasts known !! (t, f) = Some d →
    ∃ lt rt time0 rest hours,
      axes_heap s !! t ≫= axis_array = Some (time0 :: rest)
      ∧ axes_heap s !! f ≫= axis_values = Some hours
      ∧ squash_entry known s t f d lt rt time0 hours.

Definition squash_rel (x y : squash_cache * store) : Prop :=
  extends x.2 y.2
  ∧ known_squashed_forecasts x.1 ⊆ known_squashed_forecasts y.1
  ∧ (∀ key, is_Some (known_squashed_forecasts x.1 !! key) →
       known_leadtimes y.1 !! key = known_leadtimes x.1 !! key
       ∧ known_reftimes y.1 !! key = known_reftimes x.1 !! key)
  ∧ (squash_ok x.1 x.2 → squash_ok y.1 y.2)
  ∧ (length (axes_heap y.2) + size (known_squashed_forecasts x.1)
     = length (axes_heap x.2) + size (known_squashed_forecasts y.1))%nat
  ∧ (length (coord_heap y.2) + 2 * size (known_squashed_forecasts x.1)
     = length (coord_heap x.2) + 2 * size (known_squashed_forecasts y.1))%nat.

(** The store and dictionaries after the three objects are built. *)
Definition squash_store (time0 : Z) (hours : values) (s : store) : store :=
  {| axes_heap := axes_heap s ++ [_axis_type "time" time_atts (validity_times time0 hours)];
     coord_heap := coord_heap s
       ++ [_var_type "leadtime" leadtime_atts [length (axes_heap s)] (array_values hours);
           _var_type "reftime" reftime_atts [] (scalar time0)];
     warnings := warnings s |}.

Definition squash_insert (key : addr * addr) (s : store) (known : squash_cache)
  : squash_cache :=
  {| known_squashed_forecasts := <[key := length (axes_heap s)]> (known_squashed_forecasts known);
     known_leadtimes := <[key := length (coord_heap s)]> (known_leadtimes known);
     known_reftimes := <[key := S (length (coord_heap s))]> (known_reftimes known) |}.

(** Position of the forecast axis once the time axis is popped. *)
Definition after_pop (kt kf : nat) : nat :=
  if bool_decide (kf < kt)%nat then kf else pred kf.

(** The variable after squashing: time dimension gone, forecast replaced,
    two dependencies more. *)
Definition squashed_var (kt kf : nat) (d lt rt : addr) (var : variable) : variable :=
  set_deps (v_deps var ++ [lt; rt])
    (set_axes (<[after_pop kt kf := d]> (delete kt (v_axes var)))
       (set_record_id (delete kt (v_record_id var)) var)).

(** A variable that the pass squashes: it has a time axis holding the one
    date of origin and a valued forecast axis, and its record table has one
    entry along the time axis. *)
Definition squashable (s : store) (var : variable) (kt : nat) (t : addr)
    (kf : nat) (f : addr) (time0 : Z) (hours : values) : Prop :=
  find_axis (axes_heap s) (v_axes var) "time" = Some (kt, t)
  ∧ find_axis (axes_heap s) (v_axes var) "forecast" = Some (kf, f)
  ∧ axes_heap s !! t ≫= axis_array = Some [time0]
  ∧ axes_heap s !! f ≫= axis_values = Some hours
  ∧ v_record_id var !! kt = Some 1%nat.

(** The pair of axis objects for which the pass squashes a variable, and
    the pairs of a list of variables. *)
Definition squashed_pair (h : list axis) (var : variable) : option (addr * addr) :=
  match find_axis h (v_axes var) "time", find_axis h (v_axes var) "forecast" with
  | Some (_, t), Some (_, f) =>
      if bool_decide (len_at h t = 1%nat) then Some (t, f) else None
  | _, _ => None
  end.

Definition squashed_pairs (h : list axis) (vars : list variable) : gset (addr * addr) :=
  list_to_set (omap (squashed_pair h) vars).

(** The squashed axes of the dictionary are distinct objects. *)
Definition distinct_axes (known : squash_cache) (s : store) : Prop :=
  (∀ key d, known_squashed_forecasts known !! key = Some d →
     (d < length (axes_heap s))%nat)
  ∧ ∀ key key' d, known_squashed_forecasts known !! key = Some d →
      known_squashed_forecasts known !! key' = Some d → key = key'.

(** A 64-bit integer other than NaT. *)
Definition in64 (z : Z) : Prop := - 2 ^ 63 < z < 2 ^ 63.

(** Whole hours as floating-point numbers. *)
Definition whole_hours (ft : float_type) (hs : list Z) : values :=
  floats ft (float_of_int ft <$> hs).

End Spec.

(** * Sample data *)

Module Sample.

Import Classifier Makevars.

(** Three records: a profile, a 'Y' series and an ordinary field. *)
Definition fields : headers :=
  {| typvar := ["T "; "T "; "P "];
     grtyp := ["+"; "Y"; "Z"];
     ip1 := [12000; 0; 500];
     ip3 := [7; 0; 0];
     ig1 := [41; 42; 43]; ig2 := [1; 2; 3]; ig3 := [4; 5; 6]; ig4 := [7; 8; 9];
     leadtime := Some (plain [0; 6; 12]);
     reftime := Some (masked [100; 100; 100] [false; false; true]);
     station_id := None |}.

Definition units_hours : list (string * att) := [("units", att_str "hours")].

Definition no_store : store := {| axes_heap := []; coord_heap := []; warnings := [] |}.

Definition profile_var (name : string) (axes : list addr) (record_id : list nat)
  : variable :=
  {| v_name := name;
     v_atts := {[ "typvar" := att_str "T"; "grtyp" := att_str "+" ]};
     v_axes := axes; v_deps := []; v_record_id := record_id |}.

Definition plain_var (name : string) (axes : list addr) (record_id : list nat)
  : variable :=
  {| v_name := name;
     v_atts := {[ "typvar" := att_str "P"; "grtyp" := att_str "Z" ]};
     v_axes := axes; v_deps := []; v_record_id := record_id |}.

Definition no_lists : Series :=
  {| _momentum_vars := []; _thermo_vars := [];
     _missing_bottom_profile_level := false; _squash_forecasts := true |}.

Definition both_lists : Series :=
  {| _momentum_vars := ["UU"; "TT"]; _thermo_vars := ["TT"];
     _missing_bottom_profile_level := false; _squash_forecasts := false |}.

Definition both_lists_trimmed : Series :=
  {| _momentum_vars := ["UU"; "TT"]; _thermo_vars := ["TT"];
     _missing_bottom_profile_level := true; _squash_forecasts := false |}.

Definition noon (stamp : Z) : datetime :=
  {| year := 2020; month := 1; day := 1; hour := 12; minute := 0; second := 0 |}.



(** Vertical records with two levels each. *)
Definition two_levels (nomvar : string) : option header :=
  if bool_decide (nomvar = "SH  ")
  then Some {| h_shape := [1%nat; 2%nat]; h_d := [10; 20]; h_dateo := 0 |}
  else if bool_decide (nomvar = "SV  ")
  then Some {| h_shape := [1%nat; 2%nat]; h_d := [11; 21]; h_dateo := 0 |}
  else None.

Definition no_records (nomvar : string) : option header := None.
Definition no_atts (h : header) : list (string * att) := [].
Definition no_groups (name : string) (h : list axis) (vs : list variable)
  : list (addr * list nat) := [].

(** A degenerate profile: level from IP1, three forecasts, one level. *)
Definition degenerate_store : store :=
  {| axes_heap := [_axis_type "level" [] [0]; _dim_type "j" 3; _dim_type "i" 1;
                   _axis_type "forecast" units_hours [0; 3; 6]];
     coord_heap := []; warnings := [] |}.

Definition degenerate_vars : list variable := [profile_var "ZZ" [0; 1; 2]%nat [1%nat]].

Definition degenerate_outcome : list variable * store :=
  Eval vm_compute in
    default ([], no_store)
      (remap_axes no_lists None (Some 3%nat) None None degenerate_vars degenerate_store).

(** Two profiles of four levels, in neither list. *)
Definition generic_store : store :=
  {| axes_heap := [_dim_type "i" 4; _dim_type "i" 4]; coord_heap := []; warnings := [] |}.

Definition generic_vars : list variable :=
  [profile_var "XX" [0%nat] []; profile_var "YY" [1%nat] []].

(** A profile of three levels named in both lists, with both vertical
    axes of three levels. *)
Definition both_store : store :=
  {| axes_heap := [_dim_type "i" 3; _axis_type "level" [] [10; 20; 30];
                   _axis_type "level" [] [11; 21; 31]];
     coord_heap := []; warnings := [] |}.

(** Stations A, B, C and a variable on stations 3 and 1. *)
Definition abc : list (list ascii) := [["A"%char]; ["B"%char]; ["C"%char]].

Definition station_vars : list variable := [profile_var "TT" [2%nat] [2%nat]].

(** Two variables holding the same [i] dimension; the second one is not a
    profile. *)
Definition shared_store : store :=
  {| axes_heap := [_dim_type "i" 3]; coord_heap := []; warnings := [] |}.

Definition shared_vars : list variable :=
  [profile_var "TT" [0%nat] []; plain_var "PP" [0%nat] []].

Definition shared_outcome : list variable * store :=
  Eval vm_compute in
    default ([], no_store)
      (Series_makevars no_lists no_records noon no_atts no_groups shared_vars shared_store).

(** A profile of one level named in both lists; the vertical records have
    two levels and the bottom one is taken to be missing. *)
Definition trimmed_outcome : (option addr * option addr) * store :=
  Eval vm_compute in
    default ((None, None), no_store)
      ((tm ← get_vertical both_lists_trimmed two_levels no_atts "SH  " (None, None);
        get_vertical both_lists_trimmed two_levels no_atts "SV  " tm)
         {| axes_heap := [_dim_type "i" 1]; coord_heap := []; warnings := [] |}).

(** The remapper and the later passes on whole lists of variables. *)
Definition generic_outcome : list variable * store :=
  Eval vm_compute in
    default ([], no_store)
      (remap_axes no_lists None None None None generic_vars generic_store).

(** Two profiles in neither list that hold the same dimension of four
    levels. *)
Definition twin_store : store :=
  {| axes_heap := [_dim_type "i" 4]; coord_heap := []; warnings := [] |}.

Definition twin_vars : list variable :=
  [profile_var "XX" [0%nat] []; profile_var "YY" [0%nat] []].

Definition twin_outcome : list variable * store :=
  Eval vm_compute in
    default ([], no_store) (remap_axes no_lists None None None None twin_vars twin_store).

(** A profile named in both lists, alone and twice on the same dimension
    of three levels. *)
Definition both_vars : list variable := [profile_var "TT" [0%nat] []].

Definition both_outcome : list variable * store :=
  Eval vm_compute in
    default ([], no_store)
      (remap_axes both_lists None None (Some 2%nat) (Some 1%nat) both_vars both_store).

Definition both_twin_vars : list variable :=
  [profile_var "TT" [0%nat] []; profile_var "TT" [0%nat] []].

Definition both_twin_outcome : list variable * store :=
  Eval vm_compute in
    default ([], no_store)
      (remap_axes both_lists None None (Some 2%nat) (Some 1%nat) both_twin_vars both_store).

(** One date of origin and two forecast axes, one in whole hours stored as
    32-bit floating-point numbers, one in integers; two variables hold the
    first pair, a third one the second. *)
Definition squash_store2 : store :=
  {| axes_heap := [_axis_type "time" [] [1000];
                   _axis_type_f "forecast" units_hours float32
                     (float_of_int float32 <$> [0; 6; 12]);
                   _axis_type "forecast" units_hours [0; 3]];
     coord_heap := []; warnings := [] |}.

Definition squash_vars2 : list variable :=
  [plain_var "AA" [0; 1]%nat [1%nat]; plain_var "BB" [1; 0]%nat [3%nat; 1%nat];
   plain_var "CC" [0; 2]%nat [1%nat]].

Definition squash_outcome2 : list variable * store :=
  Eval vm_compute in
    default ([], no_store) (squash_forecasts no_lists squash_vars2 squash_store2).

(** A variable on all three stations and a variable on stations 3 and 1,
    each in its group. *)
Definition groups_store : store :=
  {| axes_heap := [_dim_type "station_id" 3; _dim_type "station_strlen" 1;
                   _axis_type "station_id" [] [3; 1];
                   _axis_type "station_id" [] [1; 2; 3]];
     coord_heap := [_var_type "station" [] [0; 1]%nat (chars abc)];
     warnings := [] |}.

Definition groups_vars : list variable :=
  [profile_var "TT" [2%nat] [2%nat]; profile_var "UU" [3%nat] [3%nat]].

Definition two_groups (name : string) (h : list axis) (vs : list variable)
  : list (addr * list nat) := [(3%nat, [1%nat]); (2%nat, [0%nat])].

Definition groups_outcome : list variable * store :=
  Eval vm_compute in
    default ([], no_store)
      (hook_stations two_groups
         (Some (0%nat, _var_type "station" [] [0; 1]%nat (chars abc)))
         groups_vars groups_store).

End Sample.

(** * Vocabulary of the further properties *)

Module Outcomes.

Import Makevars Spec.

(** ** Option strings *)

Fixpoint forall_chars (p : ascii → bool) (s : string) : bool :=
  match s with
  | EmptyString => true
  | String c s' => p c && forall_chars p s'
  end.

(** A separator of the option strings: a comma or whitespace. *)
Definition is_sep (c : ascii) : bool :=
  Options.isspace c || bool_decide (c = ","%char).

(** A name that can be given in an option string: not empty, free of
    separators. *)
Definition plain_name (n : string) : Prop :=
  n ≠ "" ∧ forall_chars (λ c, negb (is_sep c)) n = true.

(** The word being read by [split], once it ends. *)
Definition emit (w : string) : list string := if bool_decide (w = "") then [] else [w].

(** ** The store after more warnings *)

Definition warned_all (msgs : list string) (s : store) : store :=
  {| axes_heap := axes_heap s; coord_heap := coord_heap s;
     warnings := warnings s ++ msgs |}.

(** ** The choice of the vertical axis *)

(** The vertical axis [axis] is tried for [var] (the variable is named in
    [names] and the axis was extracted) and is as long as the [i] axis
    [a]. *)
Definition fits (names : list string) (axis : option addr) (s : store)
    (var : variable) (a x : addr) : Prop :=
  axis = Some x ∧ v_name var ∈ names
  ∧ len_at (axes_heap s) x = len_at (axes_heap s) a.

(** The warning of a vertical axis that is tried and has another length. *)
Definition misfit (names : list string) (axis : option addr) (msg : string)
    (s : store) (var : variable) (a : addr) : list string :=
  match axis with
  | Some x =>
      if bool_decide (v_name var ∈ names ∧ len_at (axes_heap s) x ≠ len_at (axes_heap s) a)
      then [msg] else []
  | None => []
  end.

Definition momentum_msg : string := "Wrong number of momentum levels found in the data.".
Definition thermo_msg : string := "Wrong number of thermodynamic levels found in the data.".

(** The warnings of the two attempts, in the order of the code. *)
Definition misfits (self : Series) (mo th : option addr) (s : store)
    (var : variable) (a : addr) : list string :=
  misfit (_momentum_vars self) mo momentum_msg s var a
  ++ misfit (_thermo_vars self) th thermo_msg s var a.

(** The store after the rename of [a] and the warnings [msgs]. *)
Definition renamed_warned (a : addr) (msgs : list string) (s : store) : store :=
  {| axes_heap := alter (axis_rename "level") a (axes_heap s);
     coord_heap := coord_heap s; warnings := warnings s ++ msgs |}.

(** Position of the [j] axis [kj] after the round: one less when a
    degenerate [i] axis in front of it is removed. *)
Definition forecast_slot (h : list axis) (axs : list addr) (kj : nat) : nat :=
  match find_axis h axs "i" with
  | Some (k, a) =>
      if bool_decide (len_at h a = 1%nat ∧ (k < kj)%nat) then pred kj else kj
  | None => kj
  end.

(** ** Station names *)

(** A name as the record stores it, padded with blanks to [strlen] bytes,
    and as it comes out, padded with NULs. *)
Definition blank_padded (strlen : nat) (name : list Z) : list Z :=
  name ++ replicate (strlen - length name) 32.

Definition nul_padded (strlen : nat) (name : list Z) : list ascii :=
  (λ b, ascii_of_N (Z.to_N b)) <$> (name ++ replicate (strlen - length name) 0).

(** A station name: ASCII, at most [strlen] long, not ending in whitespace
    or NUL. *)
Definition station_name (strlen : nat) (name : list Z) : Prop :=
  (length name ≤ strlen)%nat
  ∧ Forall (λ x, 0 ≤ x < 128) name
  ∧ ∀ x, last name = Some x → x ≠ 0 ∧ is_space x = false.

(** The record holds the names column by column: byte [j] of station [i]
    is entry [j * nstations + i]. *)
Definition holds_names (header : header) (strlen nstations : nat)
    (names : list (list Z)) : Prop :=
  h_shape header = [strlen; nstations]
  ∧ length names = nstations
  ∧ ∀ i name j, names !! i = Some name → (j < strlen)%nat →
      h_d header !! (j * nstations + i)%nat = blank_padded strlen name !! j.

(** ** The station binder *)

(** The variable with its station_id axis replaced by [a0]. *)
Definition on_station_axis (h : list axis) (a0 : addr) (v : variable) : variable :=
  match find_axis h (v_axes v) "station_id" with
  | Some (k, _) => set_axes (<[k := a0]> (v_axes v)) v
  | None => v
  end.

(** ** What a run may do to a variable *)

(** The name stays, the attributes stay or gain the vertical kind, the
    dependencies grow at the end, and no dimension is added. *)
Definition var_step (v v' : variable) : Prop :=
  v_name v' = v_name v
  ∧ (v_atts v' = v_atts v ∨ v_atts v' = <["kind" := att_int 5]> (v_atts v))
  ∧ v_deps v `prefix_of` v_deps v'
  ∧ (length (v_axes v') ≤ length (v_axes v))%nat.

(** Every result of [m] satisfies [Q]. *)
Definition yields {A} (Q : A → Prop) (m : M A) : Prop :=
  ∀ s x s', m s = Some (x, s') → Q x.

End Outcomes.

(** * Further sample data *)

Module Cases.

Import Classifier Makevars Options.

(** Stations AB and C in names of three bytes, stored column by column;
    the same record with the high bit set; a record without stations. *)
Definition stns_names : list (list Z) := [[65; 66]; [67]].

Definition stns_record : header :=
  {| h_shape := [3; 2]%nat; h_d := [65; 67; 66; 32; 32; 32]; h_dateo := 0 |}.

Definition stns_high : header :=
  {| h_shape := [3; 2]%nat; h_d := [193; 195; 194; 160; 160; 160]; h_dateo := 0 |}.

Definition stns_empty : header :=
  {| h_shape := [0; 2]%nat; h_d := []; h_dateo := 0 |}.

Definition only_stns (h : header) (nomvar : string) : option header :=
  if bool_decide (nomvar = "STNS") then Some h else None.

(** A vertical record with a single value. *)
Definition single_value (nomvar : string) : option header :=
  if bool_decide (nomvar = "SH  ")
  then Some {| h_shape := [1; 1]%nat; h_d := [10]; h_dateo := 0 |} else None.

(** A 'Y' series on two stations beside an ordinary field. *)
Definition y_var (name : string) (axes : list addr) (record_id : list nat) : variable :=
  {| v_name := name;
     v_atts := {[ "typvar" := att_str "T"; "grtyp" := att_str "Y" ]};
     v_axes := axes; v_deps := []; v_record_id := record_id |}.

Definition two_stations : coord :=
  _var_type "station" [] [0; 1]%nat (chars [["A"%char]; ["B"%char]]).

Definition y_store : store :=
  {| axes_heap := [_dim_type "station_id" 2; _dim_type "station_strlen" 1;
                   _dim_type "i" 2; _dim_type "j" 5];
     coord_heap := [two_stations]; warnings := [] |}.

Definition y_vars : list variable :=
  [y_var "PN" [2; 3]%nat []; Sample.plain_var "GZ" [2; 3]%nat []].

Definition y_outcome : list variable * store :=
  Eval vm_compute in
    default ([], Sample.no_store)
      (remap_axes Sample.no_lists (Some (0%nat, two_stations)) None None None y_vars y_store).

(** A profile whose table of records has two entries along the level
    axis. *)
Definition two_level_records : store :=
  {| axes_heap := [_axis_type "level" [] [0; 1]; _dim_type "i" 3];
     coord_heap := []; warnings := [] |}.

(** A profile of three forecasts and four levels. *)
Definition forecast_store : store :=
  {| axes_heap := [_dim_type "j" 3; _dim_type "i" 4;
                   _axis_type "forecast" Sample.units_hours [0; 3; 6]];
     coord_heap := []; warnings := [] |}.

(** A profile of four levels beside a momentum axis of three. *)
Definition misfit_store : store :=
  {| axes_heap := [_dim_type "i" 4; _axis_type "level" [] [11; 21; 31]];
     coord_heap := []; warnings := [] |}.

(** Groups of variables on all three stations, and on stations that do
    not exist or are counted from the end. *)
Definition all_stations_store : store :=
  {| axes_heap := [_dim_type "station_id" 3; _dim_type "station_strlen" 1;
                   _dim_type "station_id" 3];
     coord_heap := [_var_type "station" [] [0; 1]%nat (chars Sample.abc)];
     warnings := [] |}.

Definition stations_store (ids : list Z) : store :=
  {| axes_heap := [_dim_type "station_id" 3; _dim_type "station_strlen" 1;
                   _axis_type "station_id" [] ids];
     coord_heap := [_var_type "station" [] [0; 1]%nat (chars Sample.abc)];
     warnings := [] |}.

End Cases.

(** * Properties of the classifier *)

Section classifier_properties.

Import Classifier.

Implicit Types (fields : headers) (i : nat) (t g : string) (c : column).

Lemma series_rec_true t g :
  series_rec t g = true ↔ t = "T " ∧ (g = "+" ∨ g = "Y" ∨ g = "T").
Proof.
  unfold series_rec.
  rewrite andb_true_iff, !orb_true_iff, !bool_decide_eq_true. tauto.
Qed.

Lemma split_series_rec_true t g :
  split_series_rec t g = true ↔ t = "T " ∧ g = "+".
Proof.
  unfold split_series_rec. by rewrite andb_true_iff, !bool_decide_eq_true.
Qed.

Lemma eq_lit_lookup lit (col : list string) i s :
  col !! i = Some s → eq_lit lit col !! i = Some (bool_decide (s = lit)).
Proof. intros H. unfold eq_lit. by rewrite list_lookup_fmap, H. Qed.

Lemma is_series_lookup fields i t g :
  typvar fields !! i = Some t → grtyp fields !! i = Some g →
  is_series fields !! i = Some (series_rec t g).
Proof.
  intros Ht Hg. unfold is_series, series_rec.
  rewrite !lookup_zip_with.
  by rewrite (eq_lit_lookup _ _ _ _ Ht), !(eq_lit_lookup _ _ _ _ Hg).
Qed.

Lemma is_split_series_lookup fields i t g :
  typvar fields !! i = Some t → grtyp fields !! i = Some g →
  is_split_series fields !! i = Some (split_series_rec t g).
Proof.
  intros Ht Hg. unfold is_split_series, split_series_rec.
  rewrite !lookup_zip_with.
  by rewrite (eq_lit_lookup _ _ _ _ Ht), (eq_lit_lookup _ _ _ _ Hg).
Qed.

Lemma assign_where_lookup (sel : list bool) (col : list Z) i (b : bool) v :
  sel !! i = Some b →
  assign_where sel v col !! i = (λ x, if b then v else x) <$> col !! i.
Proof.
  intros Hb. unfold assign_where. rewrite lookup_zip_with, Hb. simpl.
  by destruct (col !! i).
Qed.

Lemma read_mask_where (sel : list bool) c i (b : bool) :
  sel !! i = Some b →
  read (mask_where sel c) i = (λ xm : Z * bool, (xm.1, xm.2 || b)) <$> read c i.
Proof.
  intros Hb. unfold read, mask_where, set_mask, ma_asarray. simpl.
  destruct (data_of c !! i) as [x|]; simpl; [|done].
  rewrite lookup_zip_with, Hb.
  by destruct (ma_getmaskarray c !! i).
Qed.

(** The int32 conversion lands in the signed 32-bit range and leaves the
    values of that range alone. *)
Lemma int32_range z : - 2 ^ 31 ≤ int32 z < 2 ^ 31.
Proof. unfold int32. pose proof (Z.mod_pos_bound (z + 2 ^ 31) (2 ^ 32)). lia. Qed.

Lemma int32_small z : - 2 ^ 31 ≤ z < 2 ^ 31 → int32 z = z.
Proof. intros H. unfold int32. rewrite Z.mod_small; lia. Qed.

(** C1. After the classifier has run, the station_id column of a record of
    type 'T' (stored as the two bytes [T ]) and grid '+' holds the record's
    ip3 converted to int32 and is not masked; for every other record the
    station_id entry is masked. *)
Theorem station_id_of_split_series fields i t g z :
  typvar fields !! i = Some t →
  grtyp fields !! i = Some g →
  ip3 fields !! i = Some z →
  ∃ c, station_id (Series_init fields) = Some c ∧
    (t = "T " ∧ g = "+" → read c i = Some (int32 z, false)) ∧
    (¬ (t = "T " ∧ g = "+") → read c i = Some (int32 z, true)).
Proof.
  intros Ht Hg Hz. eexists. split; [reflexivity|].
  pose proof (is_split_series_lookup _ _ _ _ Ht Hg) as Hs.
  assert (Hr : ∀ b, split_series_rec t g = b →
    read (masked (int32 <$> ip3 fields) (negb <$> is_split_series fields)) i
    = Some (int32 z, negb b)).
  { intros b <-. unfold read. simpl. by rewrite !list_lookup_fmap, Hz, Hs. }
  split; intros H.
  - apply (Hr true). by apply split_series_rec_true.
  - apply (Hr false). apply not_true_is_false. by rewrite split_series_rec_true.
Qed.

(** C2. After the classifier has run, a record classified as series (type
    'T', grid '+', 'Y' or 'T') has its lead time and reference time masked,
    where these columns exist, and reads zero in ig1, ig2, ig3, ig4 and ip1;
    a record that is not a series keeps all of these as they were. *)
Theorem series_fields_reset fields i t g :
  typvar fields !! i = Some t →
  grtyp fields !! i = Some g →
  let fields' := Series_init fields in
  let zeroed (col : headers → list Z) :=
    ∀ x, col fields !! i = Some x → col fields' !! i = Some 0 in
  let hidden (col : headers → option column) :=
    ∀ c x m, col fields = Some c → read c i = Some (x, m) →
      ∃ c', col fields' = Some c' ∧ read c' i = Some (x, true) in
  let kept (col : headers → list Z) := col fields' !! i = col fields !! i in
  let same (col : headers → option column) :=
    ∀ c, col fields = Some c → ∃ c', col fields' = Some c' ∧ read c' i = read c i in
  (t = "T " ∧ (g = "+" ∨ g = "Y" ∨ g = "T") →
     hidden leadtime ∧ hidden reftime ∧
     zeroed ig1 ∧ zeroed ig2 ∧ zeroed ig3 ∧ zeroed ig4 ∧ zeroed ip1) ∧
  (¬ (t = "T " ∧ (g = "+" ∨ g = "Y" ∨ g = "T")) →
     same leadtime ∧ same reftime ∧
     kept ig1 ∧ kept ig2 ∧ kept ig3 ∧ kept ig4 ∧ kept ip1).
Proof.
  intros Ht Hg fields' zeroed hidden kept same.
  pose proof (is_series_lookup _ _ _ _ Ht Hg) as Hs.
  split; intros H.
  - apply series_rec_true in H. rewrite H in Hs.
    assert (Hh : ∀ col : headers → option column,
      (∀ f, col (Series_init f) = mask_where (is_series f) <$> col f) → hidden col).
    { intros col Hcol c x m Hc Hr. exists (mask_where (is_series fields) c).
      split; [unfold fields'; by rewrite Hcol, Hc|].
      by rewrite (read_mask_where _ _ _ _ Hs), Hr; simpl; rewrite orb_true_r. }
    assert (Hz : ∀ col : headers → list Z,
      (∀ f, col (Series_init f) = assign_where (is_series f) 0 (col f)) → zeroed col).
    { intros col Hcol x Hx. unfold fields'.
      by rewrite Hcol, (assign_where_lookup _ _ _ _ _ Hs), Hx. }
    repeat split; (apply Hh || apply Hz); done.
  - assert (Hf : series_rec t g = false).
    { apply not_true_is_false. by rewrite series_rec_true. }
    rewrite Hf in Hs.
    assert (Hh : ∀ col : headers → option column,
      (∀ f, col (Series_init f) = mask_where (is_series f) <$> col f) → same col).
    { intros col Hcol c Hc. exists (mask_where (is_series fields) c).
      split; [unfold fields'; by rewrite Hcol, Hc|].
      rewrite (read_mask_where _ _ _ _ Hs).
      destruct (read c i) as [[x m]|]; simpl; [|done]. by rewrite orb_false_r. }
    assert (Hz : ∀ col : headers → list Z,
      (∀ f, col (Series_init f) = assign_where (is_series f) 0 (col f)) → kept col).
    { intros col Hcol. unfold kept, fields'.
      rewrite Hcol, (assign_where_lookup _ _ _ _ _ Hs). by destruct (col fields !! i). }
    repeat split; (apply Hh || apply Hz); done.
Qed.

End classifier_properties.

(** * Properties of [Series._makevars] *)

Import Makevars Spec.

(** ** Outcomes of a computation *)

Section wp.
Context (E : Prop) {A B : Type}.
Implicit Types (s : store) (Q : A → store → Prop).

Lemma wp_bind (m : M A) (k : A → M B) s (Q : B → store → Prop) :
  wp E (m ≫= k) s Q = wp E m s (λ x s1, wp E (k x) s1 Q).
Proof. unfold wp, mbind, M_bind. by destruct (m s) as [[??]|]. Qed.

Lemma wp_ret (x : A) s Q : wp E (mret x) s Q = Q x s.
Proof. done. Qed.

Lemma wp_raise s Q : wp E raise s Q = E.
Proof. done. Qed.

Lemma wp_lift_Some (x : A) s Q : wp E (lift (Some x)) s Q = Q x s.
Proof. done. Qed.

Lemma wp_lift_None s Q : wp E (lift None) s Q = E.
Proof. done. Qed.

Lemma wp_mono (m : M A) s Q Q' :
  wp E m s Q → (∀ x s', Q x s' → Q' x s') → wp E m s Q'.
Proof. unfold wp. destruct (m s) as [[??]|]; auto. Qed.

Lemma wp_run (m : M A) s Q x s' : m s = Some (x, s') → wp E m s Q → Q x s'.
Proof. unfold wp. by intros ->. Qed.

End wp.

Lemma wp_total {A} (m : M A) s Q :
  wp False m s Q ↔ ∃ x s', m s = Some (x, s') ∧ Q x s'.
Proof.
  unfold wp. destruct (m s) as [[x s']|]; [|naive_solver].
  split; [eauto|]. intros (? & ? & Heq & ?). by injection Heq as <- <-.
Qed.

Lemma wp_partial {A} (m : M A) s Q :
  wp True m s Q ↔ ∀ x s', m s = Some (x, s') → Q x s'.
Proof.
  unfold wp. destruct (m s) as [[x s']|]; [|naive_solver].
  split; [by intros ? ?? [= <- <-]|eauto].
Qed.

Lemma wp_returns {A} (m : M A) s r s' :
  wp False m s (λ x s1, x = r ∧ s1 = s') ↔ m s = Some (r, s').
Proof.
  unfold wp. destruct (m s) as [[x s1]|]; [|naive_solver].
  split; [by intros [-> ->]|]. intros Heq. by injection Heq as -> ->.
Qed.

Lemma wp_weaken {A} (m : M A) s Q : wp False m s Q → wp True m s Q.
Proof. unfold wp. by destruct (m s) as [[??]|]. Qed.

Section wp_prim.
Context (E : Prop).

Lemma wp_get_axes s Q : wp E get_axes s Q = Q (axes_heap s) s.
Proof. done. Qed.

Lemma wp_dims v s Q : wp E (dims v) s Q = Q (dims_in (axes_heap s) (v_axes v)) s.
Proof. done. Qed.

Lemma wp_getaxis v nm s Q :
  wp E (getaxis v nm) s Q = Q (getaxis_in (axes_heap s) (v_axes v) nm) s.
Proof. done. Qed.

Lemma wp_len a s Q : wp E (len a) s Q = Q (len_at (axes_heap s) a) s.
Proof. done. Qed.

Lemma wp_warn msg s Q :
  wp E (warn msg) s Q
  = Q tt {| axes_heap := axes_heap s; coord_heap := coord_heap s;
            warnings := warnings s ++ [msg] |}.
Proof. done. Qed.

Lemma wp_new_axis a s Q :
  wp E (new_axis a) s Q
  = Q (length (axes_heap s))
      {| axes_heap := axes_heap s ++ [a]; coord_heap := coord_heap s;
         warnings := warnings s |}.
Proof. done. Qed.

Lemma wp_new_coord c s Q :
  wp E (new_coord c) s Q
  = Q (length (coord_heap s))
      {| axes_heap := axes_heap s; coord_heap := coord_heap s ++ [c];
         warnings := warnings s |}.
Proof. done. Qed.

Lemma wp_set_name a nm s Q :
  wp E (set_name a nm) s Q
  = Q tt {| axes_heap := alter (axis_rename nm) a (axes_heap s);
            coord_heap := coord_heap s; warnings := warnings s |}.
Proof. done. Qed.

Lemma wp_index nm (ds : list string) s Q :
  wp E (index nm ds) s Q
  = match list_find (λ d, d = nm) ds with Some (k, _) => Q k s | None => E end.
Proof. unfold index. by destruct (list_find _ ds) as [[??]|]. Qed.

Lemma wp_setitem k a v s Q :
  wp E (setitem k a v) s Q
  = if bool_decide (k < length (v_axes v))%nat
    then Q (set_axes (<[k := a]> (v_axes v)) v) s else E.
Proof. unfold setitem. by case_bool_decide. Qed.

Lemma wp_pop k v s Q :
  wp E (pop k v) s Q
  = if bool_decide (k < length (v_axes v))%nat
    then Q (set_axes (delete k (v_axes v)) v) s else E.
Proof. unfold pop. by case_bool_decide. Qed.

Lemma wp_values_of a s Q :
  wp E (values_of a) s Q
  = match axes_heap s !! a ≫= axis_values with Some arr => Q arr s | None => E end.
Proof.
  unfold values_of. rewrite wp_bind, wp_get_axes.
  by destruct (axes_heap s !! a ≫= axis_values).
Qed.

Lemma wp_array_of a s Q :
  wp E (array_of a) s Q
  = match axes_heap s !! a ≫= axis_array with Some arr => Q arr s | None => E end.
Proof.
  unfold array_of. rewrite wp_bind, wp_get_axes.
  by destruct (axes_heap s !! a ≫= axis_array).
Qed.

End wp_prim.

Create Rewrite HintDb wp.
Hint Rewrite @wp_bind @wp_ret @wp_raise @wp_lift_Some @wp_lift_None
  wp_get_axes wp_dims wp_getaxis wp_len wp_warn wp_new_axis wp_new_coord
  wp_set_name wp_index wp_setitem wp_pop wp_array_of wp_values_of : wp.

#[local] Arguments try_levels : simpl never.

Ltac wp_simpl := repeat (progress (autorewrite with wp; cbv beta; simpl)).

(** ** Loops *)

Section loops.
Context {C : Type} (body : C → variable → M (C * variable)).

Lemma for_each_app c l1 l2 s :
  for_each body c (l1 ++ l2) s
  = match for_each body c l1 s with
    | Some ((c1, l1'), s1) =>
        match for_each body c1 l2 s1 with
        | Some ((c2, l2'), s2) => Some ((c2, l1' ++ l2'), s2)
        | None => None
        end
    | None => None
    end.
Proof.
  revert c s. induction l1 as [|v l1 IH]; intros c s; simpl.
  - unfold mret, M_ret. by destruct (for_each body c l2 s) as [[[??]?]|].
  - unfold mbind, M_bind.
    destruct (body c v s) as [[[c1 v'] s1]|]; [|done].
    rewrite IH. destruct (for_each body c1 l1 s1) as [[[c2 l1'] s2]|]; [|done].
    simpl. by destruct (for_each body c2 l2 s2) as [[[??]?]|].
Qed.

Lemma for_each_length c l s c' l' s' :
  for_each body c l s = Some ((c', l'), s') → length l' = length l.
Proof.
  revert c s c' l' s'. induction l as [|v l IH]; intros c s c' l' s'; simpl.
  - by intros [= <- <- <-].
  - unfold mbind, M_bind.
    destruct (body c v s) as [[[c1 v'] s1]|]; [|done].
    destruct (for_each body c1 l s1) as [[[c2 l1'] s2]|] eqn:Hl; [|done].
    intros [= <- <- <-]. simpl. f_equal. eauto.
Qed.

(** A relation between the states of the pass that every round respects is
    respected by the loop. *)
Lemma for_each_rel (R : C * store → C * store → Prop) :
  (∀ x, R x x) → (∀ x y z, R x y → R y z → R x z) →
  (∀ c v s c' v' s', body c v s = Some ((c', v'), s') → R (c, s) (c', s')) →
  ∀ l c s c' l' s', for_each body c l s = Some ((c', l'), s') → R (c, s) (c', s').
Proof.
  intros Hrefl Htrans Hbody. induction l as [|v l IH]; intros c s c' l' s'; simpl.
  - intros [= <- <- <-]. apply Hrefl.
  - unfold mbind, M_bind.
    destruct (body c v s) as [[[c1 v'] s1]|] eqn:Hb; [|done].
    destruct (for_each body c1 l s1) as [[[c2 l1'] s2]|] eqn:Hl; [|done].
    intros [= <- <- <-]. eapply Htrans; eauto.
Qed.

Lemma reaches_0 c0 s0 vs : reaches body c0 s0 vs 0 c0 s0.
Proof. by exists []. Qed.

Lemma take_S_lookup {X} (l : list X) p x :
  l !! p = Some x → take (S p) l = take p l ++ [x].
Proof. intros H. by rewrite (take_S_r _ _ _ H). Qed.

Lemma reaches_S c0 s0 vs p c s v c' v' s' :
  reaches body c0 s0 vs p c s → vs !! p = Some v →
  body c v s = Some ((c', v'), s') → reaches body c0 s0 vs (S p) c' s'.
Proof.
  intros [pre Hp] Hv Hb. exists (pre ++ [v']).
  rewrite (take_S_lookup _ _ _ Hv), for_each_app, Hp. simpl.
  unfold mbind, M_bind. by rewrite Hb.
Qed.

Lemma reaches_rel (R : C * store → C * store → Prop) c0 s0 vs p c s :
  (∀ x, R x x) → (∀ x y z, R x y → R y z → R x z) →
  (∀ c v s c' v' s', body c v s = Some ((c', v'), s') → R (c, s) (c', s')) →
  reaches body c0 s0 vs p c s → R (c0, s0) (c, s).
Proof. intros ??? [pre Hp]. eapply for_each_rel; eauto. Qed.

(** Two points of the same pass: the earlier round has returned, and the
    later point is reached from its outcome. *)
Lemma reaches_lt c0 s0 vs p q cp sp cq sq v :
  (p < q)%nat → vs !! p = Some v →
  reaches body c0 s0 vs p cp sp → reaches body c0 s0 vs q cq sq →
  ∃ c' v' s', body cp v sp = Some ((c', v'), s') ∧
    ∃ l, for_each body c' (take (q - S p) (drop (S p) vs)) s' = Some ((cq, l), sq).
Proof.
  intros Hlt Hv [pre Hp] [pre' Hq].
  assert (Hsplit : take q vs = take p vs ++ v :: take (q - S p) (drop (S p) vs)).
  { rewrite <-(take_drop_middle _ _ _ Hv) at 1.
    rewrite take_app_ge by (rewrite length_take; lia).
    rewrite length_take_le by (apply lookup_lt_Some in Hv; lia).
    replace (q - p)%nat with (S (q - S p)) by lia. done. }
  rewrite Hsplit, for_each_app, Hp in Hq. simpl in Hq.
  unfold mbind, M_bind in Hq.
  destruct (body cp v sp) as [[[c' v'] s']|]; [|done].
  exists c', v', s'. split; [done|].
  destruct (for_each body c' _ s') as [[[c2 l] s2]|]; [|done].
  simpl in Hq. injection Hq as <- <- <-. eauto.
Qed.

(** The outcome of a round is what the loop leaves in the list. *)
Lemma for_each_lookup c0 s0 vs cf vs' sf p c s v c' v' s' :
  for_each body c0 vs s0 = Some ((cf, vs'), sf) →
  reaches body c0 s0 vs p c s → vs !! p = Some v →
  body c v s = Some ((c', v'), s') → vs' !! p = Some v'.
Proof.
  intros Hf [pre Hp] Hv Hb.
  rewrite <-(take_drop_middle _ _ _ Hv), for_each_app, Hp in Hf. simpl in Hf.
  unfold mbind, M_bind in Hf. rewrite Hb in Hf.
  destruct (for_each body c' _ s') as [[[c2 l] s2]|]; [|done].
  simpl in Hf. injection Hf as <- <- <-.
  apply for_each_length in Hp. rewrite length_take_le in Hp
    by (apply lookup_lt_Some in Hv; lia).
  rewrite lookup_app_r by lia. by rewrite Hp, Nat.sub_diag.
Qed.

(** Every earlier point of a pass that returns is reached. *)
Lemma for_each_reaches c0 s0 vs cf vs' sf p :
  for_each body c0 vs s0 = Some ((cf, vs'), sf) →
  ∃ c s, reaches body c0 s0 vs p c s.
Proof.
  intros Hf. rewrite <-(take_drop p vs), for_each_app in Hf.
  destruct (for_each body c0 (take p vs) s0) as [[[c pre] s]|] eqn:Hp; [|done].
  exists c, s, pre. done.
Qed.

(** A pass that returns has run every round. *)
Lemma for_each_round c0 s0 vs cf vs' sf p c s v :
  for_each body c0 vs s0 = Some ((cf, vs'), sf) →
  reaches body c0 s0 vs p c s → vs !! p = Some v →
  ∃ c' v' s', body c v s = Some ((c', v'), s') ∧ vs' !! p = Some v'.
Proof.
  intros Hf Hp Hv. pose proof Hp as [pre Hpre].
  pose proof Hf as Hf'.
  rewrite <-(take_drop_middle _ _ _ Hv), for_each_app, Hpre in Hf'. simpl in Hf'.
  unfold mbind, M_bind in Hf'.
  destruct (body c v s) as [[[c' v'] s']|] eqn:Hb; [|done].
  exists c', v', s'. split; [done|]. by eapply for_each_lookup.
Qed.

Lemma reaches_final_rel (R : C * store → C * store → Prop) c0 s0 vs cf vs' sf p c s :
  (∀ x, R x x) → (∀ x y z, R x y → R y z → R x z) →
  (∀ c v s c' v' s', body c v s = Some ((c', v'), s') → R (c, s) (c', s')) →
  for_each body c0 vs s0 = Some ((cf, vs'), sf) →
  reaches body c0 s0 vs p c s → R (c, s) (cf, sf).
Proof.
  intros Hrefl Htrans Hbody Hf [pre Hp].
  rewrite <-(take_drop p vs), for_each_app, Hp in Hf.
  destruct (for_each body c (drop p vs) s) as [[[c2 l] s2]|] eqn:Hd; [|done].
  injection Hf as <- _ <-. eapply for_each_rel; eauto.
Qed.

End loops.

(** ** What a pass may do to the store *)

Section store_lemmas.
Implicit Types (s : store) (h : list axis) (x : axis).

Lemma axis_step_refl x : axis_step x x.
Proof. by left. Qed.

Lemma axis_rename_name nm x : axis_name (axis_rename nm x) = nm.
Proof. by destruct x. Qed.

Lemma axis_rename_len nm x : axis_len (axis_rename nm x) = axis_len x.
Proof. by destruct x. Qed.


Lemma axis_step_trans x y z : axis_step x y → axis_step y z → axis_step x z.
Proof.
  intros [->|(Hn & Hl & ->)] [->|(Hn' & Hl' & ->)]; unfold axis_step; auto.
  by rewrite axis_rename_name in Hn'.
Qed.

Lemma axis_step_len x y : axis_step x y → axis_len y = axis_len x.
Proof. intros [->|(_ & _ & ->)]; [done|apply axis_rename_len]. Qed.


Lemma axis_step_keep x y :
  axis_step x y → axis_name x ≠ "i" ∨ axis_len x = 1%nat → y = x.
Proof. intros [->|(Hn & Hl & ->)] [?|?]; done. Qed.

Lemma axis_step_name x y :
  axis_step x y → axis_name y = axis_name x ∨ (axis_name x = "i" ∧ axis_name y = "level").
Proof. intros [->|(Hn & Hl & ->)]; [by left|right]. by rewrite axis_rename_name. Qed.

Lemma evolves_refl s : evolves s s.
Proof. split; [|done]. intros a x ->. eauto using axis_step_refl. Qed.

Lemma evolves_trans s1 s2 s3 : evolves s1 s2 → evolves s2 s3 → evolves s1 s3.
Proof.
  intros (H1 & Hc1 & Hw1) (H2 & Hc2 & Hw2). split_and!; [|by etrans..].
  intros a x Hx. destruct (H1 _ _ Hx) as (y & Hy & Hxy).
  destruct (H2 _ _ Hy) as (z & Hz & Hyz). eauto using axis_step_trans.
Qed.

Lemma extends_evolves s s' : extends s s' → evolves s s'.
Proof.
  intros ([k Hk] & ? & ?). split; [|done].
  intros a x Hx. exists x. split; [|apply axis_step_refl].
  rewrite Hk. by apply lookup_app_l_Some.
Qed.

Lemma extends_refl s : extends s s.
Proof. done. Qed.

Lemma extends_trans s1 s2 s3 : extends s1 s2 → extends s2 s3 → extends s1 s3.
Proof. intros (?&?&?) (?&?&?). split_and!; by etrans. Qed.

Lemma evolves_keep s s' a x :
  evolves s s' → axes_heap s !! a = Some x →
  axis_name x ≠ "i" ∨ axis_len x = 1%nat → axes_heap s' !! a = Some x.
Proof.
  intros (H & _) Hx Hk. destruct (H _ _ Hx) as (y & Hy & Hxy).
  by rewrite (axis_step_keep _ _ Hxy Hk) in Hy.
Qed.

Lemma evolves_length s s' : evolves s s' → (length (axes_heap s) ≤ length (axes_heap s'))%nat.
Proof.
  intros (H & _). destruct (length (axes_heap s)) as [|n] eqn:Hl; [lia|].
  destruct (lookup_lt_is_Some_2 (axes_heap s) n) as [x Hx]; [lia|].
  destruct (H _ _ Hx) as (y & Hy & _). apply lookup_lt_Some in Hy. lia.
Qed.

Lemma levels_ok_evolves known s s' :
  evolves s s' → levels_ok known s → levels_ok known s'.
Proof.
  intros Hev Hok n d Hd. eapply evolves_keep; [done|by apply Hok|by left].
Qed.

(** Names seen through the store. *)
Lemma name_at_Some h a x : h !! a = Some x → name_at h a = axis_name x.
Proof. unfold name_at. by intros ->. Qed.

Lemma len_at_Some h a x : h !! a = Some x → len_at h a = axis_len x.
Proof. unfold len_at. by intros ->. Qed.

Lemma name_at_valid h a nm : name_at h a = nm → nm ≠ "" → ∃ x, h !! a = Some x ∧ axis_name x = nm.
Proof. unfold name_at. destruct (h !! a); simpl; [eauto|congruence]. Qed.

Lemma find_axis_Some h axs nm k a :
  find_axis h axs nm = Some (k, a) →
  axs !! k = Some a ∧ name_at h a = nm ∧ (k < length axs)%nat
  ∧ getaxis_in h axs nm = Some a
  ∧ list_find (λ d, d = nm) (dims_in h axs) = Some (k, nm).
Proof.
  intros Hf. pose proof Hf as (Hk & Hn & _)%list_find_Some.
  split_and!; [done..|by eapply lookup_lt_Some| |].
  - unfold getaxis_in. unfold find_axis in Hf. by rewrite Hf.
  - unfold dims_in. rewrite list_find_fmap.
    unfold find_axis in Hf. unfold compose. rewrite Hf. simpl. by rewrite Hn.
Qed.

Lemma find_axis_None h axs nm :
  find_axis h axs nm = None →
  getaxis_in h axs nm = None ∧ nm ∉ dims_in h axs.
Proof.
  intros Hf. split.
  - unfold getaxis_in. unfold find_axis in Hf. by rewrite Hf.
  - apply list_find_None in Hf. rewrite Forall_forall in Hf.
    unfold dims_in. intros (a & Ha & Hin)%list_elem_of_fmap.
    by apply (Hf a).
Qed.

Lemma getaxis_in_find h axs nm a :
  getaxis_in h axs nm = Some a → ∃ k, find_axis h axs nm = Some (k, a).
Proof.
  unfold getaxis_in, find_axis.
  destruct (list_find _ axs) as [[k b]|]; simpl; [|done].
  intros [= ->]. eauto.
Qed.

End store_lemmas.

Lemma set_axes_id v : set_axes (v_axes v) v = v.
Proof. by destruct v. Qed.

Lemma remap_j_run fa var s :
  remap_j fa (dims_in (axes_heap s) (v_axes var)) var s
  = Some (set_axes (remap_j_axes (axes_heap s) fa (v_axes var)) var, s).
Proof.
  apply wp_returns. unfold remap_j, remap_j_axes. wp_simpl.
  destruct (find_axis (axes_heap s) (v_axes var) "j") as [[k j]|] eqn:Hf.
  - destruct (find_axis_Some _ _ _ _ _ Hf) as (Hk & Hn & Hlt & Hg & Hi).
    rewrite Hg. destruct fa as [f|]; wp_simpl; [|by rewrite set_axes_id].
    case_bool_decide; wp_simpl; [|by rewrite set_axes_id].
    rewrite Hi. wp_simpl. by rewrite bool_decide_true.
  - destruct (find_axis_None _ _ _ Hf) as [-> _]. wp_simpl. by rewrite set_axes_id.
Qed.

Lemma list_find_insert_other {X} (P : X → Prop) `{∀ x, Decision (P x)} (l : list X) k x y :
  l !! k = Some y → ¬ P y → ¬ P x → list_find P (<[k := x]> l) = list_find P l.
Proof.
  revert k. induction l as [|z l IH]; intros [|k] Hk Hy Hx; simpl in *; try done.
  - injection Hk as ->. by rewrite !decide_False.
  - by rewrite (IH k).
Qed.

Lemma find_axis_remap_j h fa axs nm :
  nm ≠ "j" → (∀ f, fa = Some f → name_at h f ≠ nm) →
  find_axis h (remap_j_axes h fa axs) nm = find_axis h axs nm.
Proof.
  intros Hnm Hfa. unfold remap_j_axes.
  destruct (find_axis h axs "j") as [[k j]|] eqn:Hf; [|done].
  destruct fa as [f|]; [|done]. case_bool_decide; [|done].
  destruct (find_axis_Some _ _ _ _ _ Hf) as (Hk & Hn & _).
  unfold find_axis. apply (list_find_insert_other _ _ _ _ _ Hk); [congruence|eauto].
Qed.

Lemma remap_j_axes_length h fa axs : length (remap_j_axes h fa axs) = length axs.
Proof.
  unfold remap_j_axes. repeat case_match; by rewrite ?length_insert.
Qed.

(** [try_levels] *)
Lemma try_levels_skip names axis msg var level :
  v_name var ∉ names → try_levels names axis msg var level = mret level.
Proof. intros H. unfold try_levels. destruct axis; [|done]. by rewrite bool_decide_false. Qed.

Lemma try_levels_take names a msg var level s :
  v_name var ∈ names → len_at (axes_heap s) level = len_at (axes_heap s) a →
  try_levels names (Some a) msg var level s = Some (a, s).
Proof.
  intros Hin Hlen. apply wp_returns. unfold try_levels.
  rewrite bool_decide_true by done. wp_simpl. by rewrite bool_decide_true.
Qed.

Lemma wp_try_levels_take E names a msg var level s Q :
  v_name var ∈ names → len_at (axes_heap s) level = len_at (axes_heap s) a →
  wp E (try_levels names (Some a) msg var level) s Q = Q a s.
Proof. intros Hin Hlen. unfold wp. by rewrite try_levels_take. Qed.

Lemma try_levels_spec E names axis msg var level s :
  wp E (try_levels names axis msg var level) s (λ l s',
    axes_heap s' = axes_heap s ∧ coord_heap s' = coord_heap s
    ∧ warnings s `prefix_of` warnings s' ∧ (l = level ∨ axis = Some l)).
Proof.
  unfold try_levels. destruct axis as [a|]; [|by wp_simpl; auto].
  case_bool_decide; [|by wp_simpl; auto]. wp_simpl.
  case_bool_decide; wp_simpl; split_and!; eauto using prefix_app_r.
Qed.

Lemma evolves_rename s a :
  name_at (axes_heap s) a = "i" → len_at (axes_heap s) a ≠ 1%nat →
  evolves s {| axes_heap := alter (axis_rename "level") a (axes_heap s);
               coord_heap := coord_heap s; warnings := warnings s |}.
Proof.
  intros Hn Hl. split; [|done]. simpl. intros b x Hx.
  destruct (decide (a = b)) as [->|Hne].
  - rewrite list_lookup_alter_eq, Hx. simpl. eexists; split; [done|].
    right. rewrite (name_at_Some _ _ _ Hx) in Hn. rewrite (len_at_Some _ _ _ Hx) in Hl. done.
  - rewrite list_lookup_alter_ne by done. eauto using axis_step_refl.
Qed.

Lemma extends_eq s s' :
  axes_heap s' = axes_heap s → coord_heap s' = coord_heap s →
  warnings s `prefix_of` warnings s' → extends s s'.
Proof. intros H1 H2 H3. unfold extends. by rewrite H1, H2. Qed.

Lemma extends_warn s msg :
  extends s {| axes_heap := axes_heap s; coord_heap := coord_heap s;
               warnings := warnings s ++ [msg] |}.
Proof. split_and!; simpl; [done..|by apply prefix_app_r]. Qed.

Lemma extends_new_axis s x :
  extends s {| axes_heap := axes_heap s ++ [x]; coord_heap := coord_heap s;
               warnings := warnings s |}.
Proof. split_and!; simpl; [by apply prefix_app_r|done..]. Qed.

Lemma extends_new_coord s c :
  extends s {| axes_heap := axes_heap s; coord_heap := coord_heap s ++ [c];
               warnings := warnings s |}.
Proof. split_and!; simpl; [done|by apply prefix_app_r|done]. Qed.

Lemma levels_ok_insert known s n :
  levels_ok known s →
  levels_ok (<[n := length (axes_heap s)]> known)
    {| axes_heap := axes_heap s ++ [_dim_type "level" n];
       coord_heap := coord_heap s; warnings := warnings s |}.
Proof.
  intros Hok m d. rewrite lookup_insert. case_decide as Hnm.
  - intros [= <-]. subst m. simpl. by rewrite lookup_app_r, Nat.sub_diag.
  - intros Hd. simpl. apply lookup_app_l_Some. by apply Hok.
Qed.

Lemma remap_i_rel self mo th ds known var s r s' :
  remap_i self mo th ds known var s = Some (r, s') →
  evolves s s' ∧ known ⊆ r.1 ∧ (levels_ok known s → levels_ok r.1 s').
Proof.
  revert r s'. apply wp_partial. unfold remap_i. wp_simpl.
  destruct (find_axis (axes_heap s) (v_axes var) "i") as [[k a]|] eqn:Hf.
  2:{ destruct (find_axis_None _ _ _ Hf) as [-> _]. wp_simpl.
      split_and!; [apply evolves_refl|done..]. }
  destruct (find_axis_Some _ _ _ _ _ Hf) as (Hk & Hn & Hlt & Hg & Hi).
  rewrite Hg. wp_simpl. case_bool_decide as Hlen; wp_simpl.
  { destruct (list_find _ ds) as [[??]|]; [|done]. wp_simpl. case_bool_decide; [|done].
    wp_simpl. split_and!; [apply evolves_refl|done..]. }
  pose proof (evolves_rename s a Hn Hlen) as Hev1.
  set (s1 := {| axes_heap := alter _ _ _ |}) in *.
  eapply wp_mono; [apply try_levels_spec|]. intros l1 s2 (Hh2 & Hc2 & Hw2 & _). simpl.
  rewrite wp_bind. eapply wp_mono; [apply try_levels_spec|].
  intros l2 s3 (Hh3 & Hc3 & Hw3 & _).
  assert (Hev3 : evolves s s3).
  { eapply evolves_trans; [done|]. apply extends_evolves.
    eapply extends_trans; by apply extends_eq. }
  clearbody s1. clear Hev1 Hh2 Hc2 Hw2 Hh3 Hc3 Hw3 s1 s2.
  assert (Htail : ∀ (kn : gmap nat addr) lv vr s4,
    evolves s s4 → known ⊆ kn → (levels_ok known s → levels_ok kn s4) →
    match list_find (λ d, d = "i") ds with
    | Some (k, _) =>
        wp True (setitem k lv vr ≫= λ var, mret (kn, var)) s4
          (λ x s', evolves s s' ∧ known ⊆ x.1 ∧ (levels_ok known s → levels_ok x.1 s'))
    | None => True
    end).
  { intros kn lv vr s4 ???. destruct (list_find _ ds) as [[??]|]; [|done].
    wp_simpl. case_bool_decide; [|done]. done. }
  case_bool_decide; wp_simpl; [|apply Htail; [done|done|intros; by eapply levels_ok_evolves]].
  case_bool_decide as Hkn; wp_simpl.
  - rewrite lookup_insert_eq. wp_simpl. apply Htail.
    + eapply evolves_trans; [done|]. apply extends_evolves.
      eapply extends_trans; [apply extends_warn|apply (extends_new_axis {| axes_heap := _ |})].
    + by apply insert_subseteq.
    + intros Hok. apply (levels_ok_insert _ {| axes_heap := _ |}).
      eapply levels_ok_evolves; [|done].
      eapply evolves_trans; [done|]. apply extends_evolves, extends_warn.
  - destruct (known !! _) as [d|] eqn:Hd; [|done]. wp_simpl. apply Htail; [|done|].
    + eapply evolves_trans; [done|]. apply extends_evolves, extends_warn.
    + intros Hok. eapply levels_ok_evolves; [|done].
      eapply evolves_trans; [done|]. apply extends_evolves, extends_warn.
Qed.

Lemma att_is_true var k x : att_is var k x = true ↔ v_atts var !! k = Some (att_str x).
Proof. unfold att_is. apply bool_decide_eq_true. Qed.

Lemma remap_profile_unfold self fa mo th known var s :
  att_is var "typvar" "T" = true → att_is var "grtyp" "+" = true →
  remap_profile self fa mo th known var s
  = remap_i self mo th (dims_in (axes_heap s) (v_axes var)) known
      (set_axes (remap_j_axes (axes_heap s) fa (v_axes var)) var) s.
Proof.
  intros Ht Hg. unfold remap_profile. rewrite Ht, Hg. simpl.
  unfold mbind at 1 2, M_bind at 1 2. simpl. by rewrite remap_j_run.
Qed.

Lemma remap_profile_skip self fa mo th known var :
  att_is var "typvar" "T" && att_is var "grtyp" "+" = false →
  remap_profile self fa mo th known var = mret (known, var).
Proof.
  unfold remap_profile. destruct (att_is var "typvar" "T"); simpl; [|done].
  by intros ->.
Qed.

Lemma remap_profile_rel self fa mo th known var s r s' :
  remap_profile self fa mo th known var s = Some (r, s') →
  evolves s s' ∧ known ⊆ r.1 ∧ (levels_ok known s → levels_ok r.1 s').
Proof.
  destruct (att_is var "typvar" "T" && att_is var "grtyp" "+") eqn:Hp.
  - apply andb_true_iff in Hp as [Ht Hg]. rewrite remap_profile_unfold by done.
    apply remap_i_rel.
  - rewrite remap_profile_skip by done. intros [= <- <-].
    split_and!; [apply evolves_refl|done..].
Qed.

Lemma len_at_rename h a b : len_at (alter (axis_rename "level") a h) b = len_at h b.
Proof.
  unfold len_at. destruct (decide (a = b)) as [->|].
  - rewrite list_lookup_alter_eq. destruct (h !! b) as [x|]; simpl; [apply axis_rename_len|done].
  - by rewrite list_lookup_alter_ne.
Qed.

Section remap_i_cases.
Context (self : Series) (mo th : option addr) (ds : list string)
  (known : gmap nat addr) (var : variable) (s : store) (k : nat) (a : addr).
Hypothesis Hfind : find_axis (axes_heap s) (v_axes var) "i" = Some (k, a).
Hypothesis Hds : list_find (λ d, d = "i") ds = Some (k, "i").

Lemma remap_i_degenerate :
  len_at (axes_heap s) a = 1%nat →
  remap_i self mo th ds known var s
  = Some ((known, set_axes (delete k (v_axes var)) var), s).
Proof.
  intros Hlen. apply wp_returns. unfold remap_i. wp_simpl.
  destruct (find_axis_Some _ _ _ _ _ Hfind) as (Hk & Hn & Hlt & Hg & Hi).
  rewrite Hg. wp_simpl. rewrite bool_decide_true by done. wp_simpl.
  rewrite Hds. wp_simpl. by rewrite bool_decide_true.
Qed.

Lemma remap_i_generic :
  len_at (axes_heap s) a ≠ 1%nat →
  v_name var ∉ _momentum_vars self → v_name var ∉ _thermo_vars self →
  let n := len_at (axes_heap s) a in
  let s1 := warned (unable_msg var) (renamed a s) in
  remap_i self mo th ds known var s
  = match known !! n with
    | Some d => Some ((known, set_axes (<[k := d]> (v_axes var)) var), s1)
    | None =>
        let d := length (axes_heap s) in
        Some ((<[n := d]> known, set_axes (<[k := d]> (v_axes var)) var),
              {| axes_heap := axes_heap s1 ++ [_dim_type "level" n];
                 coord_heap := coord_heap s1; warnings := warnings s1 |})
    end.
Proof.
  intros Hlen Hm Ht n s1.
  destruct (find_axis_Some _ _ _ _ _ Hfind) as (Hk & Hn & Hlt & Hg & Hi).
  destruct (known !! n) as [d|] eqn:Hd; simpl; apply wp_returns;
    subst n s1; unfold warned, renamed, unable_msg, remap_i;
    wp_simpl; rewrite Hg; wp_simpl;
    rewrite bool_decide_false by done; wp_simpl;
    rewrite try_levels_skip by done; wp_simpl;
    rewrite try_levels_skip by done; wp_simpl;
    rewrite bool_decide_true by done; wp_simpl;
    rewrite len_at_rename.
  - rewrite bool_decide_false by (by rewrite Hd). wp_simpl. rewrite Hd. wp_simpl.
    rewrite Hds. wp_simpl. by rewrite bool_decide_true.
  - rewrite bool_decide_true by done. wp_simpl. rewrite lookup_insert_eq. wp_simpl.
    rewrite Hds. wp_simpl. rewrite bool_decide_true by done.
    by rewrite length_alter.
Qed.

Lemma remap_i_thermo m t :
  mo = Some m → th = Some t →
  len_at (axes_heap s) a ≠ 1%nat →
  v_name var ∈ _momentum_vars self → v_name var ∈ _thermo_vars self →
  len_at (axes_heap s) m = len_at (axes_heap s) a →
  len_at (axes_heap s) t = len_at (axes_heap s) a →
  t ≠ a →
  remap_i self mo th ds known var s
  = Some ((known, set_axes (<[k := t]> (v_axes var)) (set_att "kind" (att_int 5) var)),
          renamed a s).
Proof.
  intros -> -> Hlen Hm Ht Hlm Hlt' Hne.
  destruct (find_axis_Some _ _ _ _ _ Hfind) as (Hk & Hn & Hlt & Hg & Hi).
  apply wp_returns. unfold remap_i. wp_simpl. rewrite Hg. wp_simpl.
  rewrite bool_decide_false by done. wp_simpl.
  rewrite wp_try_levels_take; [|done|simpl; by rewrite !len_at_rename].
  wp_simpl.
  rewrite wp_try_levels_take; [|done|simpl; rewrite !len_at_rename; congruence].
  wp_simpl.
  rewrite bool_decide_false by done. wp_simpl.
  rewrite Hds. wp_simpl. by rewrite bool_decide_true.
Qed.

End remap_i_cases.

Lemma evolves_name_at s s' a nm :
  evolves s s' → name_at (axes_heap s) a = nm → nm ≠ "" → nm ≠ "i" →
  name_at (axes_heap s') a = nm.
Proof.
  intros Hev Hn Hne Hi. destruct (name_at_valid _ _ _ Hn Hne) as (x & Hx & Hnx).
  erewrite name_at_Some; [done|]. eapply evolves_keep; eauto. left. congruence.
Qed.

Lemma extracted_evolves s s' fa mo th :
  evolves s s' → extracted s fa mo th → extracted s' fa mo th.
Proof.
  intros Hev (Hf & Hm & Ht). split_and!; intros x Hx;
    (eapply evolves_name_at; [done| |done|done]); eauto.
Qed.

Section profile_cases.
Context (self : Series) (fa mo th : option addr) (known : gmap nat addr)
  (var : variable) (s : store) (k : nat) (a : addr).
Hypothesis Hprof : is_profile var.
Hypothesis Hfa : ∀ f, fa = Some f → name_at (axes_heap s) f = "forecast".
Hypothesis Hfind : find_axis (axes_heap s) (v_axes var) "i" = Some (k, a).

Local Abbreviation axs := (remap_j_axes (axes_heap s) fa (v_axes var)).

Lemma remap_j_keeps_i :
  find_axis (axes_heap s) axs "i" = Some (k, a)
  ∧ list_find (λ d, d = "i") (dims_in (axes_heap s) (v_axes var)) = Some (k, "i").
Proof.
  split.
  - rewrite find_axis_remap_j; [done|done|].
    intros f Hf. by rewrite (Hfa f Hf).
  - by destruct (find_axis_Some _ _ _ _ _ Hfind) as (_ & _ & _ & _ & Hi).
Qed.

Lemma remap_profile_degenerate :
  len_at (axes_heap s) a = 1%nat →
  remap_profile self fa mo th known var s
  = Some ((known, set_axes (delete k axs) var), s).
Proof.
  intros Hlen. destruct Hprof as [Ht Hg]. destruct remap_j_keeps_i as [Hi Hd].
  etrans; [by apply remap_profile_unfold|].
  by apply (remap_i_degenerate self mo th _ known (set_axes axs var) s k a Hi Hd Hlen).
Qed.

Lemma remap_profile_generic :
  len_at (axes_heap s) a ≠ 1%nat →
  v_name var ∉ _momentum_vars self → v_name var ∉ _thermo_vars self →
  let n := len_at (axes_heap s) a in
  let s1 := warned (unable_msg var) (renamed a s) in
  remap_profile self fa mo th known var s
  = match known !! n with
    | Some d => Some ((known, set_axes (<[k := d]> axs) var), s1)
    | None =>
        let d := length (axes_heap s) in
        Some ((<[n := d]> known, set_axes (<[k := d]> axs) var),
              {| axes_heap := axes_heap s1 ++ [_dim_type "level" n];
                 coord_heap := coord_heap s1; warnings := warnings s1 |})
    end.
Proof.
  intros Hlen Hm Ht'. destruct Hprof as [Ht Hg]. destruct remap_j_keeps_i as [Hi Hd].
  etrans; [by apply remap_profile_unfold|].
  by apply (remap_i_generic self mo th _ known (set_axes axs var) s k a Hi Hd Hlen).
Qed.

Lemma remap_profile_thermo m t :
  mo = Some m → th = Some t →
  len_at (axes_heap s) a ≠ 1%nat →
  v_name var ∈ _momentum_vars self → v_name var ∈ _thermo_vars self →
  len_at (axes_heap s) m = len_at (axes_heap s) a →
  len_at (axes_heap s) t = len_at (axes_heap s) a →
  t ≠ a →
  remap_profile self fa mo th known var s
  = Some ((known, set_axes (<[k := t]> axs) (set_att "kind" (att_int 5) var)),
          renamed a s).
Proof.
  intros Hmo Hth Hlen Hm Ht' Hlm Hlt Hne.
  destruct Hprof as [Ht Hg]. destruct remap_j_keeps_i as [Hi Hd].
  etrans; [by apply remap_profile_unfold|].
  by apply (remap_i_thermo self mo th _ known (set_axes axs var) s k a Hi Hd m t).
Qed.

End profile_cases.

Lemma reaches_det {C} (body : C → variable → M (C * variable)) c0 s0 vs p c s c' s' :
  reaches body c0 s0 vs p c s → reaches body c0 s0 vs p c' s' → c = c' ∧ s = s'.
Proof. intros [l H] [l' H']. rewrite H in H'. by injection H' as -> _ ->. Qed.

Lemma generic_step self fa mo th known v s k a n :
  (∀ f, fa = Some f → name_at (axes_heap s) f = "forecast") →
  levels_ok known s → unidentified self s v k a n →
  ∃ d known' v' s',
    remap_profile self fa mo th known v s = Some ((known', v'), s')
    ∧ known' !! n = Some d ∧ (∀ d', known !! n = Some d' → d' = d)
    ∧ v_axes v' !! k = Some d ∧ length (v_axes v') = length (v_axes v)
    ∧ axes_heap s' !! d = Some (_dim_type "level" n)
    ∧ warnings s' = warnings s ++ [unable_msg v].
Proof.
  intros Hfa Hok (Hprof & Hfind & Hn & Hn1 & Hm & Ht). subst n.
  destruct (find_axis_Some _ _ _ _ _ Hfind) as (Hk & Hnm & Hklt & _).
  pose proof (remap_profile_generic self fa mo th known v s k a Hprof Hfa Hfind Hn1 Hm Ht)
    as Hrun. simpl in Hrun.
  destruct (known !! len_at (axes_heap s) a) as [d|] eqn:Hd.
  - eexists d, _, _, _. split; [exact Hrun|]. simpl. split_and!; try done.
    + congruence.
    + apply list_lookup_insert_eq. by rewrite remap_j_axes_length.
    + by rewrite length_insert, remap_j_axes_length.
    + pose proof (Hok _ _ Hd) as Hx. rewrite list_lookup_alter_ne; [done|].
      intros ->. by rewrite (name_at_Some _ _ _ Hx) in Hnm.
  - eexists _, _, _, _. split; [exact Hrun|]. simpl. split_and!; try done.
    + apply lookup_insert_eq.
    + apply list_lookup_insert_eq. by rewrite remap_j_axes_length.
    + by rewrite length_insert, remap_j_axes_length.
    + rewrite lookup_app_r; rewrite length_alter; [|done]. by rewrite Nat.sub_diag.
Qed.

Section generic_level.
Context (self : Series) (fa mo th : option addr) (vars : list variable) (s0 : store).
Hypothesis Hex : extracted s0 fa mo th.

Local Abbreviation body := (remap_profile self fa mo th).

Lemma level_rel_refl x : level_rel x x.
Proof. split_and!; [apply evolves_refl|done..]. Qed.

Lemma level_rel_trans x y z : level_rel x y → level_rel y z → level_rel x z.
Proof.
  intros (?&?&?) (?&?&?). split_and!; [by eapply evolves_trans|by etrans|auto].
Qed.

Lemma level_rel_body c v s c' v' s' :
  body c v s = Some ((c', v'), s') → level_rel (c, s) (c', s').
Proof. intros H. by apply remap_profile_rel in H. Qed.

Lemma reaches_level_rel p c s :
  reaches body ∅ s0 vars p c s → level_rel (∅, s0) (c, s).
Proof.
  apply reaches_rel; [apply level_rel_refl|apply level_rel_trans|apply level_rel_body].
Qed.

Lemma reaches_ready p c s :
  reaches body ∅ s0 vars p c s →
  (∀ f, fa = Some f → name_at (axes_heap s) f = "forecast") ∧ levels_ok c s.
Proof.
  intros (Hev & _ & Hok)%reaches_level_rel. simpl in *. split.
  - by destruct (extracted_evolves _ _ _ _ _ Hev Hex) as [? _].
  - apply Hok. by intros ???.
Qed.

(** The earlier of two unidentified variables decides the dimension. *)
Lemma generic_level_ordered p q kp sp kq sq v w k a k' b n :
  (p ≤ q)%nat →
  reaches body ∅ s0 vars p kp sp → vars !! p = Some v →
  unidentified self sp v k a n →
  reaches body ∅ s0 vars q kq sq → vars !! q = Some w →
  unidentified self sq w k' b n →
  ∃ d kp' v' sp' kq' w' sq',
    body kp v sp = Some ((kp', v'), sp')
    ∧ body kq w sq = Some ((kq', w'), sq')
    ∧ v_axes v' !! k = Some d ∧ v_axes w' !! k' = Some d
    ∧ length (v_axes v') = length (v_axes v)
    ∧ length (v_axes w') = length (v_axes w)
    ∧ axes_heap sp' !! d = Some (_dim_type "level" n)
    ∧ axes_heap sq' !! d = Some (_dim_type "level" n)
    ∧ warnings sp' = warnings sp ++ [unable_msg v]
    ∧ warnings sq' = warnings sq ++ [unable_msg w].
Proof.
  intros Hle Hp Hv Hu Hq Hw Hu'.
  destruct (reaches_ready _ _ _ Hp) as [Hfp Hokp].
  destruct (reaches_ready _ _ _ Hq) as [Hfq Hokq].
  destruct (generic_step self fa mo th kp v sp k a n Hfp Hokp Hu)
    as (d & kp' & v' & sp' & Hrun & Hd & Hold & Hslot & Hlen & Hobj & Hwarn).
  destruct (generic_step self fa mo th kq w sq k' b n Hfq Hokq Hu')
    as (d' & kq' & w' & sq' & Hrun' & Hd' & Hold' & Hslot' & Hlen' & Hobj' & Hwarn').
  assert (d' = d) as ->.
  { destruct (decide (p = q)) as [->|Hne].
    - destruct (reaches_det _ _ _ _ _ _ _ _ _ Hp Hq) as [-> ->].
      assert (v = w) as -> by congruence.
      rewrite Hrun in Hrun'. injection Hrun' as <- <- <-.
      congruence.
    - destruct (reaches_lt body ∅ s0 vars p q kp sp kq sq v) as (c1 & v1 & s1 & Hb & l & Hl);
        [lia|done..|].
      rewrite Hrun in Hb. injection Hb as <- <- <-.
      apply (for_each_rel body level_rel level_rel_refl level_rel_trans level_rel_body)
        in Hl as (_ & Hsub & _). simpl in Hsub.
      symmetry. apply Hold'. eapply lookup_weaken; eauto. }
  eexists d, kp', v', sp', kq', w', sq'. split_and!; done.
Qed.

End generic_level.

(** Two rounds of one pass of the third loop, on profile variables reached
    with [i] axes of the same length other than one and named in neither
    list: both rounds return and put the same dimension object in the
    place of the [i] axis, and that is what the pass leaves in the list. *)
Lemma generic_level_rounds self fa mo th vars s0 p q kp sp kq sq v w k a k' b n :
  let body := remap_profile self fa mo th in
  extracted s0 fa mo th →
  reaches body ∅ s0 vars p kp sp → vars !! p = Some v →
  unidentified self sp v k a n →
  reaches body ∅ s0 vars q kq sq → vars !! q = Some w →
  unidentified self sq w k' b n →
  ∃ d kp' v' sp' kq' w' sq',
    body kp v sp = Some ((kp', v'), sp')
    ∧ body kq w sq = Some ((kq', w'), sq')
    ∧ v_axes v' !! k = Some d ∧ v_axes w' !! k' = Some d
    ∧ length (v_axes v') = length (v_axes v)
    ∧ length (v_axes w') = length (v_axes w)
    ∧ axes_heap sp' !! d = Some (_dim_type "level" n)
    ∧ axes_heap sq' !! d = Some (_dim_type "level" n)
    ∧ warnings sp' = warnings sp ++ [unable_msg v]
    ∧ warnings sq' = warnings sq ++ [unable_msg w]
    ∧ ∀ kf vars' sf,
        for_each body ∅ vars s0 = Some ((kf, vars'), sf) →
        vars' !! p = Some v' ∧ vars' !! q = Some w'
        ∧ axes_heap sf !! d = Some (_dim_type "level" n).
Proof.
  intros body Hex Hp Hv Hu Hq Hw Hu'.
  assert (∃ d kp' v' sp' kq' w' sq',
    body kp v sp = Some ((kp', v'), sp')
    ∧ body kq w sq = Some ((kq', w'), sq')
    ∧ v_axes v' !! k = Some d ∧ v_axes w' !! k' = Some d
    ∧ length (v_axes v') = length (v_axes v)
    ∧ length (v_axes w') = length (v_axes w)
    ∧ axes_heap sp' !! d = Some (_dim_type "level" n)
    ∧ axes_heap sq' !! d = Some (_dim_type "level" n)
    ∧ warnings sp' = warnings sp ++ [unable_msg v]
    ∧ warnings sq' = warnings sq ++ [unable_msg w])
    as (d & kp' & v' & sp' & kq' & w' & sq' & Hb & Hb' & H1 & H2 & H3 & H4 & H5 & H6 & H7 & H8).
  { destruct (decide (p ≤ q)%nat).
    - by eapply (generic_level_ordered self fa mo th vars s0 Hex p q).
    - destruct (generic_level_ordered self fa mo th vars s0 Hex q p kq sq kp sp w v k' b k a n)
        as (d & kq' & w' & sq' & kp' & v' & sp' & ?); [lia|done..|].
      exists d, kp', v', sp', kq', w', sq'. naive_solver. }
  exists d, kp', v', sp', kq', w', sq'. split_and!; try done.
  intros kf vars' sf Hf. split_and!.
  - by eapply (for_each_lookup body).
  - by eapply (for_each_lookup body).
  - pose proof (reaches_S body _ _ _ _ _ _ _ _ _ _ Hp Hv Hb) as Hp'.
    apply (reaches_final_rel body level_rel _ _ _ _ _ _ _ _ _ level_rel_refl level_rel_trans
             (level_rel_body self fa mo th) Hf) in Hp' as (Hev & _).
    eapply evolves_keep; [done..|by left].
Qed.

Lemma squash_rel_refl x : squash_rel x x.
Proof. by split_and!. Qed.

Lemma squash_rel_trans x y z : squash_rel x y → squash_rel y z → squash_rel x z.
Proof.
  intros (?&Hsub&Hk&?&?&?) (?&?&Hk'&?&?&?).
  split_and!; [by eapply extends_trans|by etrans| |auto|lia|lia].
  intros key [d Hd]. destruct (Hk key) as [Hl Hr]; [by eexists|].
  destruct (Hk' key) as [Hl' Hr']; [exists d; by eapply lookup_weaken|].
  split; congruence.
Qed.

Lemma wp_squeeze_axis E k v s Q :
  wp E (squeeze_axis k v) s Q
  = match v_record_id v !! k with
    | Some 1%nat => Q (set_record_id (delete k (v_record_id v)) v) s
    | _ => E
    end.
Proof. unfold squeeze_axis. by repeat case_match. Qed.

Lemma extends_lookup_axis s s' a x :
  extends s s' → axes_heap s !! a = Some x → axes_heap s' !! a = Some x.
Proof. intros ([l ->] & _) H. by apply lookup_app_l_Some. Qed.

Lemma extends_lookup_coord s s' a x :
  extends s s' → coord_heap s !! a = Some x → coord_heap s' !! a = Some x.
Proof. intros (_ & [l ->] & _) H. by apply lookup_app_l_Some. Qed.

Lemma squash_entry_extends known s s' t f d lt rt time0 hours :
  extends s s' → squash_entry known s t f d lt rt time0 hours →
  squash_entry known s' t f d lt rt time0 hours.
Proof.
  intros Hext (?&?&?&?&?&?).
  split_and!; eauto using extends_lookup_axis, extends_lookup_coord.
Qed.

Lemma extends_values s s' a arr :
  extends s s' → axes_heap s !! a ≫= axis_values = Some arr →
  axes_heap s' !! a ≫= axis_values = Some arr.
Proof.
  intros Hext H. destruct (axes_heap s !! a) as [x|] eqn:Hx; [|done].
  by rewrite (extends_lookup_axis _ _ _ _ Hext Hx).
Qed.

Lemma extends_array s s' a arr :
  extends s s' → axes_heap s !! a ≫= axis_array = Some arr →
  axes_heap s' !! a ≫= axis_array = Some arr.
Proof.
  intros Hext H. destruct (axes_heap s !! a) as [x|] eqn:Hx; [|done].
  by rewrite (extends_lookup_axis _ _ _ _ Hext Hx).
Qed.

Lemma squash_ok_extends known s s' : extends s s' → squash_ok known s → squash_ok known s'.
Proof.
  intros Hext Hok t f d Hd.
  destruct (Hok t f d Hd) as (lt & rt & time0 & rest & hours & Ht & Hf & He).
  exists lt, rt, time0, rest, hours.
  split_and!; eauto using extends_array, extends_values, squash_entry_extends.
Qed.

Lemma extends_squash_store time0 hours s : extends s (squash_store time0 hours s).
Proof. split_and!; simpl; [by apply prefix_app_r..|done]. Qed.

Lemma squash_ok_insert known s t f time0 rest hours :
  known_squashed_forecasts known !! (t, f) = None →
  axes_heap s !! t ≫= axis_array = Some (time0 :: rest) →
  axes_heap s !! f ≫= axis_values = Some hours →
  squash_ok known s →
  squash_ok (squash_insert (t, f) s known) (squash_store time0 hours s).
Proof.
  intros Hnone Ht Hf Hok t' f' d'.
  pose proof (extends_squash_store time0 hours s) as Hext.
  unfold squash_insert at 1. cbn [known_squashed_forecasts].
  rewrite lookup_insert. case_decide as Hkey.
  - injection Hkey as <- <-. intros [= <-].
    exists (length (coord_heap s)), (S (length (coord_heap s))), time0, rest, hours.
    split_and!; [by eapply extends_array|by eapply extends_values|].
    unfold squash_entry. simpl. rewrite !lookup_insert_eq. split_and!; try done.
    + by rewrite lookup_app_r, Nat.sub_diag.
    + by rewrite lookup_app_r, Nat.sub_diag.
    + rewrite lookup_app_r by lia. by replace (S _ - _)%nat with 1%nat by lia.
  - intros Hd. destruct (Hok t' f' d' Hd) as (lt & rt & t0 & r & h & Ht' & Hf' & He).
    exists lt, rt, t0, r, h.
    split_and!; [by eapply extends_array|by eapply extends_values|].
    destruct He as (?&?&?&?&?&?). unfold squash_entry. simpl.
    rewrite !lookup_insert_ne by done.
    split_and!; try done; by apply lookup_app_l_Some.
Qed.

Lemma len_at_array h a arr : h !! a ≫= axis_array = Some arr → len_at h a = length arr.
Proof.
  unfold len_at. destruct (h !! a) as [[?|???|????]|]; simpl; try done. by intros [= ->].
Qed.

Lemma list_find_delete_other {X} (P : X → Prop) `{∀ x, Decision (P x)} (l : list X) k y :
  l !! k = Some y → ¬ P y →
  list_find P (delete k l)
  = (λ ix : nat * X, (if bool_decide (ix.1 < k)%nat then ix.1 else pred ix.1, ix.2))
      <$> list_find P l.
Proof.
  revert k. induction l as [|z l IH]; intros [|k] Hk Hy; simpl in *; try done.
  - injection Hk as ->. rewrite decide_False by done.
    by destruct (list_find P l) as [[i x]|].
  - destruct (decide (P z)); simpl; [done|].
    rewrite (IH k) by done. destruct (list_find P l) as [[i x]|] eqn:Hf; simpl; [|done].
    apply list_find_Some in Hf as (Hi & HP & _).
    assert (i ≠ k) by (intros ->; congruence).
    do 2 f_equal. repeat case_bool_decide; first [lia | destruct i; simpl; lia].
Qed.

Lemma name_at_app h x a nm :
  nm ≠ "" → axis_name x ≠ nm → name_at (h ++ [x]) a = nm ↔ name_at h a = nm.
Proof.
  intros Hnm Hx. unfold name_at. destruct (decide (a < length h)%nat).
  - by rewrite lookup_app_l.
  - rewrite lookup_app_r, (lookup_ge_None_2 h a) by lia. simpl.
    destruct (a - length h)%nat; simpl; split; congruence.
Qed.

Lemma find_axis_app h x axs nm :
  nm ≠ "" → axis_name x ≠ nm → find_axis (h ++ [x]) axs nm = find_axis h axs nm.
Proof. intros ??. apply list_find_ext. intros a. by apply name_at_app. Qed.

Lemma find_forecast_after_pop h axs kt t kf f :
  find_axis h axs "time" = Some (kt, t) →
  find_axis h axs "forecast" = Some (kf, f) →
  find_axis h (delete kt axs) "forecast" = Some (after_pop kt kf, f)
  ∧ (after_pop kt kf < length (delete kt axs))%nat.
Proof.
  intros Ht Hf.
  destruct (find_axis_Some _ _ _ _ _ Ht) as (Hkt & Hnt & Hlt & _).
  destruct (find_axis_Some _ _ _ _ _ Hf) as (Hkf & Hnf & Hlf & _).
  assert (Hfind : find_axis h (delete kt axs) "forecast" = Some (after_pop kt kf, f)).
  { unfold find_axis. rewrite (list_find_delete_other _ _ _ _ Hkt) by congruence.
    unfold find_axis in Hf. by rewrite Hf. }
  split; [done|]. by destruct (find_axis_Some _ _ _ _ _ Hfind) as (_ & _ & ? & _).
Qed.

Section squash_step.
Context (known : squash_cache) (var : variable) (s : store) (kt kf : nat) (t f : addr).
Hypothesis Htime : find_axis (axes_heap s) (v_axes var) "time" = Some (kt, t).
Hypothesis Hfore : find_axis (axes_heap s) (v_axes var) "forecast" = Some (kf, f).

Lemma squash_forecast_skip :
  len_at (axes_heap s) t ≠ 1%nat →
  squash_forecast known var s = Some ((known, var), warned squash_msg s).
Proof.
  intros Hlen. apply wp_returns. unfold squash_forecast. wp_simpl.
  destruct (find_axis_Some _ _ _ _ _ Htime) as (_ & _ & _ & -> & _).
  destruct (find_axis_Some _ _ _ _ _ Hfore) as (_ & _ & _ & -> & _).
  wp_simpl. by rewrite bool_decide_true.
Qed.

Context (time0 : Z) (hours : values).
Hypothesis Htarr : axes_heap s !! t ≫= axis_array = Some [time0].
Hypothesis Hfarr : axes_heap s !! f ≫= axis_values = Some hours.
Hypothesis Hrid : v_record_id var !! kt = Some 1%nat.

Lemma squash_forecast_prefix Q :
  wp False (squash_forecast known var) s Q
  = wp False
      (known ←
         (if bool_decide (known_squashed_forecasts known !! (t, f) = None) then
            time ← new_axis (_axis_type "time" time_atts (validity_times time0 hours));
            leadtime ← new_coord (_var_type "leadtime" leadtime_atts [time] (array_values hours));
            reftime ← new_coord (_var_type "reftime" reftime_atts [] (scalar time0));
            mret {| known_squashed_forecasts := <[(t, f) := time]> (known_squashed_forecasts known);
                    known_leadtimes := <[(t, f) := leadtime]> (known_leadtimes known);
                    known_reftimes := <[(t, f) := reftime]> (known_reftimes known) |}
          else mret known);
       let var := set_axes (delete kt (v_axes var))
                    (set_record_id (delete kt (v_record_id var)) var) in
       d ← dims var;
       k ← index "forecast" d;
       squashed ← lift (known_squashed_forecasts known !! (t, f));
       var ← setitem k squashed var;
       leadtime ← lift (known_leadtimes known !! (t, f));
       reftime ← lift (known_reftimes known !! (t, f));
       mret (known, set_deps (v_deps var ++ [leadtime; reftime]) var)) s Q.
Proof.
  unfold squash_forecast. wp_simpl.
  destruct (find_axis_Some _ _ _ _ _ Htime) as (_ & _ & Hlt & -> & Hi).
  destruct (find_axis_Some _ _ _ _ _ Hfore) as (_ & _ & _ & -> & _).
  wp_simpl. rewrite (len_at_array _ _ _ Htarr). simpl.
  wp_simpl.
  rewrite Hi. wp_simpl. rewrite wp_squeeze_axis, Hrid. wp_simpl.
  rewrite Hi. wp_simpl. rewrite (bool_decide_true (kt < _)%nat) by done. wp_simpl.
  case_bool_decide; wp_simpl; [|done].
  rewrite Htarr. wp_simpl. rewrite Hfarr. wp_simpl. reflexivity.
Qed.

Lemma squash_forecast_miss :
  known_squashed_forecasts known !! (t, f) = None →
  squash_forecast known var s
  = Some ((squash_insert (t, f) s known,
           squashed_var kt kf (length (axes_heap s)) (length (coord_heap s))
             (S (length (coord_heap s))) var),
          squash_store time0 hours s).
Proof.
  intros Hnone. apply wp_returns. rewrite squash_forecast_prefix.
  rewrite bool_decide_true by done. wp_simpl.
  destruct (find_forecast_after_pop _ _ _ _ _ _ Htime Hfore) as [Hfind Hlt].
  rewrite <-(find_axis_app _ (_axis_type "time" time_atts (validity_times time0 hours)))
    in Hfind by done.
  destruct (find_axis_Some _ _ _ _ _ Hfind) as (_ & _ & _ & _ & ->).
  wp_simpl. rewrite !lookup_insert_eq. wp_simpl.
  rewrite bool_decide_true by done. wp_simpl.
  rewrite length_app. simpl. replace (length (coord_heap s) + 1)%nat
    with (S (length (coord_heap s))) by lia.
  split; [reflexivity|]. unfold squash_store. by rewrite <-app_assoc.
Qed.

Lemma squash_forecast_hit d lt rt :
  known_squashed_forecasts known !! (t, f) = Some d →
  known_leadtimes known !! (t, f) = Some lt →
  known_reftimes known !! (t, f) = Some rt →
  squash_forecast known var s = Some ((known, squashed_var kt kf d lt rt var), s).
Proof.
  intros Hd Hl Hr. apply wp_returns. rewrite squash_forecast_prefix.
  rewrite bool_decide_false by (by rewrite Hd). wp_simpl.
  destruct (find_forecast_after_pop _ _ _ _ _ _ Htime Hfore) as [Hfind Hlt].
  destruct (find_axis_Some _ _ _ _ _ Hfind) as (_ & _ & _ & _ & ->).
  wp_simpl. rewrite Hd. wp_simpl. rewrite bool_decide_true by done. wp_simpl.
  rewrite Hl. wp_simpl. rewrite Hr. by wp_simpl.
Qed.

End squash_step.

Lemma squash_rel_miss known s t f time0 rest hours :
  known_squashed_forecasts known !! (t, f) = None →
  axes_heap s !! t ≫= axis_array = Some (time0 :: rest) →
  axes_heap s !! f ≫= axis_values = Some hours →
  squash_rel (known, s) (squash_insert (t, f) s known, squash_store time0 hours s).
Proof.
  intros Hnone Ht Hf. unfold squash_rel. split_and!; simpl.
  - apply extends_squash_store.
  - by apply insert_subseteq.
  - intros key [d Hd]. rewrite !lookup_insert_ne; [done|congruence..].
    
  - by apply (squash_ok_insert known s t f time0 rest hours).
  - rewrite length_app, map_size_insert_None by done. simpl. lia.
  - rewrite length_app, map_size_insert_None by done. simpl. lia.
Qed.

Lemma squash_forecast_rel known var s r s' :
  squash_forecast known var s = Some (r, s') → squash_rel (known, s) (r.1, s').
Proof.
  revert r s'. apply wp_partial. unfold squash_forecast. wp_simpl.
  destruct (find_axis (axes_heap s) (v_axes var) "time") as [[kt t]|] eqn:Htime.
  2:{ destruct (find_axis_None _ _ _ Htime) as [-> _]. wp_simpl. apply squash_rel_refl. }
  destruct (find_axis_Some _ _ _ _ _ Htime) as (_ & _ & Hlt & -> & Hi).
  destruct (find_axis (axes_heap s) (v_axes var) "forecast") as [[kf f]|] eqn:Hfore.
  2:{ destruct (find_axis_None _ _ _ Hfore) as [-> _]. wp_simpl. apply squash_rel_refl. }
  destruct (find_axis_Some _ _ _ _ _ Hfore) as (_ & _ & _ & -> & _).
  wp_simpl. case_bool_decide as Hlen; wp_simpl.
  { split_and!; simpl; [apply extends_warn|done|done| |done..].
    apply squash_ok_extends, extends_warn. }
  rewrite Hi. wp_simpl. rewrite wp_squeeze_axis.
  destruct (v_record_id var !! kt) as [[|[|?]]|]; try done. wp_simpl.
  rewrite Hi. wp_simpl. rewrite (bool_decide_true (kt < _)%nat) by done. wp_simpl.
  case_bool_decide as Hkey; wp_simpl.
  - destruct (axes_heap s !! t ≫= axis_array) as [[|time0 rest]|] eqn:Ht; try done.
    wp_simpl. destruct (axes_heap s !! f ≫= axis_values) as [hours|] eqn:Hf; [|done].
    wp_simpl. destruct (list_find (λ d : string, d = "forecast") _) as [[k ?]|]; [|done].
    wp_simpl. rewrite !lookup_insert_eq. wp_simpl. case_bool_decide; [|done].
    wp_simpl. rewrite <-app_assoc. simpl.
    replace (length (coord_heap s ++ _)) with (S (length (coord_heap s)))
      by (rewrite length_app; simpl; lia).
    by apply (squash_rel_miss known s t f time0 rest hours).
  - destruct (list_find (λ d : string, d = "forecast") _) as [[k ?]|]; [|done]. wp_simpl.
    destruct (known_squashed_forecasts known !! (t, f)); [|done]. wp_simpl.
    case_bool_decide; [|done]. wp_simpl.
    destruct (known_leadtimes known !! (t, f)); [|done]. wp_simpl.
    destruct (known_reftimes known !! (t, f)); [|done]. wp_simpl.
    apply squash_rel_refl.
Qed.

Lemma squash_ok_empty s : squash_ok empty_cache s.
Proof. intros t f d. simpl. by rewrite lookup_empty. Qed.

Section squash_pass.
Context (vars : list variable) (s0 : store).

Lemma squash_reaches_rel p c s :
  reaches squash_forecast empty_cache s0 vars p c s → squash_rel (empty_cache, s0) (c, s).
Proof.
  apply reaches_rel; [apply squash_rel_refl|apply squash_rel_trans|].
  intros ?????? H. by apply squash_forecast_rel in H.
Qed.

End squash_pass.

Lemma squash_step known var s kt t kf f time0 hours :
  squash_ok known s → squashable s var kt t kf f time0 hours →
  ∃ d lt rt known' s',
    squash_forecast known var s = Some ((known', squashed_var kt kf d lt rt var), s')
    ∧ squash_entry known' s' t f d lt rt time0 hours
    ∧ (known_squashed_forecasts known !! (t, f) = Some d → known' = known ∧ s' = s)
    ∧ (∀ d', known_squashed_forecasts known !! (t, f) = Some d' →
         d' = d ∧ known_leadtimes known !! (t, f) = Some lt
         ∧ known_reftimes known !! (t, f) = Some rt).
Proof.
  intros Hok (Htime & Hfore & Ht & Hf & Hrid).
  destruct (known_squashed_forecasts known !! (t, f)) as [d|] eqn:Hd.
  - destruct (Hok t f d Hd) as (lt & rt & time0' & rest & hours' & Ht' & Hf' & He).
    rewrite Ht in Ht'. rewrite Hf in Hf'. injection Ht' as <- <-. injection Hf' as <-.
    pose proof He as (_ & Hl & Hr & _).
    exists d, lt, rt, known, s. split_and!; [|done|done|].
    + by apply (squash_forecast_hit known var s kt kf t f Htime Hfore time0 hours).
    + by intros d' [= <-].
  - eexists _, _, _, _, _. split_and!.
    + by apply (squash_forecast_miss known var s kt kf t f Htime Hfore time0 hours).
    + unfold squash_entry, squash_insert, squash_store. simpl.
      rewrite !lookup_insert_eq. split_and!; try done.
      * by rewrite lookup_app_r, Nat.sub_diag.
      * by rewrite lookup_app_r, Nat.sub_diag.
      * rewrite lookup_app_r by lia. by replace (S _ - _)%nat with 1%nat by lia.
    + done.
    + done.
Qed.

Lemma squash_reaches_ok vars s0 p c s :
  reaches squash_forecast empty_cache s0 vars p c s → squash_ok c s.
Proof.
  intros (_ & _ & _ & Hok & _)%squash_reaches_rel. apply Hok, squash_ok_empty.
Qed.

(** ** The squashing pass as a whole *)

Lemma live_elem h var b : live h var → b ∈ v_axes var → is_Some (h !! b).
Proof. unfold live. rewrite Forall_forall. auto. Qed.

Lemma list_find_agree {X} (P Q : X → Prop) `{∀ x, Decision (P x)} `{∀ x, Decision (Q x)}
    (l : list X) :
  (∀ x, x ∈ l → P x ↔ Q x) → list_find P l = list_find Q l.
Proof.
  induction l as [|x l IH]; intros Hl; simpl; [done|].
  rewrite IH by (intros y Hy; apply Hl; by right).
  destruct (decide (P x)) as [HP|HP], (decide (Q x)) as [HQ|HQ]; try done.
  - apply Hl in HP; [done|by left].
  - apply Hl in HQ; [done|by left].
Qed.

Lemma extends_name_at s s' b :
  extends s s' → is_Some (axes_heap s !! b) →
  name_at (axes_heap s') b = name_at (axes_heap s) b.
Proof.
  intros Hext [x Hx]. unfold name_at.
  by rewrite (extends_lookup_axis _ _ _ _ Hext Hx), Hx.
Qed.

Lemma extends_len_at s s' b :
  extends s s' → is_Some (axes_heap s !! b) →
  len_at (axes_heap s') b = len_at (axes_heap s) b.
Proof.
  intros Hext [x Hx]. unfold len_at.
  by rewrite (extends_lookup_axis _ _ _ _ Hext Hx), Hx.
Qed.

Lemma extends_find_axis s s' var nm :
  extends s s' → live (axes_heap s) var →
  find_axis (axes_heap s') (v_axes var) nm = find_axis (axes_heap s) (v_axes var) nm.
Proof.
  intros Hext Hlive. apply list_find_agree. intros b Hb.
  by rewrite (extends_name_at s s') by eauto using live_elem.
Qed.

Lemma extends_lookup_axis_inv s s' b :
  extends s s' → is_Some (axes_heap s !! b) → axes_heap s' !! b = axes_heap s !! b.
Proof. intros Hext [x Hx]. by rewrite (extends_lookup_axis _ _ _ _ Hext Hx). Qed.

Lemma find_axis_live h var nm k a :
  live h var → find_axis h (v_axes var) nm = Some (k, a) → is_Some (h !! a).
Proof.
  intros Hlive (Ha & _)%find_axis_Some. apply (live_elem _ _ _ Hlive).
  by eapply list_elem_of_lookup_2.
Qed.

Lemma wp_anyway {A} (m : M A) s (Q : A → store → Prop) :
  (∀ x s', Q x s') → wp True m s Q.
Proof. intros HQ. unfold wp. by destruct (m s) as [[]|]. Qed.

Lemma squash_forecast_none known var s :
  find_axis (axes_heap s) (v_axes var) "time" = None
  ∨ find_axis (axes_heap s) (v_axes var) "forecast" = None →
  squash_forecast known var s = Some ((known, var), s).
Proof.
  intros Hnone. apply wp_returns. unfold squash_forecast. wp_simpl.
  destruct (find_axis (axes_heap s) (v_axes var) "time") as [[kt t]|] eqn:Htime.
  - destruct Hnone as [|Hfore]; [done|].
    destruct (find_axis_Some _ _ _ _ _ Htime) as (_ & _ & _ & -> & _).
    destruct (find_axis_None _ _ _ Hfore) as [-> _]. by wp_simpl.
  - destruct (find_axis_None _ _ _ Htime) as [-> _]. wp_simpl.
    by destruct (getaxis_in (axes_heap s) (v_axes var) "forecast"); wp_simpl.
Qed.

(** A round that returns on a variable with one date of origin has read
    the date and the hours. *)
Lemma squash_round_reads known var s r s' kt t kf f :
  squash_ok known s →
  squash_forecast known var s = Some (r, s') →
  find_axis (axes_heap s) (v_axes var) "time" = Some (kt, t) →
  find_axis (axes_heap s) (v_axes var) "forecast" = Some (kf, f) →
  len_at (axes_heap s) t = 1%nat →
  ∃ time0 hours, squashable s var kt t kf f time0 hours.
Proof.
  intros Hok Hrun Htime Hfore Hlen.
  cut (wp True (squash_forecast known var) s
         (λ _ _, ∃ time0 hours, squashable s var kt t kf f time0 hours)).
  { intros H. by apply (proj1 (wp_partial _ _ _) H r s'). }
  clear Hrun. unfold squash_forecast. wp_simpl.
  pose proof (find_axis_Some _ _ _ _ _ Htime) as (_ & _ & Hlt & Hgt & Hi).
  pose proof (find_axis_Some _ _ _ _ _ Hfore) as (_ & _ & _ & Hgf & _).
  rewrite Hgt, Hgf.
  wp_simpl. rewrite bool_decide_false by (intros ?; done). wp_simpl.
  rewrite Hi. wp_simpl. rewrite wp_squeeze_axis.
  destruct (v_record_id var !! kt) as [[|[|?]]|] eqn:Hrid; try done.
  assert (Hread : ∀ time0 rest hours,
    axes_heap s !! t ≫= axis_array = Some (time0 :: rest) →
    axes_heap s !! f ≫= axis_values = Some hours →
    ∃ time0 hours, squashable s var kt t kf f time0 hours).
  { intros time0 rest hours Ht Hf. exists time0, hours.
    pose proof (len_at_array _ _ _ Ht) as Hl. rewrite Hlen in Hl.
    destruct rest; [|simpl in Hl; lia]. by split_and!. }
  wp_simpl. rewrite Hi. wp_simpl. rewrite (bool_decide_true (kt < _)%nat) by done. wp_simpl.
  case_bool_decide as Hkey; wp_simpl.
  - destruct (axes_heap s !! t ≫= axis_array) as [[|time0 rest]|] eqn:Ht; try done.
    wp_simpl. destruct (axes_heap s !! f ≫= axis_values) as [hours|] eqn:Hf; [|done].
    wp_simpl. repeat first [by apply (Hread time0 rest hours) | done | apply wp_anyway; intros ?? | case_match].
  - destruct (known_squashed_forecasts known !! (t, f)) as [d|] eqn:Hd; [|done].
    destruct (Hok t f d Hd) as (lt & rt & time0 & rest & hours & Ht & Hf & _).
    wp_simpl. repeat first [by apply (Hread time0 rest hours) | done | apply wp_anyway; intros ?? | case_match].
Qed.

(** What a round that returns has done. *)
Lemma squash_round known var s r s' :
  squash_ok known s →
  squash_forecast known var s = Some (r, s') →
  match find_axis (axes_heap s) (v_axes var) "time",
        find_axis (axes_heap s) (v_axes var) "forecast" with
  | Some (kt, t), Some (kf, f) =>
      if bool_decide (len_at (axes_heap s) t = 1%nat) then
        ∃ d lt rt time0 hours,
          squashable s var kt t kf f time0 hours
          ∧ r.2 = squashed_var kt kf d lt rt var
          ∧ squash_entry r.1 s' t f d lt rt time0 hours
          ∧ known_squashed_forecasts r.1 = <[(t, f) := d]> (known_squashed_forecasts known)
          ∧ (known_squashed_forecasts known !! (t, f) = None → d = length (axes_heap s))
      else r = (known, var) ∧ s' = warned squash_msg s
  | _, _ => r = (known, var) ∧ s' = s
  end.
Proof.
  intros Hok Hrun.
  destruct (find_axis (axes_heap s) (v_axes var) "time") as [[kt t]|] eqn:Htime.
  2:{ rewrite squash_forecast_none in Hrun by auto. by injection Hrun as <- <-. }
  destruct (find_axis (axes_heap s) (v_axes var) "forecast") as [[kf f]|] eqn:Hfore.
  2:{ rewrite squash_forecast_none in Hrun by auto. by injection Hrun as <- <-. }
  case_bool_decide as Hlen.
  2:{ rewrite (squash_forecast_skip known var s kt kf t f) in Hrun by done.
      by injection Hrun as <- <-. }
  destruct (squash_round_reads known var s r s' kt t kf f) as (time0 & hours & Hsq);
    [done..|].
  destruct (squash_step known var s kt t kf f time0 hours Hok Hsq)
    as (d & lt & rt & known' & s1 & Hrun' & He & Hsame & Hhit).
  assert (Hins : known_squashed_forecasts known'
                 = <[(t, f) := d]> (known_squashed_forecasts known)
                 ∧ (known_squashed_forecasts known !! (t, f) = None
                    → d = length (axes_heap s))).
  { destruct (known_squashed_forecasts known !! (t, f)) as [d'|] eqn:Hd.
    - destruct (Hhit d' eq_refl) as (-> & _). destruct (Hsame eq_refl) as [-> _].
      by rewrite insert_id.
    - destruct Hsq as (_ & _ & Ht & Hf & Hrid).
      pose proof (squash_forecast_miss known var s kt kf t f Htime Hfore time0 hours
                    Ht Hf Hrid Hd) as Hmiss.
      rewrite Hrun' in Hmiss.
      assert (Hk : known' = squash_insert (t, f) s known) by congruence.
      assert (Hax : v_axes (squashed_var kt kf d lt rt var)
                    = v_axes (squashed_var kt kf (length (axes_heap s))
                                (length (coord_heap s)) (S (length (coord_heap s))) var))
        by congruence.
      simpl in Hax.
      destruct (find_forecast_after_pop _ _ _ _ _ _ Htime Hfore) as [_ Hlt].
      apply (f_equal (λ l, l !! after_pop kt kf)) in Hax.
      rewrite !list_lookup_insert_eq in Hax by done. injection Hax as ->.
      by rewrite Hk. }
  destruct Hins as [Hins Hnew].
  rewrite Hrun in Hrun'. injection Hrun' as -> ->. simpl.
  by exists d, lt, rt, time0, hours.
Qed.

Lemma for_each_cons_inv {C} (body : C → variable → M (C * variable)) c v l s c' l' s' :
  for_each body c (v :: l) s = Some ((c', l'), s') →
  ∃ c1 v1 s1 l1, body c v s = Some ((c1, v1), s1)
    ∧ for_each body c1 l s1 = Some ((c', l1), s') ∧ l' = v1 :: l1.
Proof.
  simpl. unfold mbind, M_bind.
  destruct (body c v s) as [[[c1 v1] s1]|]; [|done].
  destruct (for_each body c1 l s1) as [[[c2 l1] s2]|] eqn:Hl; [|done].
  unfold mret, M_ret. intros H. injection H as <- <- <-. by exists c1, v1, s1, l1.
Qed.

Lemma live_extends s s' var : extends s s' → live (axes_heap s) var → live (axes_heap s') var.
Proof.
  intros Hext Hlive. eapply Forall_impl; [exact Hlive|]. intros b [x Hx]. exists x.
  by eapply extends_lookup_axis.
Qed.

Lemma squashed_pair_extends s s' var :
  extends s s' → live (axes_heap s) var →
  squashed_pair (axes_heap s') var = squashed_pair (axes_heap s) var.
Proof.
  intros Hext Hlive. unfold squashed_pair. rewrite !(extends_find_axis s s') by done.
  destruct (find_axis (axes_heap s) (v_axes var) "time") as [[kt t]|] eqn:Ht; [|done].
  destruct (find_axis (axes_heap s) (v_axes var) "forecast") as [[kf f]|]; [|done].
  by rewrite (extends_len_at s s' _ Hext) by (by eapply find_axis_live).
Qed.

Lemma squashed_pairs_extends s s' vars :
  extends s s' → Forall (live (axes_heap s)) vars →
  squashed_pairs (axes_heap s') vars = squashed_pairs (axes_heap s) vars.
Proof.
  intros Hext Hall. unfold squashed_pairs. f_equal.
  induction Hall as [|v vars Hv _ IH]; [done|]. cbn [omap list_omap].
  by rewrite IH, (squashed_pair_extends s s').
Qed.

Lemma squash_entry_rel k1 s1 k2 s2 t f d lt rt time0 hours :
  squash_rel (k1, s1) (k2, s2) →
  squash_entry k1 s1 t f d lt rt time0 hours → squash_entry k2 s2 t f d lt rt time0 hours.
Proof.
  intros (Hext & Hsub & Hkeys & _) (Hd & Hl & Hr & Ha & Hcl & Hcr). simpl in *.
  destruct (Hkeys (t, f)) as [Hl' Hr']; [by eexists|].
  split_and!; [by eapply lookup_weaken|congruence|congruence| | |];
    eauto using extends_lookup_axis, extends_lookup_coord.
Qed.

Lemma squashable_extends s s' var kt t kf f time0 hours :
  extends s s' → live (axes_heap s) var →
  squashable s' var kt t kf f time0 hours ↔ squashable s var kt t kf f time0 hours.
Proof.
  intros Hext Hlive. unfold squashable. rewrite !(extends_find_axis s s') by done.
  split; intros (Ht & Hf & Ha & Hb & Hr); split_and!; try done.
  - by rewrite <-(extends_lookup_axis_inv s s' _ Hext) by (by eapply find_axis_live).
  - by rewrite <-(extends_lookup_axis_inv s s' _ Hext) by (by eapply find_axis_live).
  - by rewrite (extends_lookup_axis_inv s s' _ Hext) by (by eapply find_axis_live).
  - by rewrite (extends_lookup_axis_inv s s' _ Hext) by (by eapply find_axis_live).
Qed.

Lemma distinct_axes_round known var s r s' :
  squash_ok known s → squash_forecast known var s = Some (r, s') →
  distinct_axes known s →
  distinct_axes r.1 s'
  ∧ ∀ key d, known_squashed_forecasts r.1 !! key = Some d →
      known_squashed_forecasts known !! key = Some d ∨ (length (axes_heap s) ≤ d)%nat.
Proof.
  intros Hok Hrun [Hbound Hinj].
  pose proof (squash_forecast_rel _ _ _ _ _ Hrun) as (Hext & Hsub & _ & _ & Hn & _).
  simpl in Hext, Hsub, Hn.
  assert (Hle : (length (axes_heap s) ≤ length (axes_heap s'))%nat).
  { destruct Hext as ([l ->] & _). rewrite length_app. lia. }
  pose proof (squash_round known var s r s' Hok Hrun) as Hround.
  assert (Hsame : known_squashed_forecasts r.1 = known_squashed_forecasts known →
    distinct_axes r.1 s'
    ∧ ∀ key d, known_squashed_forecasts r.1 !! key = Some d →
        known_squashed_forecasts known !! key = Some d ∨ (length (axes_heap s) ≤ d)%nat).
  { intros Heq. unfold distinct_axes. rewrite Heq. split; [|by left]. split; [|done].
    intros key d Hd. specialize (Hbound key d Hd). lia. }
  destruct (find_axis (axes_heap s) (v_axes var) "time") as [[kt t]|];
    [|destruct Hround as [-> _]; by apply Hsame].
  destruct (find_axis (axes_heap s) (v_axes var) "forecast") as [[kf f]|];
    [|destruct Hround as [-> _]; by apply Hsame].
  case_bool_decide; [|destruct Hround as [-> _]; by apply Hsame].
  destruct Hround as (d & lt & rt & time0 & hours & _ & _ & _ & Hins & Hnew).
  destruct (known_squashed_forecasts known !! (t, f)) as [d'|] eqn:Hd.
  { apply Hsame. rewrite Hins. apply insert_id.
    pose proof (lookup_weaken _ _ _ _ Hd Hsub) as Hd'.
    rewrite Hins, lookup_insert_eq in Hd'. congruence. }
  specialize (Hnew eq_refl). subst d.
  rewrite Hins, map_size_insert_None in Hn by done.
  unfold distinct_axes. rewrite Hins. split_and!.
  - intros key x [[_ <-]|[_ Hx]]%lookup_insert_Some; [lia|].
    specialize (Hbound key x Hx). lia.
  - intros key key' x [[<- <-]|[? Hx]]%lookup_insert_Some
      [[<- Heq]|[? Hx']]%lookup_insert_Some; try done.
    + specialize (Hbound key' _ Hx'). lia.
    + specialize (Hbound key _ Hx). lia.
    + by eapply Hinj.
  - intros key x [[_ <-]|[_ Hx]]%lookup_insert_Some; [by right|by left].
Qed.

Lemma squash_pass vars : ∀ known s known' vars' s',
  for_each squash_forecast known vars s = Some ((known', vars'), s') →
  squash_ok known s → Forall (live (axes_heap s)) vars →
  dom (known_squashed_forecasts known')
  = dom (known_squashed_forecasts known) ∪ squashed_pairs (axes_heap s) vars
  ∧ (distinct_axes known s →
     distinct_axes known' s'
     ∧ ∀ key d, known_squashed_forecasts known' !! key = Some d →
         known_squashed_forecasts known !! key = Some d ∨ (length (axes_heap s) ≤ d)%nat)
  ∧ ∀ p v kt t kf f, vars !! p = Some v →
      find_axis (axes_heap s) (v_axes v) "time" = Some (kt, t) →
      find_axis (axes_heap s) (v_axes v) "forecast" = Some (kf, f) →
      len_at (axes_heap s) t = 1%nat →
      ∃ d lt rt time0 hours,
        squashable s v kt t kf f time0 hours
        ∧ squash_entry known' s' t f d lt rt time0 hours
        ∧ vars' !! p = Some (squashed_var kt kf d lt rt v).
Proof.
  induction vars as [|v vars IH]; intros known s known' vars' s' Hrun Hok Hlive.
  { injection Hrun as <- <- <-. split_and!; [unfold squashed_pairs; simpl; set_solver| |].
    - intros ?. split; [done|]. by left.
    - by intros ???????. }
  apply for_each_cons_inv in Hrun as (known1 & v1 & s1 & vars1 & Hb & Hrest & ->).
  apply Forall_cons in Hlive as [Hv Hlive].
  pose proof (squash_forecast_rel _ _ _ _ _ Hb) as Hrel1. simpl in Hrel1.
  pose proof Hrel1 as (Hext1 & _ & _ & Hok1 & _). simpl in Hext1, Hok1.
  assert (Hrel : squash_rel (known1, s1) (known', s')).
  { apply (for_each_rel squash_forecast squash_rel squash_rel_refl squash_rel_trans) in Hrest;
      [done|]. intros ?????? H. by apply squash_forecast_rel in H. }
  destruct (IH known1 s1 known' vars1 s' Hrest (Hok1 Hok)) as (Hdom & Hdist & Hvars).
  { eapply Forall_impl; [done|]. intros ?. by apply live_extends. }
  rewrite (squashed_pairs_extends s s1) in Hdom by done.
  pose proof (squash_round known v s (known1, v1) s1 Hok Hb) as Hround. simpl in Hround.
  split_and!.
  - rewrite Hdom. unfold squashed_pairs at 2. simpl. unfold squashed_pair at 1.
    destruct (find_axis (axes_heap s) (v_axes v) "time") as [[kt t]|];
      [|destruct Hround as [[= <- <-] _]; done].
    destruct (find_axis (axes_heap s) (v_axes v) "forecast") as [[kf f]|];
      [|destruct Hround as [[= <- <-] _]; done].
    case_bool_decide; [|destruct Hround as [[= <- <-] _]; done].
    destruct Hround as (d & lt & rt & time0 & hours & _ & _ & _ & -> & _).
    rewrite dom_insert_L. simpl. unfold squashed_pairs. set_solver.
  - intros Hd0.
    destruct (distinct_axes_round known v s (known1, v1) s1 Hok Hb Hd0) as [Hd1 Hfresh1].
    destruct (Hdist Hd1) as [Hd' Hfresh]. split; [done|].
    intros key d Hkd. destruct (Hfresh key d Hkd) as [Hk1|Hge].
    + by apply Hfresh1.
    + right. destruct Hext1 as ([l Hl] & _). rewrite Hl, length_app in Hge. lia.
  - intros [|p] w kt t kf f Hw Htime Hfore Hlen; simpl in Hw.
    + injection Hw as <-. rewrite Htime, Hfore, bool_decide_true in Hround by done.
      destruct Hround as (d & lt & rt & time0 & hours & Hsq & -> & He & _).
      exists d, lt, rt, time0, hours. split_and!; [done| |done].
      by eapply squash_entry_rel.
    + assert (Hw' : live (axes_heap s) w).
      { rewrite Forall_forall in Hlive. apply Hlive. by eapply list_elem_of_lookup_2. }
      destruct (Hvars p w kt t kf f Hw) as (d & lt & rt & time0 & hours & Hsq & He & Hp).
      * by rewrite (extends_find_axis s s1).
      * by rewrite (extends_find_axis s s1).
      * by rewrite (extends_len_at s s1 _ Hext1) by (by eapply find_axis_live).
      * exists d, lt, rt, time0, hours. split_and!; [|done..].
        by apply (squashable_extends s s1).
Qed.

Lemma wrap64_in64 z : in64 z → wrap64 z = z.
Proof. unfold in64, wrap64. intros H. rewrite Z.mod_small; lia. Qed.

Lemma datetime_add_in64 t d :
  in64 t → in64 d → in64 (t + d) → datetime_add t d = t + d.
Proof.
  unfold datetime_add, NaT. intros Ht Hd Hsum.
  rewrite bool_decide_false by (unfold in64 in *; lia). by apply wrap64_in64.
Qed.

Lemma validity_times_ints time0 xs :
  in64 time0 → Forall (λ h, in64 (h * 3600) ∧ in64 (time0 + h * 3600)) xs →
  validity_times time0 (ints xs) = (λ h, time0 + h * 3600) <$> xs.
Proof.
  intros Ht Hall. unfold validity_times, timedelta64_s. rewrite <-list_fmap_compose.
  apply Forall_fmap_ext_1. eapply Forall_impl; [done|]. intros h [Hh Hsum]. simpl.
  rewrite wrap64_in64 by done. by apply datetime_add_in64.
Qed.

Lemma whole_hours_exact ft h :
  -1000 ≤ h ≤ 1000 →
  timedelta_of_float (float_mul ft (float_of_int ft h) (float_of_int ft 3600)) = h * 3600.
Proof.
  intros Hh.
  assert (Hall : Forall (λ h, timedelta_of_float
              (float_mul ft (float_of_int ft h) (float_of_int ft 3600)) = h * 3600)
            (seqZ (-1000) 2001)).
  { apply (bool_decide_unpack _). destruct ft; vm_compute; reflexivity. }
  rewrite Forall_forall in Hall. apply Hall. apply elem_of_seqZ. lia.
Qed.

Lemma validity_times_whole_hours ft time0 hs :
  in64 time0 → Forall (λ h, -1000 ≤ h ≤ 1000 ∧ in64 (time0 + h * 3600)) hs →
  validity_times time0 (whole_hours ft hs) = (λ h, time0 + h * 3600) <$> hs.
Proof.
  intros Ht Hall. unfold validity_times, whole_hours, timedelta64_s.
  rewrite <-!list_fmap_compose.
  apply Forall_fmap_ext_1. eapply Forall_impl; [done|]. intros h [Hh Hsum]. simpl.
  rewrite whole_hours_exact by done.
  apply datetime_add_in64; [done| |done]. unfold in64. lia.
Qed.

Lemma squash_forecasts_run self vars s vars' s' :
  _squash_forecasts self = true →
  squash_forecasts self vars s = Some (vars', s') →
  ∃ known', for_each squash_forecast empty_cache vars s = Some ((known', vars'), s').
Proof.
  intros Hflag. unfold squash_forecasts. rewrite Hflag. unfold mbind, M_bind.
  destruct (for_each squash_forecast empty_cache vars s) as [[[known' l] s1]|]; [|done].
  unfold mret, M_ret. intros H. injection H as <- <-. by exists known'.
Qed.

(** C6. With forecast squashing enabled, in a run of the squashing pass
    that returns, take a variable with a time axis [t] and a forecast axis
    [f].  If the length of [t] is not one, the variable is left as it was
    and the pass has added the warning.  Otherwise [t] holds one date
    [time0], the variable has one axis less, its time entry is gone and its
    forecast entry is replaced by a new time axis.  The values of that axis
    are [time0] plus the hours of [f] times 3600, computed as numpy does:
    in 64-bit integers for integer hours, and for floating-point hours by
    a product in the type of the array whose fraction is then dropped.
    Where nothing overflows this is [time0 + h * 3600] for integer hours
    [h] and for whole hours up to 1000 held as floating-point numbers; for
    the hours [0,6,12] the axis is [time0], [time0 + 6h], [time0 + 12h]. *)
Theorem squash_forecast_axis self vars s vars' s' p var kt t kf f :
  _squash_forecasts self = true →
  squash_forecasts self vars s = Some (vars', s') →
  vars !! p = Some var → live (axes_heap s) var →
  find_axis (axes_heap s) (v_axes var) "time" = Some (kt, t) →
  find_axis (axes_heap s) (v_axes var) "forecast" = Some (kf, f) →
  (len_at (axes_heap s) t ≠ 1%nat →
     vars' !! p = Some var
     ∧ ∃ l1 l2, warnings s' = warnings s ++ l1 ++ squash_msg :: l2)
  ∧ (len_at (axes_heap s) t = 1%nat →
     ∃ time0 hours var' d times,
       axes_heap s !! t ≫= axis_array = Some [time0]
       ∧ axes_heap s !! f ≫= axis_values = Some hours
       ∧ vars' !! p = Some var'
       ∧ S (length (v_axes var')) = length (v_axes var)
       ∧ delete kt (v_axes var) !! after_pop kt kf = Some f
       ∧ v_axes var' = <[after_pop kt kf := d]> (delete kt (v_axes var))
       ∧ axes_heap s' !! d = Some (_axis_type "time" time_atts times)
       ∧ times = datetime_add time0 <$> timedelta64_s hours
       ∧ (∀ xs, hours = ints xs → in64 time0 →
            Forall (λ h, in64 (h * 3600) ∧ in64 (time0 + h * 3600)) xs →
            times = (λ h, time0 + h * 3600) <$> xs)
       ∧ (∀ ft hs, hours = whole_hours ft hs → in64 time0 →
            Forall (λ h, -1000 ≤ h ≤ 1000 ∧ in64 (time0 + h * 3600)) hs →
            times = (λ h, time0 + h * 3600) <$> hs)
       ∧ (hours = ints [0; 6; 12] ∨ (∃ ft, hours = whole_hours ft [0; 6; 12]) →
          in64 time0 → in64 (time0 + 12 * 3600) →
          times = [time0; time0 + 6 * 3600; time0 + 12 * 3600])).
Proof.
  intros Hflag Hrun Hv Hlive Htime Hfore.
  apply squash_forecasts_run in Hrun as [known' Hrun]; [|done].
  destruct (for_each_reaches squash_forecast _ _ _ _ _ _ p Hrun) as (known & sp & Hp).
  destruct (for_each_round squash_forecast _ _ _ _ _ _ _ _ _ _ Hrun Hp Hv)
    as (known1 & v1 & s1 & Hb & Hv1).
  pose proof (squash_reaches_ok _ _ _ _ _ Hp) as Hok.
  pose proof (squash_reaches_rel _ _ _ _ _ Hp) as (Hext & _). simpl in Hext.
  pose proof (reaches_S _ _ _ _ _ _ _ _ _ _ _ Hp Hv Hb) as Hp1.
  assert (Hext1 : extends s1 s').
  { destruct (reaches_final_rel squash_forecast squash_rel empty_cache s vars known' vars'
                 s' (S p) known1 s1 squash_rel_refl squash_rel_trans) as (? & _); try done.
    intros ?????? H. by apply squash_forecast_rel in H. }
  pose proof (squash_round known var sp (known1, v1) s1 Hok Hb) as Hround.
  rewrite !(extends_find_axis s sp) in Hround by done.
  rewrite Htime, Hfore in Hround.
  rewrite (extends_len_at s sp _ Hext) in Hround by (by eapply find_axis_live).
  split; intros Hlen.
  - rewrite bool_decide_false in Hround by done. destruct Hround as [[= <- <-] ->].
    split; [done|].
    destruct Hext as (_ & _ & [l1 Hl1]). destruct Hext1 as (_ & _ & [l2 Hl2]).
    exists l1, l2. rewrite Hl2. simpl. rewrite Hl1. by rewrite <-!app_assoc.
  - rewrite bool_decide_true in Hround by done. simpl in Hround.
    destruct Hround as (d & lt & rt & time0 & hours & Hsq & -> & He & _).
    apply (squashable_extends s sp) in Hsq as (_ & _ & Ht & Hf & Hrid); [|done..].
    destruct (find_forecast_after_pop _ _ _ _ _ _ Htime Hfore) as [Hfind Hlt].
    destruct (find_axis_Some _ _ _ _ _ Hfind) as (Hk & _).
    destruct (find_axis_Some _ _ _ _ _ Htime) as (Hkt & _ & Hktlt & _).
    destruct He as (_ & _ & _ & Hd & _).
    exists time0, hours, (squashed_var kt kf d lt rt var), d, (validity_times time0 hours).
    split_and!; try done.
    + simpl. rewrite length_insert, length_delete by done. lia.
    + by eapply extends_lookup_axis.
    + intros xs -> ??. by apply validity_times_ints.
    + intros ft hs -> ??. by apply validity_times_whole_hours.
    + intros [->|[ft ->]] Ht0 Ht12.
      * rewrite validity_times_ints; [simpl; do 3 f_equal; lia|done|].
        unfold in64 in *. repeat (constructor; [lia|]). constructor.
      * rewrite validity_times_whole_hours; [simpl; do 3 f_equal; lia|done|].
        unfold in64 in *. repeat (constructor; [lia|]). constructor.
Qed.

(** C7. With forecast squashing enabled, a run of the squashing pass that
    returns has built exactly as many axes as there are distinct pairs of
    (time axis object, forecast axis object) among the variables it
    squashes, and twice as many coordinates.  Each such pair has one new
    time axis [d], one [leadtime] coordinate [lt] on [d] and one [reftime]
    coordinate [rt]; a squashed variable holds [d] in the place of its
    forecast axis exactly when its pair is that pair, and its dependencies
    then end with [lt] and [rt]. *)
Theorem squashed_objects_shared self vars s vars' s' :
  _squash_forecasts self = true →
  squash_forecasts self vars s = Some (vars', s') →
  Forall (live (axes_heap s)) vars →
  let pairs := squashed_pairs (axes_heap s) vars in
  length (axes_heap s') = (length (axes_heap s) + size pairs)%nat
  ∧ length (coord_heap s') = (length (coord_heap s) + 2 * size pairs)%nat
  ∧ ∀ t f, (t, f) ∈ pairs →
      ∃ d lt rt time0 hours,
        axes_heap s !! t ≫= axis_array = Some [time0]
        ∧ axes_heap s !! f ≫= axis_values = Some hours
        ∧ (length (axes_heap s) ≤ d)%nat
        ∧ axes_heap s' !! d
          = Some (_axis_type "time" time_atts (datetime_add time0 <$> timedelta64_s hours))
        ∧ coord_heap s' !! lt
          = Some (_var_type "leadtime" leadtime_atts [d] (array_values hours))
        ∧ coord_heap s' !! rt = Some (_var_type "reftime" reftime_atts [] (scalar time0))
        ∧ ∀ p v kt kf t' f', vars !! p = Some v →
            find_axis (axes_heap s) (v_axes v) "time" = Some (kt, t') →
            find_axis (axes_heap s) (v_axes v) "forecast" = Some (kf, f') →
            len_at (axes_heap s) t' = 1%nat →
            ∃ v', vars' !! p = Some v'
              ∧ (v_axes v' !! after_pop kt kf = Some d ↔ (t', f') = (t, f))
              ∧ ((t', f') = (t, f) →
                 v_axes v' = <[after_pop kt kf := d]> (delete kt (v_axes v))
                 ∧ v_deps v' = v_deps v ++ [lt; rt]).
Proof.
  intros Hflag Hrun Hlive pairs.
  apply squash_forecasts_run in Hrun as [known' Hrun]; [|done].
  destruct (squash_pass vars empty_cache s known' vars' s' Hrun (squash_ok_empty s) Hlive)
    as (Hdom & Hdist & Hvars).
  destruct Hdist as [[_ Hinj] Hfresh].
  { split; intros ??; simpl; by rewrite lookup_empty. }
  simpl in Hdom. rewrite dom_empty_L, (left_id_L ∅ (∪)) in Hdom.
  assert (Hsize : size (known_squashed_forecasts known') = size pairs).
  { by rewrite <-size_dom, Hdom. }
  apply (for_each_rel squash_forecast squash_rel squash_rel_refl squash_rel_trans) in Hrun;
    [|intros ?????? H; by apply squash_forecast_rel in H].
  destruct Hrun as (_ & _ & _ & _ & Hn & Hm). simpl in Hn, Hm.
  rewrite map_size_empty in Hn, Hm.
  split_and!; [lia|lia|].
  intros t f Hin. unfold pairs, squashed_pairs in Hin.
  apply elem_of_list_to_set, list_elem_of_omap in Hin as (w & Hw & Hpair).
  apply list_elem_of_lookup_1 in Hw as [q Hq].
  unfold squashed_pair in Hpair.
  destruct (find_axis (axes_heap s) (v_axes w) "time") as [[kt0 t0]|] eqn:Htime; [|done].
  destruct (find_axis (axes_heap s) (v_axes w) "forecast") as [[kf0 f0]|] eqn:Hfore; [|done].
  case_bool_decide as Hlen; [|done]. injection Hpair as -> ->.
  destruct (Hvars q w kt0 t kf0 f Hq Htime Hfore Hlen)
    as (d & lt & rt & time0 & hours & Hsq & He & _).
  destruct Hsq as (_ & _ & Ht & Hf & _).
  pose proof He as (Hkd & Hkl & Hkr & Hd & Hcl & Hcr).
  exists d, lt, rt, time0, hours. split_and!; try done.
  { destruct (Hfresh _ _ Hkd) as [Hold|?]; [|done]. simpl in Hold.
    by rewrite lookup_empty in Hold. }
  intros p v kt kf t' f' Hv Htime' Hfore' Hlen'.
  destruct (Hvars p v kt t' kf f' Hv Htime' Hfore' Hlen')
    as (d' & lt' & rt' & time0' & hours' & _ & He' & Hv').
  destruct He' as (Hkd' & Hkl' & Hkr' & _).
  destruct (find_forecast_after_pop _ _ _ _ _ _ Htime' Hfore') as [_ Hlt].
  exists (squashed_var kt kf d' lt' rt' v). split_and!; [done| |].
  - simpl. rewrite list_lookup_insert_eq by done. split.
    + intros [= ->]. by apply (Hinj _ _ d).
    + intros [= -> ->]. congruence.
  - intros [= -> ->].
    assert (d' = d) as -> by congruence.
    assert (lt' = lt) as -> by congruence.
    assert (rt' = rt) as -> by congruence.
    done.
Qed.


(** [for_group] with a body that only updates the variable. *)
Lemma for_group_update (g : variable → variable) group vars s :
  Forall (λ i, is_Some (vars !! i)) group →
  for_group (λ var, mret (g var)) group vars s
  = Some (foldl (λ vs i, alter g i vs) vars group, s).
Proof.
  revert vars. induction group as [|i group IH]; intros vars Hall; simpl; [done|].
  apply Forall_cons in Hall as [[v Hv] Hall].
  unfold mbind, M_bind. rewrite Hv. simpl.
  replace (<[i:=g v]> vars) with (alter g i vars).
  - apply IH. eapply Forall_impl; [done|]. intros j [w Hw]. simpl.
    destruct (decide (i = j)) as [->|].
    + rewrite list_lookup_alter_eq, Hw. by eexists.
    + rewrite list_lookup_alter_ne by done. by eexists.
  - apply list_eq. intros j. destruct (decide (i = j)) as [->|].
    + rewrite list_lookup_alter_eq, Hv. simpl.
      by rewrite list_lookup_insert_eq by (by eapply lookup_lt_Some).
    + by rewrite list_lookup_alter_ne, list_lookup_insert_ne.
Qed.

Lemma foldl_alter_lookup (g : variable → variable) group (vars : list variable) i :
  NoDup group →
  foldl (λ vs i, alter g i vs) vars group !! i
  = if bool_decide (i ∈ group) then g <$> vars !! i else vars !! i.
Proof.
  revert vars. induction group as [|j group IH]; intros vars Hnd; simpl; [done|].
  apply NoDup_cons in Hnd as [Hj Hnd]. rewrite IH by done.
  destruct (decide (i = j)) as [->|Hne].
  - rewrite (bool_decide_false (j ∈ group)) by done.
    rewrite bool_decide_true by apply list_elem_of_here.
    by rewrite list_lookup_alter_eq.
  - rewrite list_lookup_alter_ne by done.
    by rewrite (bool_decide_ext (i ∈ j :: group) (i ∈ group)) by set_solver.
Qed.

Lemma take_rows_one_based rows (ids : list Z) :
  Forall (λ id, 1 ≤ id ≤ Z.of_nat (length rows)) ids →
  ∃ array, take_rows rows ((λ x, x - 1) <$> ids) = Some array
    ∧ Forall2 (λ id row, rows !! Z.to_nat (id - 1) = Some row) ids array.
Proof.
  intros Hall. unfold take_rows.
  set (pick := λ i : Z, _).
  assert (∃ array, Forall2 (λ id row,
            pick (id - 1) = Some row ∧ rows !! Z.to_nat (id - 1) = Some row) ids array)
    as [array Harr].
  { induction Hall as [|id ids Hid _ [array IH]]; [by exists []|].
    destruct (lookup_lt_is_Some_2 rows (Z.to_nat (id - 1))) as [row Hrow]; [lia|].
    exists (row :: array). constructor; [|done]. split; [|done].
    unfold pick. by rewrite bool_decide_true by lia. }
  exists array. split.
  - apply mapM_Some_2, Forall2_fmap_l. eapply Forall2_impl; [done|]. by intros ?? [? _].
  - eapply Forall2_impl; [done|]. by intros ?? [_ ?].
Qed.

Section keeps.
Context {A B : Type}.

Lemma keeps_ret (x : A) : keeps (mret x).
Proof. intros s y s' [= <- <-]. apply evolves_refl. Qed.



Lemma keeps_bind (m : M A) (k : A → M B) :
  keeps m → (∀ x, keeps (k x)) → keeps (m ≫= k).
Proof.
  intros Hm Hk s y s' H. unfold mbind, M_bind in H.
  destruct (m s) as [[x s1]|] eqn:Hms; [|done].
  eapply evolves_trans; [by eapply Hm|by eapply Hk].
Qed.

End keeps.




















Lemma keeps_for_each {C} (body : C → variable → M (C * variable)) c vs :
  (∀ c v, keeps (body c v)) → keeps (for_each body c vs).
Proof.
  intros Hb. revert c. induction vs as [|v vs IH]; intros c; simpl; [apply keeps_ret|].
  apply keeps_bind; [done|]. intros [c1 v']. apply keeps_bind; [done|].
  intros [c2 vs']. apply keeps_ret.
Qed.



Section keeps_makevars.
Context (self : Series) (_fstlir : string → option header)
  (stamp2datetime_scalar : Z → datetime)
  (_get_header_atts : header → list (string * att))
  (_iter_axes : string → list axis → list variable → list (addr * list nat)).






Lemma keeps_remap_profile fa mo th known v : keeps (remap_profile self fa mo th known v).
Proof. intros s [known' v'] s' H. by apply remap_profile_rel in H as [? _]. Qed.








End keeps_makevars.


Lemma att_is_inj var k x y : att_is var k x = true → att_is var k y = true → x = y.
Proof. rewrite !att_is_true. congruence. Qed.

Lemma name_station_axis_profile station u var :
  is_profile var → name_station_axis station u var = mret (tt, var).
Proof.
  intros [_ Hg]. unfold name_station_axis.
  destruct (att_is var "grtyp" "Y") eqn:HY.
  - by pose proof (att_is_inj _ _ _ _ Hg HY).
  - by rewrite andb_false_r.
Qed.

Lemma name_station_axis_still station u var s r s' :
  name_station_axis station u var s = Some (r, s') → s' = s.
Proof.
  revert r s'. apply wp_partial. unfold name_station_axis, station_shape0, station_axis.
  destruct (_ && _); wp_simpl; [|done].
  destruct (getaxis_in _ _ _); wp_simpl; [|done].
  destruct station as [st|]; wp_simpl; [|done].
  destruct (c_axes st.2 !! 0%nat); wp_simpl; [|done].
  case_bool_decide; wp_simpl; [|done].
  destruct (list_find _ _) as [[??]|]; wp_simpl; [|done].
  by case_bool_decide.
Qed.

Lemma drop_level_spec u var s r s' :
  drop_level u var s = Some (r, s') →
  s' = s ∧ v_atts r.2 = v_atts var ∧ v_name r.2 = v_name var
  ∧ (is_profile var → v_axes r.2 = drop_level_axes (axes_heap s) (v_axes var)).
Proof.
  revert r s'. apply wp_partial. unfold drop_level, drop_level_axes.
  destruct (att_is var "typvar" "T" && att_is var "grtyp" "+") eqn:Hp; wp_simpl.
  2:{ split_and!; try done. intros [Ht Hg]. by rewrite Ht, Hg in Hp. }
  destruct (find_axis (axes_heap s) (v_axes var) "level") as [[kl l]|] eqn:Hf.
  - destruct (find_axis_Some _ _ _ _ _ Hf) as (Hk & Hn & Hlt & Hg & Hi).
    rewrite bool_decide_true.
    2:{ unfold dims_in. apply list_elem_of_fmap. exists l. split; [done|].
        by eapply list_elem_of_lookup_2. }
    wp_simpl. rewrite Hi. wp_simpl. rewrite wp_squeeze_axis.
    destruct (v_record_id var !! kl) as [[|[|?]]|]; try done. wp_simpl.
    rewrite Hi. wp_simpl. by rewrite bool_decide_true by done.
  - destruct (find_axis_None _ _ _ Hf) as [_ Hnot].
    rewrite bool_decide_false by done. by wp_simpl.
Qed.

(** ** Names of a variable's own axes *)

Lemma list_find_ext_in {X} (P Q : X → Prop) `{∀ x, Decision (P x)} `{∀ x, Decision (Q x)}
    (l : list X) :
  (∀ x, x ∈ l → (P x ↔ Q x)) → list_find P l = list_find Q l.
Proof.
  induction l as [|x l IH]; intros Hext; simpl; [done|].
  assert (P x ↔ Q x) as Hx by (apply Hext; left).
  rewrite IH by (intros y Hy; apply Hext; by right).
  destruct (decide (P x)), (decide (Q x)); tauto || done.
Qed.

Lemma delete_unique {X} (l : list X) k x :
  (∀ j, l !! j = Some x → j = k) → x ∉ delete k l.
Proof.
  intros Huniq (j & Hj)%list_elem_of_lookup_1.
  rewrite list_lookup_delete in Hj. case_decide; apply Huniq in Hj; lia.
Qed.

(** A variable with distinct dimension names, one of them a degenerate
    [i]: no pass renames any of its axes. *)
Section own_axes.
Context (s : store) (axs : list addr) (k : nat) (a : addr).
Hypothesis Hvalid : ∀ b, b ∈ axs → is_Some (axes_heap s !! b).
Hypothesis Hnodup : NoDup (dims_in (axes_heap s) axs).
Hypothesis Hfind : find_axis (axes_heap s) axs "i" = Some (k, a).
Hypothesis Hlen : len_at (axes_heap s) a = 1%nat.

Lemma own_axes_frozen s' b :
  evolves s s' → b ∈ axs → axes_heap s' !! b = axes_heap s !! b.
Proof.
  intros Hev Hb. destruct (Hvalid b Hb) as [x Hx]. rewrite Hx.
  eapply evolves_keep; [done..|].
  destruct (decide (axis_name x = "i")) as [Hi|]; [right|by left].
  destruct (find_axis_Some _ _ _ _ _ Hfind) as (Hk & Hn & _).
  apply list_elem_of_lookup_1 in Hb as [j Hj].
  assert (j = k) as ->.
  { eapply NoDup_lookup; [exact Hnodup| |].
    - unfold dims_in. rewrite list_lookup_fmap, Hj. simpl.
      by rewrite (name_at_Some _ _ _ Hx).
    - unfold dims_in. rewrite list_lookup_fmap, Hk. simpl. by rewrite Hn, Hi. }
  assert (b = a) as -> by congruence.
  by rewrite (len_at_Some _ _ _ Hx) in Hlen.
Qed.

Lemma own_axes_name s' b :
  evolves s s' → b ∈ axs → name_at (axes_heap s') b = name_at (axes_heap s) b.
Proof. intros Hev Hb. unfold name_at. by rewrite own_axes_frozen. Qed.

Lemma own_axes_dims s' l :
  evolves s s' → l ⊆ axs → dims_in (axes_heap s') l = dims_in (axes_heap s) l.
Proof.
  intros Hev Hsub. unfold dims_in. apply list_fmap_ext.
  intros j b Hb. apply own_axes_name; [done|]. apply Hsub. by eapply list_elem_of_lookup_2.
Qed.

Lemma own_axes_find s' l nm :
  evolves s s' → l ⊆ axs → find_axis (axes_heap s') l nm = find_axis (axes_heap s) l nm.
Proof.
  intros Hev Hsub. unfold find_axis. apply list_find_ext_in.
  intros b Hb. by rewrite own_axes_name by auto.
Qed.

Local Abbreviation axs1 := (drop_level_axes (axes_heap s) axs).

Lemma drop_level_axes_sub : axs1 ⊆ axs.
Proof.
  unfold drop_level_axes. destruct (find_axis _ _ "level") as [[kl l]|]; [|done].
  intros b. apply list_elem_of_delete_inv.
Qed.

Lemma drop_level_axes_dims :
  NoDup (dims_in (axes_heap s) axs1) ∧ ("level" ∉ dims_in (axes_heap s) axs1)
  ∧ ∃ k1, find_axis (axes_heap s) axs1 "i" = Some (k1, a).
Proof.
  unfold drop_level_axes.
  destruct (find_axis (axes_heap s) axs "level") as [[kl l]|] eqn:Hl.
  - destruct (find_axis_Some _ _ _ _ _ Hl) as (Hkl & Hnl & Hlt & _).
    unfold dims_in. rewrite list_fmap_delete. split_and!.
    + apply (sublist_NoDup _ (dims_in (axes_heap s) axs)); [done|apply sublist_delete].
    + apply delete_unique. intros j Hj. eapply NoDup_lookup; [exact Hnodup|done|].
      unfold dims_in. by rewrite list_lookup_fmap, Hkl; simpl; rewrite Hnl.
    + unfold find_axis. rewrite (list_find_delete_other _ _ _ _ Hkl) by congruence.
      unfold find_axis in Hfind. rewrite Hfind. simpl. eauto.
  - destruct (find_axis_None _ _ _ Hl) as [_ Hnot]. eauto.
Qed.

Lemma drop_level_axes_length :
  length axs1
  = (length axs - if bool_decide ("level" ∈ dims_in (axes_heap s) axs) then 1 else 0)%nat.
Proof.
  clear Hvalid Hnodup Hfind Hlen.
  unfold drop_level_axes.
  destruct (find_axis (axes_heap s) axs "level") as [[kl l]|] eqn:Hl.
  - destruct (find_axis_Some _ _ _ _ _ Hl) as (Hkl & Hnl & Hlt & _).
    rewrite bool_decide_true.
    + rewrite length_delete by done. lia.
    + unfold dims_in. apply list_elem_of_fmap. exists l. split; [done|].
      by eapply list_elem_of_lookup_2.
  - destruct (find_axis_None _ _ _ Hl) as [_ Hnot].
    rewrite bool_decide_false by done. lia.
Qed.

End own_axes.

Lemma remap_axes_inv self station fa mo th vars s vars' s' :
  remap_axes self station fa mo th vars s = Some (vars', s') →
  ∃ u1 vars1 s1 u2 vars2 s2 known,
    for_each (name_station_axis station) tt vars s = Some ((u1, vars1), s1)
    ∧ for_each drop_level tt vars1 s1 = Some ((u2, vars2), s2)
    ∧ for_each (remap_profile self fa mo th) ∅ vars2 s2 = Some ((known, vars'), s').
Proof.
  intros H. unfold remap_axes, mbind, M_bind in H.
  destruct (for_each (name_station_axis station) tt vars s) as [[[u1 vars1] s1]|] eqn:H1;
    simpl in H; [|discriminate H].
  destruct (for_each drop_level tt vars1 s1) as [[[u2 vars2] s2]|] eqn:H2;
    simpl in H; [|discriminate H].
  destruct (for_each (remap_profile self fa mo th) ∅ vars2 s2) as [[[known vars3] s3]|] eqn:H3;
    simpl in H; [|discriminate H].
  injection H as <- <-. by eexists _, _, _, _, _, _, _.
Qed.

(** One round of a loop that leaves the store alone. *)
Lemma still_round {C} (body : C → variable → M (C * variable)) c0 vs s0 cf vs' sf p v :
  (∀ c v s r s', body c v s = Some (r, s') → s' = s) →
  for_each body c0 vs s0 = Some ((cf, vs'), sf) → vs !! p = Some v →
  sf = s0 ∧ ∃ c c' v', body c v s0 = Some ((c', v'), s0) ∧ vs' !! p = Some v'.
Proof.
  intros Hstill Hf Hv.
  assert (Hbody : ∀ c v s c' v' s',
    body c v s = Some ((c', v'), s') → same_store (c, s) (c', s')).
  { intros ?????? H. symmetry. by eapply Hstill. }
  assert (Hrefl : ∀ x : C * store, same_store x x) by done.
  assert (Htrans : ∀ x y z : C * store, same_store x y → same_store y z → same_store x z).
  { unfold same_store. congruence. }
  split.
  - symmetry. by apply (for_each_rel body same_store Hrefl Htrans Hbody _ _ _ _ _ _ Hf).
  - destruct (for_each_reaches body _ _ _ _ _ _ p Hf) as (c & s & Hp).
    pose proof (reaches_rel body same_store _ _ _ _ _ _ Hrefl Htrans Hbody Hp) as Hs.
    unfold same_store in Hs. simpl in Hs. subst s.
    destruct (for_each_round body _ _ _ _ _ _ _ _ _ _ Hf Hp Hv) as (c' & v' & s' & Hb & Hv').
    pose proof (Hstill _ _ _ _ _ Hb) as ->. eauto.
Qed.

(** C4. A variable of type 'T' and grid '+' whose [i] axis has length one
    comes out of the axis remapper (a run that returns) without that axis:
    it has no dimension named [level] and none named [i] any more, and it
    has lost one dimension, two if the spurious [level] axis of the generic
    pipeline was there.  The variable's axes are live objects with distinct
    names, and the forecast and vertical axes are those the extractor
    built. *)
Theorem degenerate_level_removed self station fa mo th vars s vars' s' p v k a :
  remap_axes self station fa mo th vars s = Some (vars', s') →
  extracted s fa mo th →
  vars !! p = Some v →
  is_profile v →
  (∀ b, b ∈ v_axes v → is_Some (axes_heap s !! b)) →
  NoDup (dims_in (axes_heap s) (v_axes v)) →
  find_axis (axes_heap s) (v_axes v) "i" = Some (k, a) →
  len_at (axes_heap s) a = 1%nat →
  ∃ v', vars' !! p = Some v'
    ∧ (a ∉ v_axes v')
    ∧ ("i" ∉ dims_in (axes_heap s') (v_axes v'))
    ∧ ("level" ∉ dims_in (axes_heap s') (v_axes v'))
    ∧ S (length (v_axes v'))
      = (length (v_axes v)
         - if bool_decide ("level" ∈ dims_in (axes_heap s) (v_axes v)) then 1 else 0)%nat.
Proof.
  intros Hrun Hex Hv Hprof Hvalid Hnodup Hfind Hlen.
  destruct (remap_axes_inv _ _ _ _ _ _ _ _ _ Hrun)
    as (u1 & vars1 & s1 & u2 & vars2 & s2 & known & H1 & H2 & H3).
  (* first loop *)
  destruct (still_round _ _ _ _ _ _ _ p v (name_station_axis_still station) H1 Hv)
    as (-> & c & c' & v1 & Hb1 & Hv1).
  rewrite name_station_axis_profile in Hb1 by done. injection Hb1 as _ <-.
  (* second loop *)
  destruct (still_round drop_level _ _ _ _ _ _ p v
              (λ c v s r s' H, proj1 (drop_level_spec _ _ _ _ _ H)) H2 Hv1)
    as (-> & c2 & c2' & v2 & Hb2 & Hv2).
  apply drop_level_spec in Hb2 as (_ & Hatts & Hname & Haxes). simpl in *.
  specialize (Haxes Hprof).
  assert (Hprof2 : is_profile v2).
  { destruct Hprof as [Ht Hg]. unfold is_profile, att_is in *. by rewrite Hatts. }
  set (axs1 := drop_level_axes (axes_heap s) (v_axes v)) in *.
  destruct (drop_level_axes_dims s (v_axes v) k a Hnodup Hfind)
    as (Hnd1 & Hnolevel & k1 & Hfind1).
  pose proof (drop_level_axes_sub s (v_axes v)) as Hsub1.
  pose proof (drop_level_axes_length s (v_axes v)) as Hlen1.
  fold axs1 in Hnd1, Hnolevel, Hfind1, Hsub1, Hlen1. clearbody axs1.
  (* third loop *)
  destruct (for_each_reaches _ _ _ _ _ _ _ p H3) as (kp & sp & Hp).
  pose proof (reaches_level_rel self fa mo th vars2 s p kp sp Hp) as (Hevp & _).
  simpl in Hevp.
  destruct (for_each_round _ _ _ _ _ _ _ _ _ _ _ H3 Hp Hv2) as (kp' & v3 & sp' & Hb3 & Hv3).
  assert (Hfa : ∀ f, fa = Some f → name_at (axes_heap sp) f = "forecast").
  { by destruct (extracted_evolves _ _ _ _ _ Hevp Hex) as [? _]. }
  assert (Hfindp : find_axis (axes_heap sp) (v_axes v2) "i" = Some (k1, a)).
  { rewrite Haxes. by rewrite (own_axes_find s (v_axes v) k a Hvalid Hnodup Hfind Hlen). }
  assert (Hlenp : len_at (axes_heap sp) a = 1%nat).
  { unfold len_at in *. rewrite (own_axes_frozen s (v_axes v) k a Hvalid Hnodup Hfind Hlen);
      [done..|].
    destruct (find_axis_Some _ _ _ _ _ Hfind) as (Hk & _). by eapply list_elem_of_lookup_2. }
  rewrite (remap_profile_degenerate self fa mo th kp v2 sp k1 a Hprof2 Hfa Hfindp Hlenp)
    in Hb3.
  injection Hb3 as <- <- <-. rewrite Haxes in *.
  (* the final store *)
  assert (Hevf : evolves s s').
  { eapply (keeps_for_each (remap_profile self fa mo th)); [|exact H3].
    intros ??. apply keeps_remap_profile. }
  set (axs2 := remap_j_axes (axes_heap sp) fa axs1) in *.
  assert (Hd1 : dims_in (axes_heap s') axs1 = dims_in (axes_heap s) axs1).
  { by apply (own_axes_dims s (v_axes v) k a Hvalid Hnodup Hfind Hlen). }
  destruct (find_axis_Some _ _ _ _ _ Hfind1) as (Hk1 & Hn1 & Hk1lt & _).
  assert (Hi1 : dims_in (axes_heap s) axs1 !! k1 = Some "i").
  { unfold dims_in. by rewrite list_lookup_fmap, Hk1; simpl; rewrite Hn1. }
  assert (Hd2 : ("level" ∉ dims_in (axes_heap s') axs2)
    ∧ (∀ j, dims_in (axes_heap s') axs2 !! j = Some "i" → j = k1)
    ∧ length axs2 = length axs1).
  { unfold axs2, remap_j_axes.
    destruct (find_axis (axes_heap sp) axs1 "j") as [[kj j]|]; [|rewrite Hd1].
    2:{ split_and!; [done| |done]. intros j Hj. by eapply NoDup_lookup. }
    destruct fa as [f|]; [|rewrite Hd1].
    2:{ split_and!; [done| |done]. intros j' Hj. by eapply NoDup_lookup. }
    destruct (bool_decide (len_at (axes_heap sp) j = len_at (axes_heap sp) f)).
    2:{ rewrite Hd1. split_and!; [done| |done]. intros j' Hj. by eapply NoDup_lookup. }
    assert (Hnf : name_at (axes_heap s') f = "forecast").
    { destruct Hex as [Hf _]. eapply evolves_name_at; [exact Hevf|by apply Hf|done..]. }
    unfold dims_in. rewrite list_fmap_insert, Hnf. fold (dims_in (axes_heap s') axs1).
    rewrite Hd1. split_and!.
    - intros (j' & Hj')%list_elem_of_lookup_1.
      apply list_lookup_insert_Some in Hj' as [(_ & ? & _)|[_ Hj']]; [done|].
      apply Hnolevel. by eapply list_elem_of_lookup_2.
    - intros j' Hj'.
      apply list_lookup_insert_Some in Hj' as [(_ & ? & _)|[_ Hj']]; [done|].
      by eapply NoDup_lookup.
    - by rewrite length_insert. }
  destruct Hd2 as (Hnolevel2 & Huniq & Hlen2).
  exists (set_axes (delete k1 axs2) v2). simpl.
  assert (Hno_i : "i" ∉ dims_in (axes_heap s') (delete k1 axs2)).
  { unfold dims_in. rewrite list_fmap_delete. by apply delete_unique. }
  split_and!; [done| |done| |].
  - intros Ha. apply Hno_i. unfold dims_in. apply list_elem_of_fmap. exists a.
    split; [|done]. symmetry.
    rewrite (own_axes_name s (v_axes v) k a Hvalid Hnodup Hfind Hlen); [|done|].
    + by destruct (find_axis_Some _ _ _ _ _ Hfind) as (_ & ? & _).
    + destruct (find_axis_Some _ _ _ _ _ Hfind) as (? & _). by eapply list_elem_of_lookup_2.
  - unfold dims_in. rewrite list_fmap_delete. intros Hin.
    by apply list_elem_of_delete_inv in Hin.
  - rewrite length_delete by (apply lookup_lt_is_Some; lia). rewrite Hlen2, <-Hlen1. lia.
Qed.

(** ** The axis remapper as a whole *)

Lemma unshared_lookup vars p a p' u :
  unshared vars p a → (p' < p)%nat → vars !! p' = Some u → is_profile u → a ∉ v_axes u.
Proof.
  unfold unshared. rewrite Forall_lookup. intros H Hlt Hu. apply (H p').
  by rewrite lookup_take_lt.
Qed.

Lemma unshared_intro vars p a :
  (∀ p' u, (p' < p)%nat → vars !! p' = Some u → is_profile u → a ∉ v_axes u) →
  unshared vars p a.
Proof.
  intros H. apply Forall_lookup. intros p' u Hu.
  apply lookup_take_Some in Hu as [Hu Hlt]. by apply (H p').
Qed.

Section spares.
Context {A B : Type} (b : addr).

Lemma spares_ret (x : A) : spares b (mret x).
Proof. by intros s y s' [= <- <-]. Qed.

Lemma spares_raise : spares b (@raise A).
Proof. by intros s y s'. Qed.

Lemma spares_lift (o : option A) : spares b (lift o).
Proof. destruct o; [apply spares_ret|apply spares_raise]. Qed.

Lemma spares_bind (m : M A) (k : A → M B) :
  spares b m → (∀ x, spares b (k x)) → spares b (m ≫= k).
Proof.
  intros Hm Hk s y s' H Hb. unfold mbind, M_bind in H.
  destruct (m s) as [[x s1]|] eqn:Hms; [|done].
  rewrite <-(Hm _ _ _ Hms Hb). eapply Hk; [done|]. by rewrite (Hm _ _ _ Hms Hb).
Qed.

End spares.

Lemma spares_get_axes b : spares b get_axes.
Proof. by intros s y s' [= <- <-]. Qed.

Lemma spares_new_axis b a : spares b (new_axis a).
Proof.
  intros s y s' [= <- <-] [x Hx]. simpl. rewrite Hx. by apply lookup_app_l_Some.
Qed.

Lemma spares_warn b msg : spares b (warn msg).
Proof. by intros s y s' [= <- <-]. Qed.

Lemma spares_set_name b a nm : a ≠ b → spares b (set_name a nm).
Proof. intros Hne s y s' [= <- <-] _. simpl. by apply list_lookup_alter_ne. Qed.

Ltac spares_step :=
  match goal with
  | |- spares _ (mret _) => apply spares_ret
  | |- spares _ raise => apply spares_raise
  | |- spares _ (lift _) => apply spares_lift
  | |- spares _ get_axes => apply spares_get_axes
  | |- spares _ (new_axis _) => apply spares_new_axis
  | |- spares _ (warn _) => apply spares_warn
  | |- spares _ (set_name _ _) => by apply spares_set_name
  | |- spares _ (_ ≫= _) => apply spares_bind; [|intros ?]
  | |- spares _ (if ?b then _ else _) => destruct b
  | |- spares _ (match ?x with _ => _ end) => destruct x
  | |- spares _ (let '(_, _) := ?x in _) => destruct x
  end.

Lemma wp_spares {A} b (m : M A) s :
  spares b m → is_Some (axes_heap s !! b) →
  wp True m s (λ _ s', axes_heap s' !! b = axes_heap s !! b).
Proof. intros Hm Hb. apply wp_partial. intros x s' H. by eapply Hm. Qed.

(** A round of the third loop renames the variable's own [i] axis and
    nothing else. *)
Lemma remap_i_spares self mo th ds known var s r s' b :
  remap_i self mo th ds known var s = Some (r, s') →
  is_Some (axes_heap s !! b) →
  getaxis_in (axes_heap s) (v_axes var) "i" ≠ Some b →
  axes_heap s' !! b = axes_heap s !! b.
Proof.
  intros Hrun Hb Hne. revert r s' Hrun.
  apply (wp_partial (remap_i self mo th ds known var) s
           (λ _ s', axes_heap s' !! b = axes_heap s !! b)).
  unfold remap_i. rewrite wp_bind, wp_getaxis.
  destruct (getaxis_in (axes_heap s) (v_axes var) "i") as [a|]; [|done].
  apply wp_spares; [|done]. assert (a ≠ b) by congruence.
  unfold try_levels, len, index, pop, setitem. repeat spares_step.
Qed.

Lemma remap_profile_spares self fa mo th known var s r s' b :
  remap_profile self fa mo th known var s = Some (r, s') →
  (∀ f, fa = Some f → name_at (axes_heap s) f = "forecast") →
  is_Some (axes_heap s !! b) →
  (is_profile var → b ∉ v_axes var) →
  axes_heap s' !! b = axes_heap s !! b.
Proof.
  intros Hrun Hfa Hb Hout.
  destruct (att_is var "typvar" "T" && att_is var "grtyp" "+") eqn:Hprof.
  2:{ rewrite remap_profile_skip in Hrun by done. by injection Hrun as <- <-. }
  apply andb_true_iff in Hprof as [Ht Hg].
  rewrite remap_profile_unfold in Hrun by done.
  eapply remap_i_spares; [done..|]. simpl.
  intros Hget. apply Hout; [done|].
  destruct (find_axis (axes_heap s) (v_axes var) "i") as [[k a]|] eqn:Hfind.
  - destruct (remap_j_keeps_i fa var s k a Hfa Hfind) as [Hfind' _].
    destruct (find_axis_Some _ _ _ _ _ Hfind') as (_ & _ & _ & Hget' & _).
    rewrite Hget in Hget'. injection Hget' as ->.
    destruct (find_axis_Some _ _ _ _ _ Hfind) as (? & _). by eapply list_elem_of_lookup_2.
  - assert (Hnone : find_axis (axes_heap s) (remap_j_axes (axes_heap s) fa (v_axes var)) "i"
                    = None).
    { rewrite find_axis_remap_j; [done|done|]. intros f Hf. by rewrite (Hfa f Hf). }
    destruct (find_axis_None _ _ _ Hnone) as [Hget' _]. congruence.
Qed.

Lemma reaches_0_inv {C} (body : C → variable → M (C * variable)) c0 s0 vs c s :
  reaches body c0 s0 vs 0 c s → c = c0 ∧ s = s0.
Proof. intros [pre H]. rewrite take_0 in H. by injection H as <- _ <-. Qed.

Lemma reaches_S_inv {C} (body : C → variable → M (C * variable)) c0 s0 vs p c s :
  reaches body c0 s0 vs (S p) c s →
  match vs !! p with
  | Some v => ∃ c1 s1 v', reaches body c0 s0 vs p c1 s1 ∧ body c1 v s1 = Some ((c, v'), s)
  | None => reaches body c0 s0 vs p c s
  end.
Proof.
  intros [pre H]. destruct (vs !! p) as [v|] eqn:Hv.
  - rewrite (take_S_r _ _ _ Hv), for_each_app in H.
    destruct (for_each body c0 (take p vs) s0) as [[[c1 l1] s1]|] eqn:H1; [|done].
    simpl in H. unfold mbind, M_bind in H.
    destruct (body c1 v s1) as [[[c2 v'] s2]|] eqn:Hb; [|done].
    simpl in H. injection H as <- _ <-.
    exists c1, s1, v'. split; [by exists l1|done].
  - exists pre. apply lookup_ge_None in Hv.
    rewrite take_ge in H by lia. by rewrite take_ge by lia.
Qed.

Section third_loop.
Context (self : Series) (fa mo th : option addr) (vars : list variable) (s0 : store).
Hypothesis Hex : extracted s0 fa mo th.
Local Abbreviation body := (remap_profile self fa mo th).

(** An axis object that no earlier profile variable holds is reached as it
    was. *)
Lemma reaches_spares p c s b :
  reaches body ∅ s0 vars p c s →
  is_Some (axes_heap s0 !! b) → unshared vars p b →
  axes_heap s !! b = axes_heap s0 !! b.
Proof.
  revert c s. induction p as [|p IH]; intros c s Hp Hb Hun.
  { by apply reaches_0_inv in Hp as [_ ->]. }
  assert (Hun' : unshared vars p b).
  { apply unshared_intro. intros p' u ?. apply (unshared_lookup _ _ _ _ _ Hun). lia. }
  apply reaches_S_inv in Hp. destruct (vars !! p) as [v|] eqn:Hv; [|by apply (IH c s)].
  destruct Hp as (c1 & s1 & v' & Hp & Hround).
  rewrite <-(IH c1 s1 Hp Hb Hun').
  destruct (reaches_ready self fa mo th vars s0 Hex p c1 s1 Hp) as [Hfa _].
  eapply remap_profile_spares; [done..| |].
  - by rewrite (IH c1 s1 Hp Hb Hun').
  - intros Hprof. by apply (unshared_lookup _ _ _ p v Hun); [lia|..].
Qed.

(** The first axis named [i], at a later point of the pass. *)
Lemma reaches_find_i p c s var k a :
  reaches body ∅ s0 vars p c s →
  live (axes_heap s0) var →
  find_axis (axes_heap s0) (v_axes var) "i" = Some (k, a) →
  axes_heap s !! a = axes_heap s0 !! a →
  find_axis (axes_heap s) (v_axes var) "i" = Some (k, a).
Proof.
  intros Hp Hlive Hfind Ha.
  pose proof (reaches_level_rel self fa mo th vars s0 p c s Hp) as ([Hev _] & _).
  simpl in Hev.
  unfold find_axis in *. apply list_find_Some in Hfind as (Hk & Hn & Hbefore).
  apply list_find_Some. split_and!; [done|by unfold name_at; rewrite Ha|].
  intros j y Hj Hlt Hy. apply (Hbefore j y Hj Hlt).
  destruct (live_elem _ _ y Hlive) as [x Hx]; [by eapply list_elem_of_lookup_2|].
  destruct (Hev y x Hx) as (x' & Hx' & Hstep).
  unfold name_at in *. rewrite Hx' in Hy. rewrite Hx. simpl in *.
  destruct (axis_step_name _ _ Hstep) as [<-|[? Hl]]; [done|congruence].
Qed.

Lemma reaches_len_at p c s b :
  reaches body ∅ s0 vars p c s → is_Some (axes_heap s0 !! b) →
  len_at (axes_heap s) b = len_at (axes_heap s0) b.
Proof.
  intros Hp [x Hx].
  pose proof (reaches_level_rel self fa mo th vars s0 p c s Hp) as ([Hev _] & _).
  simpl in Hev. destruct (Hev b x Hx) as (x' & Hx' & Hstep).
  unfold len_at. rewrite Hx, Hx'. simpl. by apply axis_step_len.
Qed.

End third_loop.

Lemma name_station_axis_atts station u var s r s' :
  name_station_axis station u var s = Some (r, s') →
  v_atts r.2 = v_atts var ∧ v_name r.2 = v_name var.
Proof.
  revert r s'. apply wp_partial.
  unfold name_station_axis, station_shape0, station_axis.
  destruct (att_is var "typvar" "T" && att_is var "grtyp" "Y"); wp_simpl; [|done].
  destruct (getaxis_in (axes_heap s) (v_axes var) "i"); [|by wp_simpl].
  destruct station as [[sa c]|]; wp_simpl; [|done].
  destruct (c_axes c !! 0%nat); wp_simpl; [|done].
  case_bool_decide; wp_simpl; [|done].
  destruct (list_find _ _) as [[??]|]; wp_simpl; [|done].
  case_bool_decide; wp_simpl; done.
Qed.

Lemma is_profile_atts u u' : v_atts u' = v_atts u → is_profile u' ↔ is_profile u.
Proof. intros H. unfold is_profile, att_is. by rewrite H. Qed.

(** The variables that the third loop of the remapper starts from. *)
Lemma remap_axes_loops self station fa mo th vars s vars' s' :
  remap_axes self station fa mo th vars s = Some (vars', s') →
  ∃ vars2 known,
    for_each (remap_profile self fa mo th) ∅ vars2 s = Some ((known, vars'), s')
    ∧ length vars2 = length vars
    ∧ ∀ q u, vars !! q = Some u →
        ∃ u2, vars2 !! q = Some u2 ∧ v_name u2 = v_name u ∧ v_atts u2 = v_atts u
          ∧ (is_profile u → v_axes u2 = drop_level_axes (axes_heap s) (v_axes u)).
Proof.
  intros Hrun.
  destruct (remap_axes_inv _ _ _ _ _ _ _ _ _ Hrun)
    as (u1 & vars1 & s1 & u2 & vars2 & s2 & known & H1 & H2 & H3).
  assert (s1 = s) as ->.
  { symmetry. apply (for_each_rel (name_station_axis station) same_store) in H1; try done.
    - unfold same_store. congruence.
    - intros ?????? H. symmetry. by eapply name_station_axis_still. }
  assert (s2 = s) as ->.
  { symmetry. apply (for_each_rel drop_level same_store) in H2; try done.
    - unfold same_store. congruence.
    - intros ?????? H. symmetry. by apply drop_level_spec in H as [? _]. }
  exists vars2, known. split_and!; [done| |].
  { rewrite (for_each_length _ _ _ _ _ _ _ H2). apply (for_each_length _ _ _ _ _ _ _ H1). }
  intros q u Hu.
  destruct (still_round _ _ _ _ _ _ _ q u (name_station_axis_still station) H1 Hu)
    as (_ & c & c' & v1 & Hb1 & Hv1).
  destruct (still_round drop_level _ _ _ _ _ _ q v1
              (λ c v s r s' H, proj1 (drop_level_spec _ _ _ _ _ H)) H2 Hv1)
    as (_ & c2 & c2' & v2 & Hb2 & Hv2).
  pose proof (name_station_axis_atts _ _ _ _ _ _ Hb1) as [Ha1 Hn1]. simpl in Ha1, Hn1.
  pose proof (drop_level_spec _ _ _ _ _ Hb2) as (_ & Ha2 & Hn2 & Hax). simpl in *.
  exists v2. split_and!; [done|congruence|congruence|].
  intros Hprof. rewrite name_station_axis_profile in Hb1 by done.
  injection Hb1 as _ <-. by apply Hax.
Qed.

Lemma find_i_after_drop h axs k a :
  find_axis h axs "i" = Some (k, a) →
  ∃ k1, find_axis h (drop_level_axes h axs) "i" = Some (k1, a).
Proof.
  intros Hfind. unfold drop_level_axes.
  destruct (find_axis h axs "level") as [[kl l]|] eqn:Hl; [|by eauto].
  destruct (find_axis_Some _ _ _ _ _ Hl) as (Hkl & Hnl & _).
  unfold find_axis. rewrite (list_find_delete_other _ _ _ _ Hkl) by congruence.
  unfold find_axis in Hfind. rewrite Hfind. simpl. eauto.
Qed.

Lemma live_sub h var var' : v_axes var' ⊆ v_axes var → live h var → live h var'.
Proof.
  intros Hsub Hlive. apply Forall_forall. intros b Hb.
  apply (live_elem _ _ _ Hlive). by apply Hsub.
Qed.

Lemma unshared_sub vars vars2 p a :
  (∀ q u, vars !! q = Some u →
     ∃ u2, vars2 !! q = Some u2 ∧ (is_profile u2 → is_profile u ∧ v_axes u2 ⊆ v_axes u)) →
  length vars2 = length vars →
  unshared vars p a → unshared vars2 p a.
Proof.
  intros Hrel Hlen Hun. apply unshared_intro. intros p' u2 Hlt Hu2 Hprof.
  assert (is_Some (vars !! p')) as [u Hu].
  { apply lookup_lt_is_Some. rewrite <-Hlen. by eapply lookup_lt_Some. }
  destruct (Hrel p' u Hu) as (u2' & Hu2' & Hsub).
  assert (u2' = u2) as -> by congruence.
  destruct (Hsub Hprof) as [Hp Hs]. intros Hin.
  by apply (unshared_lookup _ _ _ p' u Hun Hlt Hu Hp), Hs.
Qed.

Section profile_round.
Context (self : Series) (fa mo th : option addr) (vars vars2 vars' : list variable)
  (s s' : store) (knownf : gmap nat addr).
Hypothesis Hex : extracted s fa mo th.
Hypothesis Hloop :
  for_each (remap_profile self fa mo th) ∅ vars2 s = Some ((knownf, vars'), s').
Hypothesis Hlen2 : length vars2 = length vars.
Hypothesis Hrel : ∀ q u, vars !! q = Some u →
  ∃ u2, vars2 !! q = Some u2 ∧ v_name u2 = v_name u ∧ v_atts u2 = v_atts u
    ∧ (is_profile u → v_axes u2 = drop_level_axes (axes_heap s) (v_axes u)).

(** The round of the third loop on a profile variable whose [i] axis is
    degenerate or not held by an earlier profile variable: the axis is
    found as it was in the initial store. *)
Lemma profile_round p v k a v2 k1 known sp :
  vars !! p = Some v → is_profile v → live (axes_heap s) v →
  find_axis (axes_heap s) (v_axes v) "i" = Some (k, a) →
  len_at (axes_heap s) a = 1%nat ∨ unshared vars p a →
  vars2 !! p = Some v2 →
  find_axis (axes_heap s) (drop_level_axes (axes_heap s) (v_axes v)) "i" = Some (k1, a) →
  reaches (remap_profile self fa mo th) ∅ s vars2 p known sp →
  v_name v2 = v_name v ∧ v_atts v2 = v_atts v ∧ is_profile v2
  ∧ v_axes v2 = drop_level_axes (axes_heap s) (v_axes v)
  ∧ find_axis (axes_heap sp) (v_axes v2) "i" = Some (k1, a)
  ∧ (∀ b, is_Some (axes_heap s !! b) → len_at (axes_heap sp) b = len_at (axes_heap s) b)
  ∧ (∀ f, fa = Some f → name_at (axes_heap sp) f = "forecast")
  ∧ evolves s sp.
Proof.
  intros Hv Hprof Hlive Hfind Hcase Hv2 Hfind1 Hp.
  destruct (Hrel p v Hv) as (v2' & Hv2' & Hname & Hatts & Haxes). specialize (Haxes Hprof).
  assert (v2' = v2) as -> by congruence.
  rewrite <-Haxes in Hfind1.
  assert (Hlive2 : live (axes_heap s) v2).
  { eapply live_sub; [|done]. rewrite Haxes. apply drop_level_axes_sub. }
  pose proof (find_axis_live _ _ _ _ _ Hlive Hfind) as Ha.
  pose proof (reaches_level_rel self fa mo th vars2 s p known sp Hp) as (Hev & _).
  simpl in Hev.
  assert (Hsame : axes_heap sp !! a = axes_heap s !! a).
  { destruct Hcase as [Hone|Hun].
    - destruct Ha as [x Hx]. rewrite Hx. eapply evolves_keep; [done..|].
      right. unfold len_at in Hone. by rewrite Hx in Hone.
    - apply (reaches_spares self fa mo th vars2 s Hex p known sp a Hp Ha).
      apply (unshared_sub vars); [|done..].
      intros q u Hu. destruct (Hrel q u Hu) as (u2 & Hu2 & _ & Hatts' & Haxes').
      exists u2. split; [done|]. intros Hp2.
      apply (is_profile_atts u u2) in Hp2; [|done].
      split; [done|]. rewrite (Haxes' Hp2). apply drop_level_axes_sub. }
  split_and!; try done.
  - by apply (is_profile_atts v v2).
  - by apply (reaches_find_i self fa mo th vars2 s p known sp).
  - intros b Hb. by apply (reaches_len_at self fa mo th vars2 s p known sp).
  - by destruct (reaches_ready self fa mo th vars2 s Hex p known sp Hp).
Qed.

(** What the pass has warned of stays in the list. *)
Lemma round_warning p known sp v2 known1 v3 sp1 msg :
  reaches (remap_profile self fa mo th) ∅ s vars2 p known sp →
  vars2 !! p = Some v2 →
  remap_profile self fa mo th known v2 sp = Some ((known1, v3), sp1) →
  warnings sp1 = warnings sp ++ [msg] →
  ∃ l1 l2, warnings s' = warnings s ++ l1 ++ msg :: l2.
Proof.
  intros Hp Hv2 Hb Hw.
  pose proof (reaches_level_rel self fa mo th vars2 s p known sp Hp) as ((_ & _ & [l1 Hl1]) & _).
  pose proof (reaches_S _ _ _ _ _ _ _ _ _ _ _ Hp Hv2 Hb) as Hp1.
  destruct (reaches_final_rel (remap_profile self fa mo th) level_rel ∅ s vars2 knownf vars' s'
              (S p) known1 sp1 level_rel_refl level_rel_trans
              (level_rel_body self fa mo th) Hloop Hp1) as ((_ & _ & [l2 Hl2]) & _).
  simpl in *. exists l1, l2. rewrite Hl2, Hw, Hl1. by rewrite <-!app_assoc.
Qed.

End profile_round.

Lemma remap_j_axes_elem h fa axs x :
  x ∈ remap_j_axes h fa axs → x ∈ axs ∨ fa = Some x.
Proof.
  unfold remap_j_axes. destruct (find_axis h axs "j") as [[kj j]|]; [|by left].
  destruct fa as [f|]; [|by left]. case_bool_decide; [|by left].
  intros (i & Hi)%list_elem_of_lookup_1.
  apply list_lookup_insert_Some in Hi as [(_ & -> & _)|[_ Hi]]; [by right|left].
  by eapply list_elem_of_lookup_2.
Qed.

(** C5 (amended). In a run of the axis remapper that returns, take two
    profile variables (possibly the same one) whose first [i] axis has the
    same length [n] other than one, named in neither list of variables, and
    whose [i] axis object is held by no profile variable earlier in the
    list.  Both end with the same object [d] in the place of their [i]
    axis; [d] is a pure dimension named [level] of length [n] in the final
    store; their number of axes is the one left by the second loop; and
    the pass has added the warning about the vertical coordinates of
    each. *)
Theorem generic_level_dimension self station fa mo th vars s vars' s' p q v w k a k' b n :
  remap_axes self station fa mo th vars s = Some (vars', s') →
  extracted s fa mo th →
  vars !! p = Some v → vars !! q = Some w →
  live (axes_heap s) v → live (axes_heap s) w →
  unidentified self s v k a n → unidentified self s w k' b n →
  unshared vars p a → unshared vars q b →
  ∃ d v' w' k1 k1',
    vars' !! p = Some v' ∧ vars' !! q = Some w'
    ∧ find_axis (axes_heap s) (drop_level_axes (axes_heap s) (v_axes v)) "i" = Some (k1, a)
    ∧ find_axis (axes_heap s) (drop_level_axes (axes_heap s) (v_axes w)) "i" = Some (k1', b)
    ∧ v_axes v' !! k1 = Some d ∧ v_axes w' !! k1' = Some d
    ∧ length (v_axes v') = length (drop_level_axes (axes_heap s) (v_axes v))
    ∧ length (v_axes w') = length (drop_level_axes (axes_heap s) (v_axes w))
    ∧ axes_heap s' !! d = Some (_dim_type "level" n)
    ∧ (∃ l1 l2, warnings s' = warnings s ++ l1 ++ unable_msg v :: l2)
    ∧ (∃ l1 l2, warnings s' = warnings s ++ l1 ++ unable_msg w :: l2).
Proof.
  intros Hrun Hex Hv Hw Hlv Hlw (Hpv & Hfv & Hnv & Hn1 & Hmv & Htv)
    (Hpw & Hfw & Hnw & _ & Hmw & Htw) Huv Huw.
  destruct (remap_axes_loops _ _ _ _ _ _ _ _ _ Hrun) as (vars2 & knownf & Hloop & Hlen2 & Hrel).
  destruct (Hrel p v Hv) as (v2 & Hv2 & _). destruct (Hrel q w Hw) as (w2 & Hw2 & _).
  destruct (find_i_after_drop _ _ _ _ Hfv) as [k1 Hk1].
  destruct (find_i_after_drop _ _ _ _ Hfw) as [k1' Hk1'].
  destruct (for_each_reaches _ _ _ _ _ _ _ p Hloop) as (kp & sp & Hp).
  destruct (for_each_reaches _ _ _ _ _ _ _ q Hloop) as (kq & sq & Hq).
  destruct (profile_round self fa mo th vars vars2 s Hex Hlen2 Hrel p v k a v2 k1 kp sp)
    as (Hname & Hatts & Hprof2 & Haxes & Hfindp & Hlenp & _); auto.
  destruct (profile_round self fa mo th vars vars2 s Hex Hlen2 Hrel q w k' b w2 k1' kq sq)
    as (Hname' & Hatts' & Hprof2' & Haxes' & Hfindq & Hlenq & _); auto.
  assert (Hu : unidentified self sp v2 k1 a n).
  { split_and!; try done; [|by rewrite Hname..].
    rewrite Hlenp; [done|]. apply (find_axis_live _ _ _ _ _ Hlv Hfv). }
  assert (Hu' : unidentified self sq w2 k1' b n).
  { split_and!; try done; [|by rewrite Hname'..].
    rewrite Hlenq; [done|]. apply (find_axis_live _ _ _ _ _ Hlw Hfw). }
  destruct (generic_level_rounds self fa mo th vars2 s p q kp sp kq sq v2 w2 k1 a k1' b n
              Hex Hp Hv2 Hu Hq Hw2 Hu')
    as (d & kp' & v' & sp' & kq' & w' & sq' & Hb & Hb' & Hd & Hd' & Hl & Hl' & _ & _
        & Hwp & Hwq & Hfinal).
  destruct (Hfinal knownf vars' s' Hloop) as (Hv' & Hw' & Hobj).
  exists d, v', w', k1, k1'. split_and!; try done.
  - by rewrite Hl, Haxes.
  - by rewrite Hl', Haxes'.
  - unfold unable_msg. rewrite <-Hname.
    by eapply (round_warning self fa mo th vars2 vars' s s' knownf Hloop p kp sp).
  - unfold unable_msg. rewrite <-Hname'.
    by eapply (round_warning self fa mo th vars2 vars' s s' knownf Hloop q kq sq).
Qed.

(** C10 (amended). In a run of the axis remapper that returns, take a
    profile variable named in both lists, with both vertical axes extracted
    and both as long as the variable's first [i] axis.  If that length is
    not one and no profile variable earlier in the list holds the [i] axis
    object, the thermodynamic axis is in the place of the [i] axis and the
    variable has kind 5.  If the length is one, the dimension is removed:
    the variable has one axis less, every axis left is one of its own or
    the forecast axis, and its attributes are unchanged. *)
Theorem thermodynamic_overrides_momentum self station fa m t vars s vars' s' p v k a :
  remap_axes self station fa (Some m) (Some t) vars s = Some (vars', s') →
  extracted s fa (Some m) (Some t) →
  vars !! p = Some v → is_profile v → live (axes_heap s) v →
  v_name v ∈ _momentum_vars self → v_name v ∈ _thermo_vars self →
  find_axis (axes_heap s) (v_axes v) "i" = Some (k, a) →
  len_at (axes_heap s) m = len_at (axes_heap s) a →
  len_at (axes_heap s) t = len_at (axes_heap s) a →
  ∃ v' k1,
    vars' !! p = Some v'
    ∧ find_axis (axes_heap s) (drop_level_axes (axes_heap s) (v_axes v)) "i" = Some (k1, a)
    ∧ (len_at (axes_heap s) a ≠ 1%nat → unshared vars p a →
         v_axes v' !! k1 = Some t
         ∧ length (v_axes v') = length (drop_level_axes (axes_heap s) (v_axes v))
         ∧ v_atts v' = <["kind" := att_int 5]> (v_atts v))
    ∧ (len_at (axes_heap s) a = 1%nat →
         S (length (v_axes v')) = length (drop_level_axes (axes_heap s) (v_axes v))
         ∧ (∀ x, x ∈ v_axes v' → x ∈ v_axes v ∨ fa = Some x)
         ∧ v_atts v' = v_atts v).
Proof.
  intros Hrun Hex Hv Hprof Hlive Hmv Htv Hfind Hlm Hlt.
  destruct (remap_axes_loops _ _ _ _ _ _ _ _ _ Hrun) as (vars2 & knownf & Hloop & Hlen2 & Hrel).
  destruct (Hrel p v Hv) as (v2 & Hv2 & _).
  destruct (find_i_after_drop _ _ _ _ Hfind) as [k1 Hk1].
  destruct (for_each_reaches _ _ _ _ _ _ _ p Hloop) as (kp & sp & Hp).
  destruct (for_each_round _ _ _ _ _ _ _ _ _ _ _ Hloop Hp Hv2) as (kp' & v3 & sp' & Hb & Hv3).
  pose proof Hex as (_ & Hnm & Hnt).
  assert (Hm : is_Some (axes_heap s !! m)).
  { specialize (Hnm m eq_refl). unfold name_at in Hnm.
    by destruct (axes_heap s !! m); [eexists|]. }
  assert (Ht : is_Some (axes_heap s !! t)).
  { specialize (Hnt t eq_refl). unfold name_at in Hnt.
    by destruct (axes_heap s !! t); [eexists|]. }
  pose proof (find_axis_live _ _ _ _ _ Hlive Hfind) as Ha.
  exists v3, k1. split_and!; [done|done| |].
  - intros Hne Hun.
    destruct (profile_round self fa (Some m) (Some t) vars vars2 s Hex Hlen2 Hrel p v k a v2 k1 kp sp)
      as (Hname & Hatts & Hprof2 & Haxes & Hfindp & Hlenp & Hfa & _); auto.
    rewrite (remap_profile_thermo self fa (Some m) (Some t) kp v2 sp k1 a Hprof2 Hfa Hfindp
               m t eq_refl eq_refl) in Hb.
    + injection Hb as _ <- _. simpl.
      destruct (find_axis_Some _ _ _ _ _ Hfindp) as (_ & _ & Hk1lt & _).
      split_and!.
      * apply list_lookup_insert_eq. by rewrite remap_j_axes_length.
      * by rewrite length_insert, remap_j_axes_length, Haxes.
      * by rewrite Hatts.
    + by rewrite Hlenp.
    + by rewrite Hname.
    + by rewrite Hname.
    + by rewrite !Hlenp.
    + by rewrite !Hlenp.
    + intros ->. destruct (find_axis_Some _ _ _ _ _ Hfind) as (_ & Hna & _).
      rewrite (Hnt a eq_refl) in Hna. discriminate.
  - intros Hone.
    destruct (profile_round self fa (Some m) (Some t) vars vars2 s Hex Hlen2 Hrel p v k a v2 k1 kp sp)
      as (Hname & Hatts & Hprof2 & Haxes & Hfindp & Hlenp & Hfa & _); auto.
    rewrite (remap_profile_degenerate self fa (Some m) (Some t) kp v2 sp k1 a Hprof2 Hfa Hfindp)
      in Hb by (by rewrite Hlenp).
    injection Hb as _ <- _. simpl.
    destruct (find_axis_Some _ _ _ _ _ Hfindp) as (Hk1a & _ & Hk1lt & _).
    split_and!; [| |done].
    + rewrite length_delete by (apply lookup_lt_is_Some; by rewrite remap_j_axes_length).
      rewrite remap_j_axes_length, Haxes in *. lia.
    + intros x Hx%list_elem_of_delete_inv%remap_j_axes_elem.
      destruct Hx as [Hx|Hx]; [left|by right].
      rewrite Haxes in Hx. by apply (drop_level_axes_sub s (v_axes v)).
Qed.

(** * The specification on sample data *)

Ltac by_computation := vm_compute; reflexivity.
Ltac decided := apply (bool_decide_unpack _); by_computation.


Lemma degenerate_level_removed_witness :
  ∃ v', Sample.degenerate_outcome.1 !! 0%nat = Some v'
    ∧ (2%nat ∉ v_axes v')
    ∧ ("i" ∉ dims_in (axes_heap Sample.degenerate_outcome.2) (v_axes v'))
    ∧ ("level" ∉ dims_in (axes_heap Sample.degenerate_outcome.2) (v_axes v'))
    ∧ S (length (v_axes v')) = (3 - 1)%nat.
Proof.
  apply (degenerate_level_removed Sample.no_lists None (Some 3%nat) None None
           Sample.degenerate_vars Sample.degenerate_store
           Sample.degenerate_outcome.1 Sample.degenerate_outcome.2
           0 (Sample.profile_var "ZZ" [0; 1; 2]%nat [1%nat]) 2 2).
  - by_computation.
  - split_and!; [intros f [= <-]; reflexivity|discriminate..].
  - reflexivity.
  - split; by_computation.
  - apply Forall_forall. repeat constructor; eexists; reflexivity.
  - apply (bool_decide_unpack _). by_computation.
  - by_computation.
  - reflexivity.
Defined.



Lemma generic_level_dimension_witness :
  ∃ d v' w' k1 k1',
    Sample.generic_outcome.1 !! 0%nat = Some v' ∧ Sample.generic_outcome.1 !! 1%nat = Some w'
    ∧ find_axis (axes_heap Sample.generic_store)
        (drop_level_axes (axes_heap Sample.generic_store) [0%nat]) "i" = Some (k1, 0%nat)
    ∧ find_axis (axes_heap Sample.generic_store)
        (drop_level_axes (axes_heap Sample.generic_store) [1%nat]) "i" = Some (k1', 1%nat)
    ∧ v_axes v' !! k1 = Some d ∧ v_axes w' !! k1' = Some d
    ∧ length (v_axes v') = length (drop_level_axes (axes_heap Sample.generic_store) [0%nat])
    ∧ length (v_axes w') = length (drop_level_axes (axes_heap Sample.generic_store) [1%nat])
    ∧ axes_heap Sample.generic_outcome.2 !! d = Some (_dim_type "level" 4)
    ∧ (∃ l1 l2, warnings Sample.generic_outcome.2
         = [] ++ l1 ++ unable_msg (Sample.profile_var "XX" [0%nat] []) :: l2)
    ∧ (∃ l1 l2, warnings Sample.generic_outcome.2
         = [] ++ l1 ++ unable_msg (Sample.profile_var "YY" [1%nat] []) :: l2).
Proof.
  apply (generic_level_dimension Sample.no_lists None None None None Sample.generic_vars
           Sample.generic_store Sample.generic_outcome.1 Sample.generic_outcome.2 0 1
           (Sample.profile_var "XX" [0%nat] []) (Sample.profile_var "YY" [1%nat] [])
           0 0 0 1 4).
  - by_computation.
  - split_and!; discriminate.
  - reflexivity.
  - reflexivity.
  - decided.
  - decided.
  - split_and!; [split; by_computation|by_computation|reflexivity|discriminate|decided..].
  - split_and!; [split; by_computation|by_computation|reflexivity|discriminate|decided..].
  - decided.
  - decided.
Defined.

(** C5, as stated, fails: two profiles in neither list hold the same
    dimension of four levels.  The round of the first one renames that
    object to [level] in place, so the second one has no [i] axis left: it
    keeps the renamed object and no warning names it, and the two
    variables end on two distinct objects that are both a [level]
    dimension of length four. *)
Lemma generic_level_not_shared :
  remap_axes Sample.no_lists None None None None Sample.twin_vars Sample.twin_store = Some Sample.twin_outcome
  ∧ extracted Sample.twin_store None None None
  ∧ Sample.twin_vars !! 1%nat = Some (Sample.profile_var "YY" [0%nat] [])
  ∧ unidentified Sample.no_lists Sample.twin_store (Sample.profile_var "XX" [0%nat] []) 0 0 4
  ∧ unidentified Sample.no_lists Sample.twin_store (Sample.profile_var "YY" [0%nat] []) 0 0 4
  ∧ v_axes <$> Sample.twin_outcome.1 = [[1%nat]; [0%nat]]
  ∧ axes_heap Sample.twin_outcome.2 = [_dim_type "level" 4; _dim_type "level" 4]
  ∧ warnings Sample.twin_outcome.2 = [unable_msg (Sample.profile_var "XX" [0%nat] [])].
Proof.
  split_and!; try by_computation.
  - split_and!; discriminate.
  - split_and!; [split; by_computation|by_computation|reflexivity|discriminate|decided..].
  - split_and!; [split; by_computation|by_computation|reflexivity|discriminate|decided..].
Qed.

Lemma thermodynamic_overrides_momentum_witness :
  ∃ v' k1,
    Sample.both_outcome.1 !! 0%nat = Some v'
    ∧ find_axis (axes_heap Sample.both_store)
        (drop_level_axes (axes_heap Sample.both_store) [0%nat]) "i" = Some (k1, 0%nat)
    ∧ (len_at (axes_heap Sample.both_store) 0 ≠ 1%nat → unshared Sample.both_vars 0 0 →
         v_axes v' !! k1 = Some 1%nat
         ∧ length (v_axes v') = length (drop_level_axes (axes_heap Sample.both_store) [0%nat])
         ∧ v_atts v' = <["kind" := att_int 5]> (v_atts (Sample.profile_var "TT" [0%nat] [])))
    ∧ (len_at (axes_heap Sample.both_store) 0 = 1%nat →
         S (length (v_axes v')) = length (drop_level_axes (axes_heap Sample.both_store) [0%nat])
         ∧ (∀ x, x ∈ v_axes v' → x ∈ [0%nat] ∨ None = Some x)
         ∧ v_atts v' = v_atts (Sample.profile_var "TT" [0%nat] [])).
Proof.
  apply (thermodynamic_overrides_momentum Sample.both_lists None None 2 1 Sample.both_vars
           Sample.both_store Sample.both_outcome.1 Sample.both_outcome.2 0
           (Sample.profile_var "TT" [0%nat] []) 0 0).
  - by_computation.
  - split_and!; [discriminate|intros m [= <-]; reflexivity..].
  - reflexivity.
  - split; by_computation.
  - decided.
  - decided.
  - decided.
  - by_computation.
  - reflexivity.
  - reflexivity.
Defined.

(** C10, as stated, fails in two ways.  At length one (with the bottom
    level taken as missing, vertical records of two levels give vertical
    axes of length one) the remapper removes the [i] dimension of a
    variable named in both lists and substitutes nothing.  And of two
    variables named in both lists that hold the same [i] dimension of three
    levels, the second is left as it was, without the thermodynamic axis and
    without kind 5, since the round of the first has renamed the shared
    object. *)
Lemma thermodynamic_axis_not_substituted :
  (let self := Sample.both_lists_trimmed in
   let s := Sample.trimmed_outcome.2 in
   let var := Sample.profile_var "TT" [0%nat] [] in
   (tm ← get_vertical self Sample.two_levels Sample.no_atts "SH  " (None, None);
    get_vertical self Sample.two_levels Sample.no_atts "SV  " tm)
      {| axes_heap := [_dim_type "i" 1]; coord_heap := []; warnings := [] |}
   = Some ((Some 1%nat, Some 2%nat), s)
   ∧ is_profile var
   ∧ v_name var ∈ _momentum_vars self ∧ v_name var ∈ _thermo_vars self
   ∧ extracted s None (Some 2%nat) (Some 1%nat)
   ∧ find_axis (axes_heap s) (v_axes var) "i" = Some (0%nat, 0%nat)
   ∧ len_at (axes_heap s) 2 = len_at (axes_heap s) 0
   ∧ len_at (axes_heap s) 1 = len_at (axes_heap s) 0
   ∧ remap_axes self None None (Some 2%nat) (Some 1%nat) [var] s
     = Some ([Sample.profile_var "TT" [] []], s))
  ∧ (let self := Sample.both_lists in
     let s := Sample.both_store in
     let var := Sample.profile_var "TT" [0%nat] [] in
     is_profile var
     ∧ v_name var ∈ _momentum_vars self ∧ v_name var ∈ _thermo_vars self
     ∧ extracted s None (Some 2%nat) (Some 1%nat)
     ∧ find_axis (axes_heap s) (v_axes var) "i" = Some (0%nat, 0%nat)
     ∧ len_at (axes_heap s) 2 = len_at (axes_heap s) 0
     ∧ len_at (axes_heap s) 1 = len_at (axes_heap s) 0
     ∧ remap_axes self None None (Some 2%nat) (Some 1%nat) [var; var] s
       = Some Sample.both_twin_outcome
     ∧ Sample.both_twin_outcome.1 !! 1%nat = Some var).
Proof.
  split; cbv zeta; split_and!;
    first [by_computation | decided
          | split_and!; [discriminate|intros m [= <-]; reflexivity..]].
Qed.

Lemma squash_forecast_axis_witness :
  let var := Sample.plain_var "AA" [0; 1]%nat [1%nat] in
  (len_at (axes_heap Sample.squash_store2) 0 ≠ 1%nat →
     Sample.squash_outcome2.1 !! 0%nat = Some var
     ∧ ∃ l1 l2, warnings Sample.squash_outcome2.2 = [] ++ l1 ++ squash_msg :: l2)
  ∧ (len_at (axes_heap Sample.squash_store2) 0 = 1%nat →
     ∃ time0 hours var' d times,
       axes_heap Sample.squash_store2 !! 0%nat ≫= axis_array = Some [time0]
       ∧ axes_heap Sample.squash_store2 !! 1%nat ≫= axis_values = Some hours
       ∧ Sample.squash_outcome2.1 !! 0%nat = Some var'
       ∧ S (length (v_axes var')) = length (v_axes var)
       ∧ delete 0%nat (v_axes var) !! after_pop 0 1 = Some 1%nat
       ∧ v_axes var' = <[after_pop 0 1 := d]> (delete 0%nat (v_axes var))
       ∧ axes_heap Sample.squash_outcome2.2 !! d = Some (_axis_type "time" time_atts times)
       ∧ times = datetime_add time0 <$> timedelta64_s hours
       ∧ (∀ xs, hours = ints xs → in64 time0 →
            Forall (λ h, in64 (h * 3600) ∧ in64 (time0 + h * 3600)) xs →
            times = (λ h, time0 + h * 3600) <$> xs)
       ∧ (∀ ft hs, hours = whole_hours ft hs → in64 time0 →
            Forall (λ h, -1000 ≤ h ≤ 1000 ∧ in64 (time0 + h * 3600)) hs →
            times = (λ h, time0 + h * 3600) <$> hs)
       ∧ (hours = ints [0; 6; 12] ∨ (∃ ft, hours = whole_hours ft [0; 6; 12]) →
          in64 time0 → in64 (time0 + 12 * 3600) →
          times = [time0; time0 + 6 * 3600; time0 + 12 * 3600])).
Proof.
  apply (squash_forecast_axis Sample.no_lists Sample.squash_vars2 Sample.squash_store2
           Sample.squash_outcome2.1 Sample.squash_outcome2.2 0
           (Sample.plain_var "AA" [0; 1]%nat [1%nat]) 0 0 1 1).
  - reflexivity.
  - by_computation.
  - reflexivity.
  - decided.
  - by_computation.
  - by_computation.
Defined.

Lemma squashed_objects_shared_witness :
  let pairs := squashed_pairs (axes_heap Sample.squash_store2) Sample.squash_vars2 in
  length (axes_heap Sample.squash_outcome2.2) = (length (axes_heap Sample.squash_store2) + size pairs)%nat
  ∧ length (coord_heap Sample.squash_outcome2.2)
    = (length (coord_heap Sample.squash_store2) + 2 * size pairs)%nat
  ∧ ∀ t f, (t, f) ∈ pairs →
      ∃ d lt rt time0 hours,
        axes_heap Sample.squash_store2 !! t ≫= axis_array = Some [time0]
        ∧ axes_heap Sample.squash_store2 !! f ≫= axis_values = Some hours
        ∧ (length (axes_heap Sample.squash_store2) ≤ d)%nat
        ∧ axes_heap Sample.squash_outcome2.2 !! d
          = Some (_axis_type "time" time_atts (datetime_add time0 <$> timedelta64_s hours))
        ∧ coord_heap Sample.squash_outcome2.2 !! lt
          = Some (_var_type "leadtime" leadtime_atts [d] (array_values hours))
        ∧ coord_heap Sample.squash_outcome2.2 !! rt
          = Some (_var_type "reftime" reftime_atts [] (scalar time0))
        ∧ ∀ p v kt kf t' f', Sample.squash_vars2 !! p = Some v →
            find_axis (axes_heap Sample.squash_store2) (v_axes v) "time" = Some (kt, t') →
            find_axis (axes_heap Sample.squash_store2) (v_axes v) "forecast" = Some (kf, f') →
            len_at (axes_heap Sample.squash_store2) t' = 1%nat →
            ∃ v', Sample.squash_outcome2.1 !! p = Some v'
              ∧ (v_axes v' !! after_pop kt kf = Some d ↔ (t', f') = (t, f))
              ∧ ((t', f') = (t, f) →
                 v_axes v' = <[after_pop kt kf := d]> (delete kt (v_axes v))
                 ∧ v_deps v' = v_deps v ++ [lt; rt]).
Proof.
  apply (squashed_objects_shared Sample.no_lists Sample.squash_vars2 Sample.squash_store2
           Sample.squash_outcome2.1 Sample.squash_outcome2.2).
  - reflexivity.
  - by_computation.
  - decided.
Defined.

(** The classifier on the sample table. *)
Lemma station_id_of_split_series_witness :
  ∃ c, Classifier.station_id (Classifier.Series_init Sample.fields) = Some c
    ∧ ("T " = "T " ∧ "+" = "+" →
       Classifier.read c 0 = Some (Classifier.int32 7, false))
    ∧ (¬ ("T " = "T " ∧ "+" = "+") →
       Classifier.read c 0 = Some (Classifier.int32 7, true)).
Proof.
  apply (station_id_of_split_series Sample.fields 0 "T " "+" 7); reflexivity.
Defined.

Lemma series_fields_reset_witness :
  Classifier.ig1 (Classifier.Series_init Sample.fields) !! 1%nat = Some 0
  ∧ Classifier.ip1 (Classifier.Series_init Sample.fields) !! 1%nat = Some 0.
Proof.
  destruct (series_fields_reset Sample.fields 1 "T " "Y" eq_refl eq_refl) as [Hseries _].
  destruct Hseries as (_ & _ & Hig1 & _ & _ & _ & Hip1); [auto|].
  split; [by apply (Hig1 42)|by apply (Hip1 0)].
Defined.

(** * Further properties of the classifier *)

Section classifier_again.
Import Classifier.

Lemma assign_where_idemp (sel : list bool) v (col : list Z) :
  assign_where sel v (assign_where sel v col) = assign_where sel v col.
Proof.
  unfold assign_where. revert col.
  induction sel as [|b sel IH]; intros [|x col]; simpl; [done..|].
  rewrite IH. by destruct b.
Qed.

Lemma orb_where_idemp (m sel : list bool) :
  zip_with orb (zip_with orb m sel) sel = zip_with orb m sel.
Proof.
  revert sel. induction m as [|b m IH]; intros [|x sel]; simpl; [done..|].
  rewrite IH. by destruct b, x.
Qed.

Lemma mask_where_idemp sel (c : column) :
  mask_where sel (mask_where sel c) = mask_where sel c.
Proof.
  unfold mask_where, set_mask, ma_asarray. simpl. by rewrite orb_where_idemp.
Qed.

(** X4. Classifying a record table that is already classified changes
    nothing. *)
Theorem Series_init_idempotent (fields : headers) :
  Series_init (Series_init fields) = Series_init fields.
Proof.
  unfold Series_init. simpl. f_equal; try apply assign_where_idemp.
  - destruct (leadtime fields); simpl; [|done]. by rewrite mask_where_idemp.
  - destruct (reftime fields); simpl; [|done]. by rewrite mask_where_idemp.
Qed.

(** X5. A record whose station_id entry is not masked is a series record:
    after the classifier its ig1, ig2, ig3, ig4 and ip1 read zero and its
    lead time and reference time are masked. *)
Theorem unmasked_station_is_series (fields : headers) i c z :
  station_id (Series_init fields) = Some c →
  read c i = Some (z, false) →
  is_series fields !! i = Some true
  ∧ (∀ x, ig1 fields !! i = Some x → ig1 (Series_init fields) !! i = Some 0)
  ∧ (∀ x, ig2 fields !! i = Some x → ig2 (Series_init fields) !! i = Some 0)
  ∧ (∀ x, ig3 fields !! i = Some x → ig3 (Series_init fields) !! i = Some 0)
  ∧ (∀ x, ig4 fields !! i = Some x → ig4 (Series_init fields) !! i = Some 0)
  ∧ (∀ x, ip1 fields !! i = Some x → ip1 (Series_init fields) !! i = Some 0)
  ∧ (∀ l x m, leadtime fields = Some l → read l i = Some (x, m) →
       ∃ l', leadtime (Series_init fields) = Some l' ∧ read l' i = Some (x, true))
  ∧ (∀ l x m, reftime fields = Some l → read l i = Some (x, m) →
       ∃ l', reftime (Series_init fields) = Some l' ∧ read l' i = Some (x, true)).
Proof.
  intros [= <-] Hread. unfold read in Hread. simpl in Hread.
  rewrite !list_lookup_fmap in Hread.
  destruct (ip3 fields !! i) as [z'|]; simpl in Hread; [|done].
  destruct (is_split_series fields !! i) as [b|] eqn:Hsplit; simpl in Hread; [|done].
  injection Hread as _ Hb. apply negb_false_iff in Hb as ->.
  unfold is_split_series in Hsplit. apply lookup_zip_with_Some in Hsplit
    as (bt & bg & Hand & Ht & Hg).
  symmetry in Hand. apply andb_true_iff in Hand as [-> ->].
  unfold eq_lit in Ht, Hg. rewrite list_lookup_fmap in Ht, Hg.
  destruct (typvar fields !! i) as [t|] eqn:Htyp; [|done].
  destruct (grtyp fields !! i) as [g|] eqn:Hgr; [|done].
  simpl in Ht, Hg. injection Ht as Ht%bool_decide_eq_true. injection Hg as Hg%bool_decide_eq_true.
  subst t g.
  assert (Hs : is_series fields !! i = Some true).
  { by rewrite (is_series_lookup _ _ _ _ Htyp Hgr). }
  split; [done|].
  assert (Hz : ∀ col : list Z, ∀ x, col !! i = Some x →
    assign_where (is_series fields) 0 col !! i = Some 0).
  { intros col x Hx. by rewrite (assign_where_lookup _ _ _ _ _ Hs), Hx. }
  assert (Hm : ∀ l x m, read l i = Some (x, m) →
    read (mask_where (is_series fields) l) i = Some (x, true)).
  { intros l x m Hr. rewrite (read_mask_where _ _ _ _ Hs), Hr. simpl. by rewrite orb_true_r. }
  split_and!; try (by apply Hz).
  - intros l x m Hl Hr. simpl. rewrite Hl. simpl. eauto.
  - intros l x m Hl Hr. simpl. rewrite Hl. simpl. eauto.
Qed.

End classifier_again.

(** * The option strings of [Series.__init__] *)

Import Outcomes.

Section options_properties.

Import Options.

Implicit Types (s w n : string) (c : ascii) (p : ascii → bool).

Lemma string_app_empty_r s : s +:+ "" = s.
Proof. induction s as [|c s IH]; [done|]. unfold String.app in *. simpl. by rewrite IH. Qed.

Lemma string_app_assoc s1 s2 s3 : (s1 +:+ s2) +:+ s3 = s1 +:+ s2 +:+ s3.
Proof. induction s1 as [|c s IH]; [done|]. unfold String.app in *. simpl. by rewrite IH. Qed.

Lemma string_app_cons c s s' : String c s +:+ s' = String c (s +:+ s').
Proof. done. Qed.

Lemma string_app_eq_empty s1 s2 : s1 +:+ s2 = "" ↔ s1 = "" ∧ s2 = "".
Proof. destruct s1; [|rewrite string_app_cons; naive_solver]. unfold String.app. simpl. naive_solver. Qed.

Lemma forall_chars_app p s1 s2 :
  forall_chars p (s1 +:+ s2) = forall_chars p s1 && forall_chars p s2.
Proof.
  induction s1 as [|c s IH]; [done|]. rewrite string_app_cons. simpl. by rewrite IH, andb_assoc.
Qed.

Lemma forall_chars_impl p q s :
  (∀ c, p c = true → q c = true) → forall_chars p s = true → forall_chars q s = true.
Proof.
  intros H. induction s as [|c s IH]; [done|]. simpl.
  rewrite !andb_true_iff. naive_solver.
Qed.

Lemma split_from_word w n s :
  forall_chars (λ c, negb (isspace c)) n = true →
  split_from w (n +:+ s) = split_from (w +:+ n) s.
Proof.
  revert w. induction n as [|c n IH]; intros w Hn.
  - by rewrite string_app_empty_r.
  - simpl in Hn. apply andb_true_iff in Hn as [Hc Hn].
    rewrite string_app_cons. simpl. apply negb_true_iff in Hc. rewrite Hc.
    rewrite IH by done. by rewrite string_app_assoc.
Qed.

Lemma split_from_space w c s :
  isspace c = true → split_from w (String c s) = emit w ++ split_from "" s.
Proof. intros H. simpl. by rewrite H. Qed.

Lemma forall_chars_and p q s :
  forall_chars p s = true → forall_chars q s = true →
  forall_chars (λ c, p c && q c) s = true.
Proof.
  induction s as [|c s IH]; [done|]. simpl. rewrite !andb_true_iff. naive_solver.
Qed.

Lemma split_from_end p w :
  forall_chars p w = true → forall_chars (λ c, negb (isspace c)) w = true → w ≠ "" →
  w ≠ "" ∧ forall_chars (λ c, p c && negb (isspace c)) w = true.
Proof. intros. split; [done|]. by apply forall_chars_and. Qed.

(** What [split] gives: words without whitespace, none of them empty. *)
Lemma split_from_words p w s n :
  forall_chars p w = true → forall_chars p s = true →
  forall_chars (λ c, negb (isspace c)) w = true →
  n ∈ split_from w s →
  n ≠ "" ∧ forall_chars (λ c, p c && negb (isspace c)) n = true.
Proof.
  revert w. induction s as [|c s IH]; intros w Hw Hs Hww Hn; simpl in *.
  - case_bool_decide; [by apply elem_of_nil in Hn|].
    apply list_elem_of_singleton in Hn as ->. by apply split_from_end.
  - apply andb_true_iff in Hs as [Hc Hs].
    destruct (isspace c) eqn:Hsp.
    + apply elem_of_app in Hn as [Hn|Hn].
      * unfold emit in Hn. case_bool_decide; [by apply elem_of_nil in Hn|].
        apply list_elem_of_singleton in Hn as ->. by apply split_from_end.
      * by apply (IH "").
    + apply (IH (w +:+ String c "")); [| done | | done].
      * by rewrite forall_chars_app; simpl; rewrite Hw, Hc.
      * by rewrite forall_chars_app; simpl; rewrite Hww, Hsp.
Qed.

Lemma replace_chars old new s :
  new ≠ old → forall_chars (λ c, negb (bool_decide (c = old))) (replace old new s) = true.
Proof.
  intros Hne. induction s as [|c s IH]; [done|]. simpl. rewrite IH, andb_true_r.
  apply negb_true_iff, bool_decide_eq_false. by case_bool_decide; subst.
Qed.

Lemma replace_app old new s1 s2 :
  replace old new (s1 +:+ s2) = replace old new s1 +:+ replace old new s2.
Proof. induction s1 as [|c s IH]; [done|]. rewrite string_app_cons. simpl. by rewrite IH. Qed.

Lemma replace_absent old new s :
  forall_chars (λ c, negb (bool_decide (c = old))) s = true → replace old new s = s.
Proof.
  induction s as [|c s IH]; [done|]. simpl. intros [Hc Hs]%andb_true_iff.
  apply negb_true_iff in Hc. by rewrite Hc, IH.
Qed.

Lemma is_sep_false c : negb (is_sep c) = true ↔ isspace c = false ∧ c ≠ ","%char.
Proof.
  unfold is_sep. rewrite negb_true_iff, orb_false_iff, bool_decide_eq_false. done.
Qed.

(** Parsing what [concat] wrote. *)
Lemma split_concat names :
  Forall (λ n, n ≠ "" ∧ forall_chars (λ c, negb (isspace c)) n = true) names →
  split (String.concat " " names) = names.
Proof.
  unfold split. induction names as [|n [|n' names] IH]; intros Hall.
  - done.
  - apply Forall_cons in Hall as [[Hn Hc] _]. simpl.
    rewrite <-(string_app_empty_r n) at 1. rewrite split_from_word by done. simpl.
    by rewrite bool_decide_false.
  - apply Forall_cons in Hall as [[Hn Hc] Hall].
    change (String.concat " " (n :: n' :: names))
      with (n +:+ String " " (String.concat " " (n' :: names))).
    rewrite split_from_word by done.
    rewrite split_from_space by done. rewrite IH by done.
    unfold emit. by rewrite bool_decide_false.
Qed.

Lemma replace_concat names :
  Forall (λ n, forall_chars (λ c, negb (bool_decide (c = ","%char))) n = true) names →
  replace "," " " (String.concat "," names) = String.concat " " names.
Proof.
  induction names as [|n [|n' names] IH]; intros Hall.
  - done.
  - apply Forall_cons in Hall as [Hn _]. simpl. by apply replace_absent.
  - apply Forall_cons in Hall as [Hn Hall].
    change (String.concat "," (n :: n' :: names))
      with (n +:+ String "," (String.concat "," (n' :: names))).
    change (String.concat " " (n :: n' :: names))
      with (n +:+ String " " (String.concat " " (n' :: names))).
    rewrite replace_app, replace_absent by done. f_equal.
    change (replace "," " " (String "," ?x)) with (String " " (replace "," " " x)).
    by rewrite IH.
Qed.

(** X1. Every name read from an option string is a plain name: it is not
    empty and holds neither a comma nor whitespace. *)
Theorem names_of_plain s n : n ∈ names_of (arg_str s) → plain_name n.
Proof.
  simpl. unfold split. intros Hn.
  apply (split_from_words (λ c, negb (bool_decide (c = ","%char)))) in Hn as [Hne Hc];
    [|done|by apply replace_chars|done].
  split; [done|]. eapply forall_chars_impl; [|done].
  intros c [Hcomma Hsp]%andb_true_iff. apply is_sep_false.
  apply negb_true_iff in Hcomma, Hsp. by apply bool_decide_eq_false in Hcomma.
Qed.

(** X2. Plain names joined by commas, as the command line documents
    (VAR1,VAR2,...), are read back as the same list, in order. *)
Theorem names_of_concat names :
  Forall plain_name names → names_of (arg_str (String.concat "," names)) = names.
Proof.
  intros Hall. simpl. rewrite replace_concat.
  - apply split_concat. eapply Forall_impl; [done|]. intros n [Hn Hc]. split; [done|].
    eapply forall_chars_impl; [|done]. intros c Hs. apply is_sep_false in Hs as [-> _]. done.
  - eapply Forall_impl; [done|]. intros n [_ Hc].
    eapply forall_chars_impl; [|done]. intros c Hs. apply is_sep_false in Hs as [_ Hs].
    by apply negb_true_iff, bool_decide_eq_false.
Qed.

Lemma split_from_nil w s :
  split_from w s = [] ↔ w = "" ∧ forall_chars isspace s = true.
Proof.
  revert w. induction s as [|c s IH]; intros w; simpl.
  - case_bool_decide; naive_solver.
  - destruct (isspace c) eqn:Hc; simpl.
    + rewrite app_nil, IH. case_bool_decide; naive_solver.
    + rewrite IH, string_app_eq_empty. naive_solver.
Qed.

Lemma replace_seps s :
  forall_chars isspace (replace "," " " s) = forall_chars is_sep s.
Proof.
  induction s as [|c s IH]; [done|]. simpl. rewrite IH. f_equal.
  unfold is_sep. case_bool_decide; [by rewrite orb_true_r|by rewrite orb_false_r].
Qed.

(** X3. An option string names no variable exactly when it is made of
    commas and whitespace only (the empty string included). *)
Theorem names_of_empty s :
  names_of (arg_str s) = [] ↔ forall_chars is_sep s = true.
Proof. simpl. unfold split. rewrite split_from_nil, replace_seps. naive_solver. Qed.

End options_properties.

(** * Further properties of [Series._makevars] *)

(** ** The choice of the vertical axis *)

Lemma try_levels_run names axis msg var level s :
  try_levels names axis msg var level s
  = match axis with
    | Some x =>
        if bool_decide (v_name var ∈ names) then
          if bool_decide (len_at (axes_heap s) level = len_at (axes_heap s) x)
          then Some (x, s) else Some (level, warned msg s)
        else Some (level, s)
    | None => Some (level, s)
    end.
Proof.
  unfold try_levels. destruct axis as [x|]; [|done].
  case_bool_decide; [|done].
  case_bool_decide as Hl.
  - apply wp_returns. wp_simpl. by rewrite bool_decide_true.
  - apply wp_returns. wp_simpl. by rewrite bool_decide_false.
Qed.

Lemma classic_fits names axis s var a :
  (∃ x, fits names axis s var a x) ∨ (∀ x, ¬ fits names axis s var a x).
Proof.
  unfold fits. destruct axis as [x|]; [|right; naive_solver].
  destruct (decide (v_name var ∈ names)); [|right; naive_solver].
  destruct (decide (len_at (axes_heap s) x = len_at (axes_heap s) a));
    [left; eauto|right; naive_solver].
Qed.

Lemma misfit_fits names axis msg s var a x :
  fits names axis s var a x → misfit names axis msg s var a = [].
Proof.
  intros (-> & Hin & Hlen). unfold misfit. rewrite bool_decide_false; [done|]. naive_solver.
Qed.

(** One attempt, from a level that is as long as [a], in a store [s1] with
    the lengths of [s]. *)
Lemma try_levels_fits names axis msg var level s s1 a x :
  (∀ b, len_at (axes_heap s1) b = len_at (axes_heap s) b) →
  len_at (axes_heap s) level = len_at (axes_heap s) a →
  fits names axis s var a x →
  try_levels names axis msg var level s1 = Some (x, s1).
Proof.
  intros Hs Hl (-> & Hin & Hlen). rewrite try_levels_run.
  rewrite bool_decide_true by done. rewrite !Hs.
  rewrite bool_decide_true by congruence. done.
Qed.

Lemma try_levels_misfit names axis msg var level s s1 a :
  (∀ b, len_at (axes_heap s1) b = len_at (axes_heap s) b) →
  len_at (axes_heap s) level = len_at (axes_heap s) a →
  (∀ x, ¬ fits names axis s var a x) →
  try_levels names axis msg var level s1
  = Some (level, {| axes_heap := axes_heap s1; coord_heap := coord_heap s1;
                    warnings := warnings s1 ++ misfit names axis msg s var a |}).
Proof.
  intros Hs Hl Hno. rewrite try_levels_run. unfold misfit, fits, warned in *.
  destruct axis as [x|]; [|by rewrite app_nil_r; destruct s1].
  rewrite !Hs. case_bool_decide as Hin.
  - case_bool_decide as Hlen.
    + destruct (Hno x). split_and!; [done..|congruence].
    + rewrite bool_decide_true; [done|]. split; [done|congruence].
  - rewrite bool_decide_false by naive_solver. by rewrite app_nil_r; destruct s1.
Qed.

Lemma warned_all_nil s : warned_all [] s = s.
Proof. unfold warned_all. rewrite app_nil_r. by destruct s. Qed.

Lemma try_levels_any names axis msg var level s s1 a :
  (∀ b, len_at (axes_heap s1) b = len_at (axes_heap s) b) →
  len_at (axes_heap s) level = len_at (axes_heap s) a →
  ∃ l, try_levels names axis msg var level s1
       = Some (l, warned_all (misfit names axis msg s var a) s1)
    ∧ (fits names axis s var a l ∨ (l = level ∧ ∀ x, ¬ fits names axis s var a x)).
Proof.
  intros Hs Hl. destruct (classic_fits names axis s var a) as [[x Hx]|Hno].
  - exists x. rewrite (misfit_fits _ _ _ _ _ _ _ Hx), warned_all_nil.
    split; [by eapply try_levels_fits|by left].
  - exists level. split; [by apply try_levels_misfit|by right].
Qed.

Lemma wp_value E {A} (m : M A) s x s' Q : m s = Some (x, s') → wp E m s Q = Q x s'.
Proof. intros H. unfold wp. by rewrite H. Qed.

Section remap_i_levels.
Context (self : Series) (mo th : option addr) (ds : list string)
  (known : gmap nat addr) (var : variable) (s : store) (k : nat) (a : addr).
Hypothesis Hfind : find_axis (axes_heap s) (v_axes var) "i" = Some (k, a).
Hypothesis Hds : list_find (λ d, d = "i") ds = Some (k, "i").
Hypothesis Hlen : len_at (axes_heap s) a ≠ 1%nat.

(** The two attempts together. *)
Lemma remap_i_attempts :
  ∃ l, (fits (_thermo_vars self) th s var a l
        ∨ (fits (_momentum_vars self) mo s var a l
           ∧ ∀ t, ¬ fits (_thermo_vars self) th s var a t)
        ∨ (l = a ∧ (∀ m, ¬ fits (_momentum_vars self) mo s var a m)
           ∧ ∀ t, ¬ fits (_thermo_vars self) th s var a t))
  ∧ ∀ E A (K : nat → M A) (Q : A → store → Prop),
    wp E (try_levels (_momentum_vars self) mo momentum_msg var a) (renamed a s)
      (λ level s1,
         wp E (try_levels (_thermo_vars self) th thermo_msg var level ≫= K) s1 Q)
    = wp E (K l) (renamed_warned a (misfits self mo th s var a) s) Q.
Proof.
  assert (Hs1 : ∀ b, len_at (axes_heap (renamed a s)) b = len_at (axes_heap s) b).
  { intros b. apply len_at_rename. }
  destruct (try_levels_any (_momentum_vars self) mo momentum_msg var a s (renamed a s) a
              Hs1 eq_refl) as (l1 & Hrun1 & Hl1).
  set (s2 := warned_all (misfit (_momentum_vars self) mo momentum_msg s var a) (renamed a s)) in *.
  assert (Hl1' : len_at (axes_heap s) l1 = len_at (axes_heap s) a).
  { destruct Hl1 as [(_ & _ & ?)|[-> _]]; done. }
  destruct (try_levels_any (_thermo_vars self) th thermo_msg var l1 s s2 a
              Hs1 Hl1') as (l2 & Hrun2 & Hl2).
  exists l2. split.
  - destruct Hl2 as [?|[-> Hno]]; [by left|]. right.
    destruct Hl1 as [?|[-> ?]]; [by left|by right].
  - intros E A K Q.
    rewrite (wp_value _ _ _ _ _ _ Hrun1).
    rewrite wp_bind, (wp_value _ _ _ _ _ _ Hrun2).
    f_equal. unfold renamed_warned, misfits, warned_all, s2, renamed. simpl.
    by rewrite app_assoc.
Qed.

Lemma fits_unique names axis x y :
  fits names axis s var a x → fits names axis s var a y → x = y.
Proof. intros (-> & _) ([= ->] & _). done. Qed.

Lemma remap_i_attached x :
  x ≠ a →
  (fits (_thermo_vars self) th s var a x
   ∨ (fits (_momentum_vars self) mo s var a x
      ∧ ∀ t, ¬ fits (_thermo_vars self) th s var a t)) →
  remap_i self mo th ds known var s
  = Some ((known, set_axes (<[k := x]> (v_axes var)) (set_att "kind" (att_int 5) var)),
          renamed_warned a (misfits self mo th s var a) s).
Proof.
  intros Hne Hfits.
  destruct (find_axis_Some _ _ _ _ _ Hfind) as (Hk & Hn & Hlt & Hg & Hi).
  destruct remap_i_attempts as (l & Hl & Hrun).
  assert (l = x) as ->.
  { destruct Hfits as [Ht|[Hm Hnt]], Hl as [Ht'|[[Hm' Hnt']|(-> & Hnm' & Hnt')]];
      try (by eapply fits_unique); exfalso; naive_solver. }
  apply wp_returns. unfold remap_i. wp_simpl. rewrite Hg. wp_simpl.
  rewrite bool_decide_false by done. wp_simpl.
  fold momentum_msg thermo_msg. fold (renamed a s).
  rewrite Hrun. wp_simpl. rewrite bool_decide_false by done. wp_simpl.
  rewrite Hds. wp_simpl. by rewrite bool_decide_true.
Qed.

Lemma remap_i_fallback :
  (∀ m, ¬ fits (_momentum_vars self) mo s var a m) →
  (∀ t, ¬ fits (_thermo_vars self) th s var a t) →
  let n := len_at (axes_heap s) a in
  let s1 := renamed_warned a (misfits self mo th s var a ++ [unable_msg var]) s in
  remap_i self mo th ds known var s
  = match known !! n with
    | Some d => Some ((known, set_axes (<[k := d]> (v_axes var)) var), s1)
    | None =>
        let d := length (axes_heap s) in
        Some ((<[n := d]> known, set_axes (<[k := d]> (v_axes var)) var),
              {| axes_heap := axes_heap s1 ++ [_dim_type "level" n];
                 coord_heap := coord_heap s1; warnings := warnings s1 |})
    end.
Proof.
  intros Hnm Hnt n s1.
  destruct (find_axis_Some _ _ _ _ _ Hfind) as (Hk & Hn & Hlt & Hg & Hi).
  destruct remap_i_attempts as (l & Hl & Hrun).
  assert (l = a) as ->.
  { destruct Hl as [Ht'|[[Hm' Hnt']|(-> & Hnm' & Hnt')]]; [exfalso; naive_solver..|done]. }
  destruct (known !! n) as [d|] eqn:Hd; simpl; apply wp_returns;
    subst n s1; unfold remap_i;
    wp_simpl; rewrite Hg; wp_simpl;
    rewrite bool_decide_false by done; wp_simpl;
    fold momentum_msg thermo_msg; fold (renamed a s);
    rewrite Hrun; wp_simpl; rewrite bool_decide_true by done; wp_simpl;
    rewrite len_at_rename.
  - rewrite bool_decide_false by (by rewrite Hd). wp_simpl. rewrite Hd. wp_simpl.
    rewrite Hds. wp_simpl. rewrite bool_decide_true by done. wp_simpl.
    split; [done|]. unfold renamed_warned, unable_msg. simpl. by rewrite app_assoc.
  - rewrite bool_decide_true by done. wp_simpl. rewrite lookup_insert_eq. wp_simpl.
    rewrite Hds. wp_simpl. rewrite bool_decide_true by done. wp_simpl.
    split; [by rewrite length_alter|].
    unfold renamed_warned, unable_msg. simpl. by rewrite app_assoc.
Qed.

End remap_i_levels.

Section vertical_axis.
Context (self : Series) (fa mo th : option addr) (known : gmap nat addr)
  (var : variable) (s : store) (k : nat) (a : addr).
Hypothesis Hprof : is_profile var.
Hypothesis Hex : extracted s fa mo th.
Hypothesis Hfind : find_axis (axes_heap s) (v_axes var) "i" = Some (k, a).
Hypothesis Hlen : len_at (axes_heap s) a ≠ 1%nat.

Lemma fits_other names axis x :
  (∀ y, axis = Some y → name_at (axes_heap s) y = "level") →
  fits names axis s var a x → x ≠ a.
Proof.
  intros Hname (Hx & _) ->. apply Hname in Hx.
  destruct (find_axis_Some _ _ _ _ _ Hfind) as (_ & Hn & _). by rewrite Hn in Hx.
Qed.

End vertical_axis.

(** X15. For a profile variable with an [i] axis of length other than one:
    when the thermodynamic axis is tried and fits, or the momentum axis is
    tried and fits and the thermodynamic one does not, that axis replaces
    the [i] axis, the variable gets kind 5, and the only warnings are those
    of an axis that was tried and has another length. *)
Theorem vertical_axis_attached self fa mo th known var s k a x :
  is_profile var → extracted s fa mo th →
  find_axis (axes_heap s) (v_axes var) "i" = Some (k, a) →
  len_at (axes_heap s) a ≠ 1%nat →
  (fits (_thermo_vars self) th s var a x
   ∨ (fits (_momentum_vars self) mo s var a x
      ∧ ∀ t, ¬ fits (_thermo_vars self) th s var a t)) →
  ∃ var',
    remap_profile self fa mo th known var s
    = Some ((known, var'), renamed_warned a (misfits self mo th s var a) s)
    ∧ v_axes var' !! k = Some x
    ∧ length (v_axes var') = length (v_axes var)
    ∧ v_atts var' = <["kind" := att_int 5]> (v_atts var)
    ∧ v_name var' = v_name var.
Proof.
  intros Hprof Hex Hfind Hlen Hfits.
  pose proof Hex as (Hfa & Hmo & Hth). pose proof Hprof as [Ht Hg].
  destruct (remap_j_keeps_i fa var s k a Hfa Hfind) as [Hi Hd].
  destruct (find_axis_Some _ _ _ _ _ Hfind) as (Hk & Hn & Hklt & _).
  assert (x ≠ a).
  { destruct Hfits as [H|[H _]].
    - by apply (fits_other var s k a Hfind _ _ _ Hth H).
    - by apply (fits_other var s k a Hfind _ _ _ Hmo H). }
  eexists. split.
  { rewrite remap_profile_unfold by done.
    by apply (remap_i_attached self mo th _ known (set_axes _ var) s k a Hi Hd Hlen x). }
  simpl. split_and!; [|by rewrite length_insert, remap_j_axes_length|done..].
  apply list_lookup_insert_eq. by rewrite remap_j_axes_length.
Qed.

(** X16. For a profile variable with an [i] axis of length other than one for
    which neither vertical axis fits, the [i] axis is replaced by the generic
    [level] dimension of that length, the attributes are unchanged, and the
    warnings are: wrong number of momentum levels (if that axis was tried),
    wrong number of thermodynamic levels (if that axis was tried), unable to
    find the vertical coordinates, in that order. *)
Theorem vertical_axis_fallback self fa mo th known var s k a :
  is_profile var → extracted s fa mo th → levels_ok known s →
  find_axis (axes_heap s) (v_axes var) "i" = Some (k, a) →
  len_at (axes_heap s) a ≠ 1%nat →
  (∀ m, ¬ fits (_momentum_vars self) mo s var a m) →
  (∀ t, ¬ fits (_thermo_vars self) th s var a t) →
  ∃ d known' var' s',
    remap_profile self fa mo th known var s = Some ((known', var'), s')
    ∧ v_axes var' !! k = Some d
    ∧ length (v_axes var') = length (v_axes var)
    ∧ axes_heap s' !! d = Some (_dim_type "level" (len_at (axes_heap s) a))
    ∧ known' !! len_at (axes_heap s) a = Some d
    ∧ v_atts var' = v_atts var
    ∧ v_name var' = v_name var
    ∧ warnings s' = warnings s ++ misfits self mo th s var a ++ [unable_msg var].
Proof.
  intros Hprof Hex Hok Hfind Hlen Hnm Hnt.
  pose proof Hex as (Hfa & Hmo & Hth). pose proof Hprof as [Ht Hg].
  destruct (remap_j_keeps_i fa var s k a Hfa Hfind) as [Hi Hd].
  destruct (find_axis_Some _ _ _ _ _ Hfind) as (Hk & Hn & Hklt & _).
  pose proof (remap_i_fallback self mo th _ known (set_axes _ var) s k a Hi Hd Hlen Hnm Hnt)
    as Hrun. simpl in Hrun.
  rewrite <-remap_profile_unfold with (self := self) (fa := fa) in Hrun by done.
  destruct (known !! len_at (axes_heap s) a) as [d|] eqn:Hkn.
  - eexists d, _, _, _. split; [exact Hrun|]. simpl. split_and!; try done.
    + apply list_lookup_insert_eq. by rewrite remap_j_axes_length.
    + by rewrite length_insert, remap_j_axes_length.
    + pose proof (Hok _ _ Hkn) as Hx. rewrite list_lookup_alter_ne; [done|].
      intros ->. by rewrite (name_at_Some _ _ _ Hx) in Hn.
  - eexists _, _, _, _. split; [exact Hrun|]. simpl. split_and!; try done.
    + apply list_lookup_insert_eq. by rewrite remap_j_axes_length.
    + by rewrite length_insert, remap_j_axes_length.
    + rewrite lookup_app_r; rewrite length_alter; [|done]. by rewrite Nat.sub_diag.
    + apply lookup_insert_eq.
Qed.

(** ** The three loops of the axis remapper *)

(** A computation that raises. *)
Lemma wp_raises {A} (m : M A) s : wp True m s (λ _ _, False) → m s = None.
Proof. unfold wp. by destruct (m s) as [[??]|]. Qed.

Lemma name_station_axis_skip station u var :
  att_is var "typvar" "T" && att_is var "grtyp" "Y" = false →
  name_station_axis station u var = mret (tt, var).
Proof. intros H. unfold name_station_axis. rewrite H. by destruct u. Qed.

Lemma drop_level_skip u var :
  att_is var "typvar" "T" && att_is var "grtyp" "+" = false →
  drop_level u var = mret (tt, var).
Proof. intros H. unfold drop_level. rewrite H. by destruct u. Qed.

Lemma drop_level_still u var s r s' : drop_level u var s = Some (r, s') → s' = s.
Proof. intros H. by apply drop_level_spec in H as [? _]. Qed.

(** The three rounds of one variable in the axis remapper. *)
Lemma remap_axes_rounds self station fa mo th vars s vars' s' p v :
  remap_axes self station fa mo th vars s = Some (vars', s') →
  vars !! p = Some v →
  ∃ v1 v2 v3 known sp known' sp',
    name_station_axis station tt v s = Some ((tt, v1), s)
    ∧ drop_level tt v1 s = Some ((tt, v2), s)
    ∧ remap_profile self fa mo th known v2 sp = Some ((known', v3), sp')
    ∧ evolves s sp
    ∧ vars' !! p = Some v3.
Proof.
  intros Hrun Hv.
  destruct (remap_axes_inv _ _ _ _ _ _ _ _ _ Hrun)
    as (u1 & vars1 & s1 & u2 & vars2 & s2 & known & H1 & H2 & H3).
  destruct (still_round _ _ _ _ _ _ _ p v (name_station_axis_still station) H1 Hv)
    as (-> & [] & [] & v1 & Hb1 & Hv1).
  destruct (still_round drop_level _ _ _ _ _ _ p v1 drop_level_still H2 Hv1)
    as (-> & [] & [] & v2 & Hb2 & Hv2).
  destruct (for_each_reaches _ _ _ _ _ _ _ p H3) as (kp & sp & Hp).
  destruct (for_each_round _ _ _ _ _ _ _ _ _ _ _ H3 Hp Hv2) as (kp' & v3 & sp' & Hb3 & Hv3).
  pose proof (reaches_level_rel self fa mo th vars2 s p kp sp Hp) as (Hev & _).
  by exists v1, v2, v3, kp, sp, kp', sp'.
Qed.

(** X11. A variable that is not of type 'T' with grid 'Y' or '+' comes out of
    the axis remapper as it went in. *)
Theorem other_variables_untouched self station fa mo th vars s vars' s' p v :
  remap_axes self station fa mo th vars s = Some (vars', s') →
  vars !! p = Some v →
  att_is v "typvar" "T" && (att_is v "grtyp" "Y" || att_is v "grtyp" "+") = false →
  vars' !! p = Some v.
Proof.
  intros Hrun Hv Hno.
  destruct (remap_axes_rounds _ _ _ _ _ _ _ _ _ _ _ Hrun Hv)
    as (v1 & v2 & v3 & known & sp & known' & sp' & H1 & H2 & H3 & _ & Hv3).
  assert (att_is v "typvar" "T" && att_is v "grtyp" "Y" = false
          ∧ att_is v "typvar" "T" && att_is v "grtyp" "+" = false) as [HY Hplus].
  { destruct (att_is v "typvar" "T"), (att_is v "grtyp" "Y"), (att_is v "grtyp" "+"); done. }
  rewrite name_station_axis_skip in H1 by done. injection H1 as <-.
  rewrite drop_level_skip in H2 by done. injection H2 as <-.
  rewrite remap_profile_skip in H3 by done. injection H3 as _ <- _. done.
Qed.

Lemma name_station_axis_run sa c a0 u var s :
  att_is var "typvar" "T" = true → att_is var "grtyp" "Y" = true →
  c_axes c !! 0%nat = Some a0 →
  name_station_axis (Some (sa, c)) u var s
  = Some ((tt, match find_axis (axes_heap s) (v_axes var) "i" with
               | Some (k, a) =>
                   if bool_decide (len_at (axes_heap s) a = len_at (axes_heap s) a0)
                   then set_axes (<[k := a0]> (v_axes var)) var else var
               | None => var
               end), s).
Proof.
  intros Ht Hg Ha0. apply wp_returns. unfold name_station_axis, station_shape0, station_axis.
  rewrite Ht, Hg. destruct (c_axes c) as [|a0' rest] eqn:Hc; [done|].
  injection Ha0 as ->. simpl. wp_simpl.
  destruct (find_axis (axes_heap s) (v_axes var) "i") as [[k a]|] eqn:Hf.
  - destruct (find_axis_Some _ _ _ _ _ Hf) as (Hk & Hn & Hlt & Hgax & Hi).
    rewrite Hgax. wp_simpl. rewrite Hc. wp_simpl.
    case_bool_decide; wp_simpl; [|done].
    rewrite Hi. wp_simpl. by rewrite bool_decide_true.
  - destruct (find_axis_None _ _ _ Hf) as [-> _]. by wp_simpl.
Qed.

(** X12. For a variable of type 'T' and grid 'Y', the axis remapper replaces
    the [i] axis by the first axis of the station coordinate when the two
    have the same length, and changes nothing else; with another length, or
    without an [i] axis, the variable is unchanged. *)
Theorem y_series_station_axis self sa c a0 fa mo th vars s vars' s' p v :
  remap_axes self (Some (sa, c)) fa mo th vars s = Some (vars', s') →
  vars !! p = Some v →
  att_is v "typvar" "T" = true → att_is v "grtyp" "Y" = true →
  c_axes c !! 0%nat = Some a0 →
  (∀ k a, find_axis (axes_heap s) (v_axes v) "i" = Some (k, a) →
     len_at (axes_heap s) a = len_at (axes_heap s) a0 →
     vars' !! p = Some (set_axes (<[k := a0]> (v_axes v)) v))
  ∧ (∀ k a, find_axis (axes_heap s) (v_axes v) "i" = Some (k, a) →
       len_at (axes_heap s) a ≠ len_at (axes_heap s) a0 → vars' !! p = Some v)
  ∧ (find_axis (axes_heap s) (v_axes v) "i" = None → vars' !! p = Some v).
Proof.
  intros Hrun Hv Ht Hg Ha0.
  destruct (remap_axes_rounds _ _ _ _ _ _ _ _ _ _ _ Hrun Hv)
    as (v1 & v2 & v3 & known & sp & known' & sp' & H1 & H2 & H3 & _ & Hv3).
  rewrite (name_station_axis_run _ _ a0) in H1 by done. injection H1 as <-.
  set (w := match find_axis (axes_heap s) (v_axes v) "i" with
            | Some (k, a) =>
                if bool_decide (len_at (axes_heap s) a = len_at (axes_heap s) a0)
                then set_axes (<[k := a0]> (v_axes v)) v else v
            | None => v
            end) in *.
  assert (Hatts : v_atts w = v_atts v).
  { unfold w. by repeat case_match. }
  assert (Hskip : att_is w "typvar" "T" && att_is w "grtyp" "+" = false).
  { unfold att_is in *. rewrite Hatts.
    apply andb_false_iff. right. apply bool_decide_eq_false.
    apply bool_decide_eq_true in Hg. by rewrite Hg. }
  rewrite drop_level_skip in H2 by done. injection H2 as <-.
  rewrite remap_profile_skip in H3 by done. injection H3 as _ <- _.
  rewrite Hv3. unfold w. split_and!.
  - intros k a -> Hl. by rewrite bool_decide_true.
  - intros k a -> Hl. by rewrite bool_decide_false.
  - by intros ->.
Qed.

Lemma drop_level_raises u var s k a :
  is_profile var →
  find_axis (axes_heap s) (v_axes var) "level" = Some (k, a) →
  v_record_id var !! k ≠ Some 1%nat →
  drop_level u var s = None.
Proof.
  intros [Ht Hg] Hf Hrid. apply wp_raises. unfold drop_level. rewrite Ht, Hg. simpl.
  destruct (find_axis_Some _ _ _ _ _ Hf) as (Hk & Hn & Hlt & Hgax & Hi).
  wp_simpl. rewrite bool_decide_true.
  2:{ apply list_elem_of_lookup. exists k. unfold dims_in.
      by rewrite list_lookup_fmap, Hk; simpl; rewrite Hn. }
  wp_simpl. rewrite Hi. wp_simpl. unfold squeeze_axis.
  destruct (v_record_id var !! k) as [[|[|n]]|]; try done; by wp_simpl.
Qed.

(** X13. If a profile variable has a [level] axis along which its table of
    records has not exactly one entry, the axis remapper raises. *)
Theorem level_extent_must_be_one self station fa mo th vars s p v k a :
  vars !! p = Some v → is_profile v →
  find_axis (axes_heap s) (v_axes v) "level" = Some (k, a) →
  v_record_id v !! k ≠ Some 1%nat →
  remap_axes self station fa mo th vars s = None.
Proof.
  intros Hv Hprof Hf Hrid.
  destruct (remap_axes self station fa mo th vars s) as [[vars' s']|] eqn:Hrun; [|done].
  destruct (remap_axes_rounds _ _ _ _ _ _ _ _ _ _ _ Hrun Hv)
    as (v1 & v2 & v3 & known & sp & known' & sp' & H1 & H2 & _).
  rewrite name_station_axis_profile in H1 by done. injection H1 as <-.
  by rewrite (drop_level_raises _ _ _ k a) in H2.
Qed.

(** ** The forecast axis of a profile *)

Lemma remap_i_none self mo th ds known var s :
  find_axis (axes_heap s) (v_axes var) "i" = None →
  remap_i self mo th ds known var s = Some ((known, var), s).
Proof.
  intros Hf. apply wp_returns. unfold remap_i. wp_simpl.
  destruct (find_axis_None _ _ _ Hf) as [-> _]. by wp_simpl.
Qed.

(** Whatever the vertical axes, a longer [i] axis is replaced in place. *)
Lemma remap_i_replaces self mo th ds known var s k a :
  find_axis (axes_heap s) (v_axes var) "i" = Some (k, a) →
  list_find (λ d, d = "i") ds = Some (k, "i") →
  len_at (axes_heap s) a ≠ 1%nat →
  (∀ m, mo = Some m → m ≠ a) → (∀ t, th = Some t → t ≠ a) →
  ∃ x known' var' s',
    remap_i self mo th ds known var s = Some ((known', var'), s')
    ∧ v_axes var' = <[k := x]> (v_axes var).
Proof.
  intros Hf Hds Hlen Hmo Hth.
  destruct (classic_fits (_thermo_vars self) th s var a) as [[t Ht]|Hnt].
  { eexists t, _, _, _. split; [|shelve].
    apply (remap_i_attached self mo th ds known var s k a Hf Hds Hlen t); [|by left].
    destruct Ht as [Ht _]. by apply Hth. }
  destruct (classic_fits (_momentum_vars self) mo s var a) as [[m Hm]|Hnm].
  { eexists m, _, _, _. split; [|shelve].
    apply (remap_i_attached self mo th ds known var s k a Hf Hds Hlen m); [|by right].
    destruct Hm as [Hm _]. by apply Hmo. }
  pose proof (remap_i_fallback self mo th ds known var s k a Hf Hds Hlen Hnm Hnt) as Hrun.
  simpl in Hrun. destruct (known !! len_at (axes_heap s) a) as [d|];
    eexists _, _, _, _; (split; [exact Hrun|done]).
  Unshelve. all: done.
Qed.

(** X14. For a profile variable whose [j] axis is as long as the forecast
    axis, the round of the third loop returns and puts the forecast axis
    where the [j] axis was (one position earlier when a degenerate [i] axis
    in front of it is removed). *)
Theorem forecast_axis_substituted self f mo th known var s kj j :
  is_profile var → extracted s (Some f) mo th →
  find_axis (axes_heap s) (v_axes var) "j" = Some (kj, j) →
  len_at (axes_heap s) j = len_at (axes_heap s) f →
  ∃ known' var' s',
    remap_profile self (Some f) mo th known var s = Some ((known', var'), s')
    ∧ v_axes var' !! forecast_slot (axes_heap s) (v_axes var) kj = Some f.
Proof.
  intros [Ht Hg] (Hfa & Hmo & Hth) Hj Hlen.
  destruct (find_axis_Some _ _ _ _ _ Hj) as (Hkj & Hnj & Hkjlt & _).
  rewrite remap_profile_unfold by done.
  assert (Haxs : remap_j_axes (axes_heap s) (Some f) (v_axes var) = <[kj := f]> (v_axes var)).
  { unfold remap_j_axes. rewrite Hj. by rewrite bool_decide_true. }
  rewrite Haxs. unfold forecast_slot.
  destruct (find_axis (axes_heap s) (v_axes var) "i") as [[k a]|] eqn:Hi.
  - destruct (remap_j_keeps_i (Some f) var s k a Hfa Hi) as [Hi' Hd]. rewrite Haxs in Hi'.
    destruct (find_axis_Some _ _ _ _ _ Hi) as (Hk & Hn & Hklt & _).
    assert (k ≠ kj) by (intros ->; congruence).
    destruct (decide (len_at (axes_heap s) a = 1%nat)) as [H1|H1].
    + rewrite (remap_i_degenerate self mo th _ known (set_axes _ var) s k a Hi' Hd H1).
      eexists _, _, _. split; [done|]. simpl.
      case_bool_decide as Hlt.
      * destruct Hlt as [_ Hlt]. destruct kj as [|kj]; [lia|]. simpl.
        rewrite list_lookup_delete_ge by lia. 
        apply list_lookup_insert_eq. lia.
      * assert (¬ (k < kj)%nat) by naive_solver.
        rewrite list_lookup_delete_lt by lia.
        by apply list_lookup_insert_eq.
    + rewrite bool_decide_false by naive_solver.
      destruct (remap_i_replaces self mo th _ known (set_axes (<[kj:=f]> (v_axes var)) var)
                  s k a Hi' Hd H1) as (x & known' & var' & s' & Hrun & Haxes).
      * intros m Hm ->. apply Hmo in Hm. congruence.
      * intros t Ht' ->. apply Hth in Ht'. congruence.
      * eexists _, _, _. split; [done|]. rewrite Haxes. simpl.
        rewrite list_lookup_insert_ne by done. by apply list_lookup_insert_eq.
  - rewrite remap_i_none.
    + eexists _, _, _. split; [done|]. simpl. by apply list_lookup_insert_eq.
    + simpl. rewrite <-Haxs. rewrite find_axis_remap_j; [done..|].
      intros ? [= <-]. by rewrite (Hfa f eq_refl).
Qed.

(** ** The station binder *)

Lemma foldl_alter_length (g : variable → variable) group (vars : list variable) :
  length (foldl (λ vs i, alter g i vs) vars group) = length vars.
Proof.
  revert vars. induction group as [|i group IH]; intros vars; simpl; [done|].
  by rewrite IH, length_alter.
Qed.

(** [for_group] with a body that leaves the store alone. *)
Lemma for_group_still (body : variable → M variable) (g : variable → variable)
    group vars s :
  NoDup group →
  Forall (λ i, ∃ v, vars !! i = Some v ∧ body v s = Some (g v, s)) group →
  for_group body group vars s
  = Some (foldl (λ vs i, alter g i vs) vars group, s).
Proof.
  revert vars. induction group as [|i group IH]; intros vars Hnd Hall; simpl; [done|].
  apply NoDup_cons in Hnd as [Hi Hnd].
  apply Forall_cons in Hall as [(v & Hv & Hb) Hall].
  unfold mbind, M_bind. rewrite Hv. simpl. rewrite Hb.
  replace (<[i := g v]> vars) with (alter g i vars).
  - apply IH; [done|]. apply Forall_forall. intros j Hj.
    rewrite Forall_forall in Hall. destruct (Hall j Hj) as (w & Hw & Hbw).
    exists w. split; [|done]. rewrite list_lookup_alter_ne; [done|]. by intros ->.
  - apply list_eq. intros j. destruct (decide (i = j)) as [->|].
    + rewrite list_lookup_alter_eq, Hv. simpl.
      by rewrite list_lookup_insert_eq by (by eapply lookup_lt_Some).
    + by rewrite list_lookup_alter_ne, list_lookup_insert_ne.
Qed.

(** X17. For a group of variables whose station_id axis is as long as the
    canonical station axis, the binder builds nothing: every variable of
    the group gets the canonical station axis in place of its station_id
    axis and the canonical station coordinate at the end of its
    dependencies; the other variables are unchanged. *)
Theorem station_canonical_coordinate sa c a0 vars s station_id group :
  c_axes c !! 0%nat = Some a0 →
  len_at (axes_heap s) station_id = len_at (axes_heap s) a0 →
  Forall (λ i, ∃ v, vars !! i = Some v
               ∧ "station_id" ∈ dims_in (axes_heap s) (v_axes v)) group →
  NoDup group →
  ∃ vars',
    attach_station (sa, c) vars (station_id, group) s = Some (vars', s)
    ∧ length vars' = length vars
    ∧ (∀ i v, vars !! i = Some v → i ∉ group → vars' !! i = Some v)
    ∧ (∀ i v, vars !! i = Some v → i ∈ group →
         ∃ k a v', find_axis (axes_heap s) (v_axes v) "station_id" = Some (k, a)
           ∧ vars' !! i = Some v'
           ∧ v_axes v' = <[k := a0]> (v_axes v)
           ∧ v_deps v' = v_deps v ++ [sa]
           ∧ v_name v' = v_name v ∧ v_atts v' = v_atts v
           ∧ v_record_id v' = v_record_id v).
Proof.
  intros Ha0 Hlen Hall Hnd.
  set (g1 := on_station_axis (axes_heap s) a0).
  set (g2 := λ var, set_deps (v_deps var ++ [sa]) var).
  set (vars1 := foldl (λ vs i, alter g1 i vs) vars group).
  assert (Hfind : ∀ v, "station_id" ∈ dims_in (axes_heap s) (v_axes v) →
    ∃ k a, find_axis (axes_heap s) (v_axes v) "station_id" = Some (k, a)).
  { intros v Hin. destruct (find_axis (axes_heap s) (v_axes v) "station_id") as [[k a]|] eqn:Hf;
      [eauto|]. by apply find_axis_None in Hf as [_ ?]. }
  exists (foldl (λ vs i, alter g2 i vs) vars1 group). split_and!.
  - apply wp_returns. unfold attach_station, station_shape0, station_axis.
    destruct (c_axes c) as [|a0' rest] eqn:Hc; [done|]. injection Ha0 as ->.
    simpl. wp_simpl. rewrite Hc. wp_simpl.
    rewrite bool_decide_true by done. wp_simpl.
    unfold wp. rewrite (for_group_still _ g1); [|done|].
    + simpl. wp_simpl. unfold wp. rewrite (for_group_update g2); [done|].
      apply Forall_forall. intros i Hi. apply lookup_lt_is_Some.
      unfold vars1. rewrite foldl_alter_length.
      rewrite Forall_forall in Hall. destruct (Hall i Hi) as (v & Hv & _).
      by eapply lookup_lt_Some.
    + eapply Forall_impl; [done|]. intros i (v & Hv & Hin). exists v. split; [done|].
      destruct (Hfind v Hin) as (k & a & Hf).
      destruct (find_axis_Some _ _ _ _ _ Hf) as (Hk & Hn & Hlt & Hgax & Hi).
      apply wp_returns. wp_simpl. rewrite Hi. wp_simpl.
      rewrite bool_decide_true by done. wp_simpl.
      unfold g1, on_station_axis. by rewrite Hf.
  - unfold vars1. by rewrite !foldl_alter_length.
  - intros i v Hv Hi. unfold vars1.
    rewrite !foldl_alter_lookup by done. by rewrite !bool_decide_false.
  - intros i v Hv Hi. rewrite Forall_forall in Hall.
    destruct (Hall i Hi) as (v0 & Hv0 & Hin). simplify_eq.
    destruct (Hfind v Hin) as (k & a & Hf). exists k, a, (g2 (g1 v)).
    split; [done|]. split.
    { unfold vars1. rewrite !foldl_alter_lookup by done.
      rewrite !bool_decide_true by done. by rewrite Hv. }
    unfold g2, g1, on_station_axis. rewrite Hf. done.
Qed.

(** Rows picked by [take_rows], negative indices included. *)
Lemma take_rows_wrap rows (ids : list Z) :
  let n := Z.of_nat (length rows) in
  Forall (λ id, 1 - n ≤ id ≤ n) ids →
  ∃ array, take_rows rows ((λ x, x - 1) <$> ids) = Some array
    ∧ Forall2 (λ id row, rows !! Z.to_nat ((id - 1) `mod` n) = Some row) ids array.
Proof.
  intros n Hall. unfold take_rows. fold n.
  set (pick := λ i : Z, _).
  assert (∃ array, Forall2 (λ id row,
            pick (id - 1) = Some row
            ∧ rows !! Z.to_nat ((id - 1) `mod` n) = Some row) ids array)
    as [array Harr].
  { induction Hall as [|id ids Hid _ [array IH]]; [by exists []|].
    destruct (lookup_lt_is_Some_2 rows (Z.to_nat ((id - 1) `mod` n))) as [row Hrow].
    { pose proof (Z.mod_pos_bound (id - 1) n). lia. }
    exists (row :: array). constructor; [|done]. split; [|done].
    unfold pick. case_bool_decide as H1.
    - by rewrite Z.mod_small in Hrow by lia.
    - rewrite bool_decide_true by lia.
      rewrite <-Hrow. f_equal. f_equal.
      rewrite <-(Z.mod_add _ 1) by lia. rewrite Z.mod_small; lia. }
  exists array. split.
  - apply mapM_Some_2, Forall2_fmap_l. eapply Forall2_impl; [done|]. by intros ?? [? _].
  - eapply Forall2_impl; [done|]. by intros ?? [_ ?].
Qed.

Lemma take_rows_out_of_range rows (ids : list Z) id :
  let n := Z.of_nat (length rows) in
  id ∈ ids → (id ≤ - n ∨ n < id) →
  take_rows rows ((λ x, x - 1) <$> ids) = None.
Proof.
  intros n Hin Hout. unfold take_rows. fold n.
  apply eq_None_not_Some. rewrite mapM_is_Some, Forall_fmap, Forall_forall.
  intros Hall. specialize (Hall id Hin). simpl in Hall.
  rewrite !bool_decide_false in Hall by lia. by destruct Hall.
Qed.

(** The subset branch of [attach_station], once the rows are picked. *)
Lemma attach_station_subset sa a0 a1 rows vars s station_id group ids :
  let station := (sa, _var_type "station" [] [a0; a1] (chars rows)) in
  axes_heap s !! station_id ≫= axis_array = Some ids →
  len_at (axes_heap s) station_id ≠ len_at (axes_heap s) a0 →
  attach_station station vars (station_id, group) s
  = match take_rows rows ((λ x, x - 1) <$> ids) with
    | Some array =>
        for_group (λ var, mret (set_deps (v_deps var ++ [length (coord_heap s)]) var))
          group vars
          {| axes_heap := axes_heap s ++ [_axis_type "station_id" [] ids];
             coord_heap := coord_heap s
               ++ [_var_type "station" [] [length (axes_heap s); a1] (chars array)];
             warnings := warnings s |}
    | None => None
    end.
Proof.
  intros station Hids Hlen.
  destruct (take_rows rows ((λ x, x - 1) <$> ids)) as [array|] eqn:Htake.
  - match goal with |- _ = ?m => destruct m as [[r sr]|] eqn:Hrun end.
    + apply wp_returns. unfold attach_station, station_shape0, station_axis. simpl.
      wp_simpl. rewrite bool_decide_false by done. wp_simpl.
      rewrite Hids. wp_simpl. rewrite Htake. wp_simpl.
      unfold wp. by rewrite Hrun.
    + apply wp_raises. unfold attach_station, station_shape0, station_axis. simpl.
      wp_simpl. rewrite bool_decide_false by done. wp_simpl.
      rewrite Hids. wp_simpl. rewrite Htake. wp_simpl.
      unfold wp. by rewrite Hrun.
  - apply wp_raises. unfold attach_station, station_shape0, station_axis. simpl.
    wp_simpl. rewrite bool_decide_false by done. wp_simpl.
    rewrite Hids. wp_simpl. rewrite Htake. by wp_simpl.
Qed.

(** X18. In the subset branch, a station identifier above the number of
    stations, or at or below its negative, makes the binder raise. *)
Theorem station_id_out_of_range sa a0 a1 rows vars s station_id group ids id :
  let station := (sa, _var_type "station" [] [a0; a1] (chars rows)) in
  axes_heap s !! station_id ≫= axis_array = Some ids →
  len_at (axes_heap s) station_id ≠ len_at (axes_heap s) a0 →
  id ∈ ids →
  (id ≤ - Z.of_nat (length rows) ∨ Z.of_nat (length rows) < id) →
  attach_station station vars (station_id, group) s = None.
Proof.
  intros station Hids Hlen Hin Hout. unfold station.
  rewrite (attach_station_subset _ _ _ _ _ _ _ _ ids) by done.
  by rewrite (take_rows_out_of_range rows ids id).
Qed.

(** X19. In the subset branch, identifiers from 1 - n to n (n stations) are
    accepted, and those from 0 downwards count from the end: identifier id
    selects the row (id - 1) mod n, so identifier 0 selects the last
    station. *)
Theorem station_id_wraps_around sa a0 a1 rows vars s station_id group ids :
  let station := (sa, _var_type "station" [] [a0; a1] (chars rows)) in
  let n := Z.of_nat (length rows) in
  axes_heap s !! station_id ≫= axis_array = Some ids →
  len_at (axes_heap s) station_id ≠ len_at (axes_heap s) a0 →
  Forall (λ id, 1 - n ≤ id ≤ n) ids →
  Forall (λ i, is_Some (vars !! i)) group →
  ∃ vars' s' array,
    attach_station station vars (station_id, group) s = Some (vars', s')
    ∧ coord_heap s'
      = coord_heap s ++ [_var_type "station" [] [length (axes_heap s); a1] (chars array)]
    ∧ Forall2 (λ id row, rows !! Z.to_nat ((id - 1) `mod` n) = Some row) ids array
    ∧ (∀ row, ids = [0] → last rows = Some row → array = [row]).
Proof.
  intros station n Hids Hlen Hrange Hgroup. unfold station.
  destruct (take_rows_wrap rows ids Hrange) as (array & Htake & Hrows).
  rewrite (attach_station_subset _ _ _ _ _ _ _ _ ids) by done. rewrite Htake.
  rewrite for_group_update by done.
  eexists _, _, array. split_and!; [done..|].
  intros row -> Hlast.
  apply Forall2_cons_inv_l in Hrows as (r & ? & Hr & Hrows & ->).
  apply Forall2_nil_inv_l in Hrows as ->. f_equal.
  rewrite last_lookup in Hlast. fold n in Hr.
  assert (0 < n).
  { destruct rows; [done|]. unfold n. simpl. lia. }
  replace ((0 - 1) `mod` n) with (n - 1) in Hr.
  - replace (Z.to_nat (n - 1)) with (pred (length rows)) in Hr by lia. congruence.
  - symmetry. rewrite <-(Z.mod_add _ 1) by lia. rewrite Z.mod_small; lia.
Qed.

(** ** The vertical records *)

(** X9. A vertical record that is one-dimensional once its axes of length one
    are removed gives an axis named [level] with the attributes of the
    record: the thermodynamic axis for 'SH', the momentum axis for 'SV'.  It
    holds the values of the record, without the last one when the bottom
    level is taken as missing. *)
Theorem vertical_axis_extracted self _fstlir _get_header_atts vertvar header tm s n :
  vertvar = "SH  " ∨ vertvar = "SV  " →
  _fstlir vertvar = Some header →
  squeeze (h_shape header) = [n] →
  let vals := if _missing_bottom_profile_level self
              then take (n - 1) (h_d header) else h_d header in
  let a := length (axes_heap s) in
  get_vertical self _fstlir _get_header_atts vertvar tm s
  = Some (if bool_decide (vertvar = "SH  ") then (Some a, tm.2) else (tm.1, Some a),
          {| axes_heap := axes_heap s ++ [_axis_type "level" (_get_header_atts header) vals];
             coord_heap := coord_heap s; warnings := warnings s |})
  ∧ (length (h_d header) = n →
     length vals = if _missing_bottom_profile_level self then (n - 1)%nat else n).
Proof.
  intros Hv Hh Hsq vals a. split.
  - apply wp_returns. unfold get_vertical. rewrite Hh, Hsq.
    subst vals. destruct (_missing_bottom_profile_level self); simpl; wp_simpl;
      destruct Hv as [-> | ->]; simpl; wp_simpl; unfold drop_last; simpl; wp_simpl;
      rewrite ?Nat.mul_1_r; done.
  - intros Hlen. subst vals. destruct (_missing_bottom_profile_level self); [|done].
    rewrite length_take. lia.
Qed.

(** X10. A vertical record that is not one-dimensional after the removal of
    its axes of length one is ignored: no axis, no warning, no error.  The
    exception is a record with a single value when the bottom level is
    taken as missing: dropping the last entry of a 0-d array raises. *)
Theorem vertical_record_not_1d self _fstlir _get_header_atts vertvar header tm s :
  _fstlir vertvar = Some header →
  length (squeeze (h_shape header)) ≠ 1%nat →
  get_vertical self _fstlir _get_header_atts vertvar tm s
  = if _missing_bottom_profile_level self && bool_decide (squeeze (h_shape header) = [])
    then None else Some (tm, s).
Proof.
  intros Hh Hsq. unfold get_vertical. rewrite Hh.
  destruct (_missing_bottom_profile_level self); simpl.
  - destruct (squeeze (h_shape header)) as [|n [|n' rest]] eqn:Hs; simpl in *; try done.
  - unfold mbind at 1, M_bind at 1. simpl. by rewrite bool_decide_true.
Qed.

(** ** What is left of a variable *)

Lemma var_step_refl v : var_step v v.
Proof. split_and!; auto. Qed.

Lemma var_step_trans v1 v2 v3 : var_step v1 v2 → var_step v2 v3 → var_step v1 v3.
Proof.
  intros (Hn & Ha & Hd & Hl) (Hn' & Ha' & Hd' & Hl'). split_and!.
  - congruence.
  - destruct Ha as [Ha|Ha], Ha' as [Ha'|Ha']; rewrite Ha', Ha; auto.
    right. apply insert_insert_eq.
  - by etrans.
  - lia.
Qed.

Lemma var_step_set_axes v0 v axs :
  var_step v0 v → (length axs ≤ length (v_axes v))%nat → var_step v0 (set_axes axs v).
Proof. intros (? & ? & ? & ?) ?. split_and!; simpl; [done..|lia]. Qed.

Lemma var_step_set_record_id v0 v sh : var_step v0 v → var_step v0 (set_record_id sh v).
Proof. by intros (? & ? & ? & ?). Qed.

Lemma var_step_set_deps v0 v ds : var_step v0 v → var_step v0 (set_deps (v_deps v ++ ds) v).
Proof.
  intros (? & ? & ? & ?). split_and!; simpl; [done..| |done].
  etrans; [done|]. by apply prefix_app_r.
Qed.

Lemma var_step_set_kind v0 v :
  var_step v0 v → var_step v0 (set_att "kind" (att_int 5) v).
Proof.
  intros (? & Ha & ? & ?). split_and!; simpl; [done| |done..].
  right. destruct Ha as [->| ->]; [done|]. apply insert_insert_eq.
Qed.

Section yields.
Context {A B : Type}.

Lemma yields_ret (Q : A → Prop) x : Q x → yields Q (mret x).
Proof. by intros H s y s' [= <- <-]. Qed.

Lemma yields_raise (Q : A → Prop) : yields Q raise.
Proof. by intros s y s'. Qed.

Lemma yields_bind (P : A → Prop) (Q : B → Prop) (m : M A) (k : A → M B) :
  yields P m → (∀ x, P x → yields Q (k x)) → yields Q (m ≫= k).
Proof.
  intros Hm Hk s y s' H. unfold mbind, M_bind in H.
  destruct (m s) as [[x s1]|] eqn:Hms; [|done].
  eapply Hk; [by eapply Hm|done].
Qed.

Lemma yields_any (Q : B → Prop) (m : M A) (k : A → M B) :
  (∀ x, yields Q (k x)) → yields Q (m ≫= k).
Proof. intros Hk. apply (yields_bind (λ _, True)); [done|auto]. Qed.

Lemma yields_run (Q : A → Prop) (m : M A) s x s' : yields Q m → m s = Some (x, s') → Q x.
Proof. intros H. apply H. Qed.

End yields.

Lemma yields_setitem v0 k a v : var_step v0 v → yields (var_step v0) (setitem k a v).
Proof.
  intros Hv. unfold setitem. case_bool_decide; [|apply yields_raise].
  apply yields_ret, var_step_set_axes; [done|]. by rewrite length_insert.
Qed.

Lemma yields_pop v0 k v : var_step v0 v → yields (var_step v0) (pop k v).
Proof.
  intros Hv. unfold pop. case_bool_decide; [|apply yields_raise].
  apply yields_ret, var_step_set_axes; [done|]. rewrite length_delete; [lia|].
  by apply lookup_lt_is_Some.
Qed.

Lemma yields_squeeze_axis v0 k v : var_step v0 v → yields (var_step v0) (squeeze_axis k v).
Proof.
  intros Hv. unfold squeeze_axis. destruct (v_record_id v !! k) as [[|[|?]]|];
    try apply yields_raise. by apply yields_ret, var_step_set_record_id.
Qed.

(** Follows a variable along the structure of the program. *)
Ltac yields_step :=
  match goal with
  | |- yields _ (mret _) => apply yields_ret
  | |- yields _ raise => apply yields_raise
  | |- yields _ (setitem _ _ _ ≫= _) =>
      eapply yields_bind; [apply yields_setitem; eassumption|intros ? ?]
  | |- yields _ (pop _ _ ≫= _) =>
      eapply yields_bind; [apply yields_pop; eassumption|intros ? ?]
  | |- yields _ (squeeze_axis _ _ ≫= _) =>
      eapply yields_bind; [apply yields_squeeze_axis; eassumption|intros ? ?]
  | |- yields _ (setitem _ _ _) => apply yields_setitem; eassumption
  | |- yields _ (pop _ _) => apply yields_pop; eassumption
  | |- yields _ (_ ≫= _) => apply yields_any; intros ?
  | |- yields _ (if ?b then _ else _) => destruct b
  | |- yields _ (match ?x with _ => _ end) => destruct x
  | |- yields _ (let '(_, _) := ?x in _) => destruct x
  end.

Ltac yields_auto := repeat yields_step; simpl; eauto using var_step_set_kind, var_step_set_deps.

Lemma yields_name_station_axis station u v0 v :
  var_step v0 v → yields (λ r, var_step v0 r.2) (name_station_axis station u v).
Proof. intros Hv. unfold name_station_axis. yields_auto. Qed.

Lemma yields_drop_level u v0 v :
  var_step v0 v → yields (λ r, var_step v0 r.2) (drop_level u v).
Proof. intros Hv. unfold drop_level. yields_auto. Qed.

Lemma yields_remap_j fa ds v0 v : var_step v0 v → yields (var_step v0) (remap_j fa ds v).
Proof. intros Hv. unfold remap_j. yields_auto. Qed.

Lemma yields_remap_i self mo th ds known v0 v :
  var_step v0 v → yields (λ r, var_step v0 r.2) (remap_i self mo th ds known v).
Proof.
  intros Hv. unfold remap_i. apply yields_any. intros [a|]; [|yields_auto].
  apply yields_any. intros n. destruct (bool_decide (n = 1%nat)); [yields_auto|].
  do 3 (apply yields_any; intros ?).
  apply (yields_bind (λ r, var_step v0 r.2)); [yields_auto|].
  intros [[? ?] ?] ?. yields_auto.
Qed.

Lemma yields_remap_profile self fa mo th known v :
  yields (λ r, var_step v r.2) (remap_profile self fa mo th known v).
Proof.
  unfold remap_profile. pose proof (var_step_refl v).
  destruct (negb _); [yields_auto|]. destruct (negb _); [yields_auto|].
  apply yields_any. intros ds.
  eapply yields_bind; [by apply yields_remap_j|]. intros v1 Hv1.
  by apply yields_remap_i.
Qed.

Lemma yields_squash_forecast known v :
  yields (λ r, var_step v r.2) (squash_forecast known v).
Proof.
  unfold squash_forecast. pose proof (var_step_refl v). yields_auto.
Qed.

Lemma yields_for_each {C} (body : C → variable → M (C * variable)) c vs :
  (∀ c v, yields (λ r, var_step v r.2) (body c v)) →
  yields (λ r, Forall2 var_step vs r.2) (for_each body c vs).
Proof.
  intros Hb. revert c. induction vs as [|v vs IH]; intros c; simpl.
  - by apply yields_ret.
  - eapply yields_bind; [apply Hb|]. intros [c1 v'] Hv'. simpl in Hv'.
    eapply yields_bind; [apply IH|]. intros [c2 vs'] Hvs'. simpl in Hvs'.
    apply yields_ret. by constructor.
Qed.

Lemma Forall2_var_step_refl vs : Forall2 var_step vs vs.
Proof. apply Forall_Forall2_diag, Forall_forall. intros. apply var_step_refl. Qed.

Lemma Forall2_var_step_trans vs1 vs2 vs3 :
  Forall2 var_step vs1 vs2 → Forall2 var_step vs2 vs3 → Forall2 var_step vs1 vs3.
Proof.
  intros H. revert vs3. induction H; intros vs3 H'.
  - by apply Forall2_nil_inv_l in H' as ->.
  - apply Forall2_cons_inv_l in H' as (z & zs & ? & ? & ->).
    constructor; [by eapply var_step_trans|auto].
Qed.

Lemma Forall2_var_step_insert vs0 vs i v v' :
  Forall2 var_step vs0 vs → vs !! i = Some v → var_step v v' →
  Forall2 var_step vs0 (<[i := v']> vs).
Proof.
  intros Hall Hv Hstep. apply Forall2_same_length_lookup. split.
  - rewrite length_insert. by eapply Forall2_length.
  - intros j x y Hx Hy. destruct (decide (i = j)) as [->|].
    + rewrite list_lookup_insert_eq in Hy by (by eapply lookup_lt_Some).
      injection Hy as <-. eapply var_step_trans; [|done].
      by eapply Forall2_lookup_lr.
    + rewrite list_lookup_insert_ne in Hy by done. by eapply Forall2_lookup_lr.
Qed.

Lemma yields_for_group body group vars0 vars :
  (∀ v, yields (var_step v) (body v)) →
  Forall2 var_step vars0 vars →
  yields (Forall2 var_step vars0) (for_group body group vars).
Proof.
  intros Hb. revert vars. induction group as [|i group IH]; intros vars Hall; simpl.
  - by apply yields_ret.
  - destruct (vars !! i) as [v|] eqn:Hv; simpl.
    + apply (yields_bind (λ x, x = v)); [by intros ??? [= <- _]|]. intros ? ->.
      eapply yields_bind; [apply Hb|]. intros v' Hv'.
      apply IH. by eapply Forall2_var_step_insert.
    + intros s x s' H. by unfold mbind, M_bind in H.
Qed.

Lemma yields_attach_station station vars0 vars g :
  Forall2 var_step vars0 vars →
  yields (Forall2 var_step vars0) (attach_station station vars g).
Proof.
  intros Hall. unfold attach_station. destruct g as [station_id varlist].
  do 2 (apply yields_any; intros ?).
  apply (yields_bind (λ r, Forall2 var_step vars0 r.1)).
  - destruct (bool_decide _).
    + apply yields_any. intros a0.
      eapply yields_bind; [|intros vars1 Hvars1; by apply yields_ret].
      apply yields_for_group; [|done]. intros v. pose proof (var_step_refl v). yields_auto.
    + do 6 (apply yields_any; intros ?). by apply yields_ret.
  - intros [vars1 station_coord] Hvars1. simpl in Hvars1.
    apply yields_for_group; [|done]. intros v. apply yields_ret.
    apply var_step_set_deps, var_step_refl.
Qed.

Lemma yields_attach_stations station groups vars0 vars :
  Forall2 var_step vars0 vars →
  yields (Forall2 var_step vars0) (attach_stations station groups vars).
Proof.
  revert vars. induction groups as [|g groups IH]; intros vars Hall; simpl.
  - by apply yields_ret.
  - eapply yields_bind; [by apply yields_attach_station|]. intros vars1 Hvars1. by apply IH.
Qed.

Section variables_kept.
Context (self : Series) (_fstlir : string → option header)
  (stamp2datetime_scalar : Z → datetime)
  (_get_header_atts : header → list (string * att))
  (_iter_axes : string → list axis → list variable → list (addr * list nat)).

Lemma yields_remap_axes station fa mo th vars :
  yields (Forall2 var_step vars) (remap_axes self station fa mo th vars).
Proof.
  unfold remap_axes.
  eapply yields_bind.
  { apply yields_for_each. intros c v. apply yields_name_station_axis, var_step_refl. }
  intros [u1 vars1] H1. simpl in H1.
  eapply yields_bind.
  { apply yields_for_each. intros c v. apply yields_drop_level, var_step_refl. }
  intros [u2 vars2] H2. simpl in H2.
  eapply yields_bind.
  { apply yields_for_each. intros c v. apply yields_remap_profile. }
  intros [known vars3] H3. simpl in H3. apply yields_ret.
  eauto using Forall2_var_step_trans.
Qed.

Lemma yields_squash_forecasts vars :
  yields (Forall2 var_step vars) (squash_forecasts self vars).
Proof.
  unfold squash_forecasts. destruct (_squash_forecasts self).
  - eapply yields_bind.
    { apply yields_for_each. intros c v. apply yields_squash_forecast. }
    intros [known vars1] H1. by apply yields_ret.
  - apply yields_ret, Forall2_var_step_refl.
Qed.

Lemma yields_hook_stations station vars :
  yields (Forall2 var_step vars) (hook_stations _iter_axes station vars).
Proof.
  unfold hook_stations. destruct station as [station|].
  - apply yields_any. intros h. apply yields_attach_stations, Forall2_var_step_refl.
  - apply yields_ret, Forall2_var_step_refl.
Qed.

Lemma yields_Series_makevars vars :
  yields (Forall2 var_step vars)
    (Series_makevars self _fstlir stamp2datetime_scalar _get_header_atts _iter_axes vars).
Proof.
  unfold Series_makevars.
  do 3 (apply yields_any; intros ?). apply yields_any. intros [thermo momentum].
  eapply yields_bind; [apply yields_remap_axes|]. intros vars1 H1.
  eapply yields_bind; [apply yields_squash_forecasts|]. intros vars2 H2.
  intros s vars3 s' H3. apply yields_hook_stations in H3.
  eauto using Forall2_var_step_trans.
Qed.

End variables_kept.

(** X20. A run of [Series._makevars] that returns keeps the number and the
    order of the variables; every variable keeps its name, keeps its
    attributes or gains kind 5, gets dependencies only at the end of its
    list, and gains no dimension. *)
Theorem variables_kept self _fstlir stamp2datetime_scalar _get_header_atts _iter_axes
    vars s vars' s' :
  Series_makevars self _fstlir stamp2datetime_scalar _get_header_atts _iter_axes vars s
    = Some (vars', s') →
  length vars' = length vars
  ∧ ∀ p v, vars !! p = Some v →
      ∃ v', vars' !! p = Some v'
        ∧ v_name v' = v_name v
        ∧ (v_atts v' = v_atts v ∨ v_atts v' = <["kind" := att_int 5]> (v_atts v))
        ∧ v_deps v `prefix_of` v_deps v'
        ∧ (length (v_axes v') ≤ length (v_axes v))%nat.
Proof.
  intros Hrun. apply yields_Series_makevars in Hrun. split.
  - symmetry. by eapply Forall2_length.
  - intros p v Hv. destruct (Forall2_lookup_l _ _ _ _ _ Hrun Hv) as (v' & Hv' & Hstep).
    by exists v'.
Qed.

(** ** The station names *)

Lemma drop_while_replicate {A} (p : A → bool) x k l :
  p x = true → drop_while p (replicate k x ++ l) = drop_while p l.
Proof. intros Hx. induction k as [|k IH]; simpl; [done|]. by rewrite Hx. Qed.

Lemma drop_while_head {A} (p : A → bool) l :
  (∀ x, head l = Some x → p x = false) → drop_while p l = l.
Proof. destruct l as [|x l]; [done|]. simpl. intros H. by rewrite H. Qed.

Lemma rstrip_by_padding {A} (p : A → bool) l k x :
  p x = true → rstrip_by p (l ++ replicate k x) = rstrip_by p l.
Proof.
  intros Hx. unfold rstrip_by. rewrite reverse_app, reverse_replicate.
  by rewrite drop_while_replicate.
Qed.

Lemma rstrip_by_last {A} (p : A → bool) l :
  (∀ x, last l = Some x → p x = false) → rstrip_by p l = l.
Proof.
  intros H. unfold rstrip_by. rewrite drop_while_head; [apply reverse_involutive|].
  intros x Hx. apply H. by rewrite <-head_reverse.
Qed.

Lemma strip_space_ascii b r :
  0 ≤ b < 128 → strip_space (b :: r) = if is_space b then Some r else None.
Proof.
  intros Hb. unfold strip_space. destruct (is_space b); [done|].
  replace (list_find _ wide_spaces) with (@None (nat * list Z)); [done|].
  symmetry. apply list_find_None.
  repeat (apply Forall_cons; split; [intros [k Hk]; simpl in Hk; injection Hk; lia|]).
  constructor.
Qed.

Lemma strip_spaces_ascii n r :
  (length r ≤ n)%nat → Forall (λ x, 0 ≤ x < 128) r →
  strip_spaces n r = drop_while is_space r.
Proof.
  revert r. induction n as [|n IH]; intros [|b r] Hn Hall; simpl in Hn; try done; [lia|].
  apply Forall_cons in Hall as [Hb Hall]. cbn [strip_spaces drop_while].
  rewrite strip_space_ascii by done. destruct (is_space b); [|done].
  apply IH; [lia|done].
Qed.

Lemma rstrip_ascii l : Forall (λ x, 0 ≤ x < 128) l → rstrip l = rstrip_by is_space l.
Proof.
  intros Hall. unfold rstrip, rstrip_by. f_equal. apply strip_spaces_ascii.
  - by rewrite length_reverse.
  - by apply Forall_reverse.
Qed.

Lemma decode_name_padded strlen name :
  station_name strlen name →
  decode_name strlen (blank_padded strlen name) = mret (nul_padded strlen name).
Proof.
  intros (Hlen & Hascii & Hlast). unfold decode_name, blank_padded, nul_padded.
  set (k := (strlen - length name)%nat).
  assert (Hnul : rstrip_by (λ b, b =? 0) (name ++ replicate k 32) = name ++ replicate k 32).
  { apply rstrip_by_last. intros x Hx. apply Z.eqb_neq.
    destruct k as [|k]; simpl in Hx.
    - rewrite app_nil_r in Hx. by apply Hlast.
    - rewrite last_app in Hx. destruct (last (32 :: replicate k 32)) as [y|] eqn:Hy;
        [|by apply Hlast in Hx as [? _]].
      injection Hx as <-. apply last_Some_elem_of in Hy.
      apply (elem_of_replicate (S k) 32 y) in Hy as [-> _]. done. }
  rewrite Hnul.
  rewrite rstrip_ascii
    by (apply Forall_app; split; [done|apply Forall_replicate; lia]).
  rewrite rstrip_by_padding by done.
  rewrite rstrip_by_last by (intros x Hx; by apply Hlast).
  assert (Hall : forallb (λ b, (0 <=? b) && (b <? 128)) name = true).
  { apply forallb_forall. intros x Hin%list_elem_of_In.
    rewrite Forall_forall in Hascii. specialize (Hascii x Hin).
    apply andb_true_iff. split; [apply Z.leb_le|apply Z.ltb_lt]; lia. }
  by rewrite Hall.
Qed.

Lemma mapM_pure {W X Y} (f : X → M Y) (h : W → X) (g : W → Y) l s :
  Forall (λ x, f (h x) = mret (g x)) l → mapM f (h <$> l) s = Some (g <$> l, s).
Proof.
  intros Hall. induction Hall as [|x l Hx _ IH]; [done|].
  rewrite !fmap_cons. simpl mapM. rewrite Hx. unfold mbind at 1, M_bind at 1. simpl.
  unfold mbind at 1, M_bind at 1. by rewrite IH.
Qed.

Lemma length_blank_padded strlen name :
  (length name ≤ strlen)%nat → length (blank_padded strlen name) = strlen.
Proof. intros H. unfold blank_padded. rewrite length_app, length_replicate. lia. Qed.

Lemma transpose2_names header a b names :
  holds_names header a b names → Forall (station_name a) names →
  transpose2 a b (h_d header) = blank_padded a <$> names.
Proof.
  intros (_ & Hn & Hd) Hall. unfold transpose2. apply list_eq. intros i.
  rewrite !list_lookup_fmap. destruct (names !! i) as [name|] eqn:Hi; simpl.
  - rewrite lookup_seq_lt by (apply lookup_lt_Some in Hi; lia). simpl. f_equal.
    assert (length name ≤ a)%nat.
    { rewrite Forall_forall in Hall. apply (Hall name). by eapply list_elem_of_lookup_2. }
    apply list_eq. intros j. rewrite list_lookup_fmap.
    destruct (decide (j < a)%nat).
    + rewrite lookup_seq_lt by done. simpl. rewrite (Hd i name j) by done.
      destruct (lookup_lt_is_Some_2 (blank_padded a name) j) as [x Hx].
      { by rewrite length_blank_padded. }
      by rewrite Hx.
    + rewrite lookup_seq_ge by lia. simpl. symmetry. apply lookup_ge_None.
      rewrite length_blank_padded by done. lia.
  - rewrite lookup_seq_ge; [done|]. apply lookup_ge_None in Hi. lia.
Qed.

(** X6. A station record that holds blank-padded ASCII names column by
    column (shape strlen x nstations, both positive) gives the [station]
    coordinate with one row per station, every row the name padded with
    NULs to strlen characters, on two new dimensions [station_id] of length
    nstations and [station_strlen] of length strlen. *)
Theorem station_names_decoded _fstlir header a b names s :
  _fstlir "STNS" = Some header →
  holds_names header a b names →
  Forall (station_name a) names →
  (0 < a)%nat → (0 < b)%nat →
  let station_id := length (axes_heap s) in
  let station := _var_type "station" [] [station_id; S station_id]
                   (chars (nul_padded a <$> names)) in
  get_station _fstlir s
  = Some (Some (length (coord_heap s), station),
          {| axes_heap := axes_heap s
               ++ [_dim_type "station_id" b; _dim_type "station_strlen" a];
             coord_heap := coord_heap s ++ [station];
             warnings := warnings s |})
  ∧ length (nul_padded a <$> names) = b
  ∧ Forall (λ row, length row = a) (nul_padded a <$> names).
Proof.
  intros Hh Hnames Hall Ha Hb station_id station. split_and!.
  - pose proof Hnames as (Hshape & Hlen & Hd).
    unfold get_station. rewrite Hh, Hshape.
    rewrite (transpose2_names _ _ _ _ Hnames Hall).
    destruct names as [|name names]; [simpl in Hlen; lia|].
    apply Forall_cons in Hall as [Hname Hall].
    assert (∃ first rest, blank_padded a name = first :: rest ∧ 0 ≤ first < 128)
      as (first & rest & Hrow & Hfirst).
    { destruct Hname as (Hl & Hascii & _). unfold blank_padded.
      destruct name as [|x name]; simpl.
      - destruct a; [lia|]. simpl. eexists _, _. split; [done|lia].
      - apply Forall_cons in Hascii as [? _]. by eexists _, _. }
    assert (Hdec : mapM (decode_name a) (blank_padded a <$> name :: names) s
                   = Some (nul_padded a <$> name :: names, s)).
    { apply mapM_pure. eapply Forall_impl; [by apply Forall_cons|].
      intros n Hn. by apply decode_name_padded. }
    apply wp_returns. rewrite fmap_cons, Hrow. simpl concat. simpl lookup.
    rewrite wp_bind, wp_lift_Some. rewrite bool_decide_false by lia.
    rewrite <-Hrow, <-fmap_cons.
    rewrite wp_bind, (wp_value _ _ _ _ _ _ Hdec). wp_simpl.
    subst station station_id. rewrite length_app, Nat.add_1_r.
    by rewrite <-app_assoc.
  - by rewrite length_fmap; destruct Hnames as (_ & ? & _).
  - apply Forall_fmap. eapply Forall_impl; [done|]. intros name (Hl & _). simpl.
    unfold nul_padded. rewrite length_fmap, length_app, length_replicate. lia.
Qed.

Lemma transpose2_length a b d : length (transpose2 a b d) = b.
Proof. unfold transpose2. by rewrite length_fmap, length_seq. Qed.

Lemma transpose2_offset a b (d : list Z) (g : Z → Z) :
  length d = (a * b)%nat →
  transpose2 a b (g <$> d) = (λ row : list Z, g <$> row) <$> transpose2 a b d.
Proof.
  intros Hlen. unfold transpose2. rewrite <-list_fmap_compose.
  apply list_fmap_ext. intros ? i Hi%list_elem_of_lookup_2%elem_of_seq. simpl.
  rewrite <-list_fmap_compose.
  apply list_fmap_ext. intros ? j Hj%list_elem_of_lookup_2%elem_of_seq. simpl.
  rewrite list_lookup_fmap.
  destruct (lookup_lt_is_Some_2 d (j * b + i)) as [x ->]; [nia|done].
Qed.

(** X7. A station record whose bytes all carry an offset of 128 is decoded
    like the record without the offset. *)
Theorem station_names_high_bit _fstlir _fstlir' header header' a b s :
  _fstlir "STNS" = Some header → _fstlir' "STNS" = Some header' →
  h_shape header = [a; b] → h_shape header' = [a; b] →
  length (h_d header) = (a * b)%nat → (0 < a)%nat → (0 < b)%nat →
  Forall (λ x, 0 ≤ x < 128) (h_d header) →
  h_d header' = (λ x, x + 128) <$> h_d header →
  get_station _fstlir' s = get_station _fstlir s.
Proof.
  intros Hh Hh' Hs Hs' Hlen Ha Hb Hascii Hd'.
  unfold get_station. rewrite Hh, Hh', Hs, Hs', Hd'.
  rewrite transpose2_offset by done.
  set (array := transpose2 a b (h_d header)).
  assert (Harr : Forall (Forall (λ x, 0 ≤ x < 128)) array).
  { apply Forall_forall. intros row Hrow. unfold array, transpose2 in Hrow.
    apply list_elem_of_fmap in Hrow as (i & -> & Hi%elem_of_seq).
    apply Forall_fmap, Forall_forall. intros j Hj%elem_of_seq. simpl.
    destruct (lookup_lt_is_Some_2 (h_d header) (j * b + i)) as [x Hx]; [nia|].
    rewrite Hx. simpl. rewrite Forall_forall in Hascii. apply Hascii.
    by eapply list_elem_of_lookup_2. }
  assert (∃ first, concat array !! 0%nat = Some first ∧ 0 ≤ first < 128)
    as (first & Hfirst & Hrange).
  { destruct (lookup_lt_is_Some_2 (concat array) 0) as [x Hx].
    - unfold array, transpose2. destruct b as [|b]; [lia|]. simpl.
      rewrite length_app, length_fmap, length_seq. lia.
    - exists x. split; [done|]. apply list_elem_of_lookup_2 in Hx.
      apply list_elem_of_In, in_concat in Hx as (row & Hrow%list_elem_of_In & Hx%list_elem_of_In).
      rewrite Forall_forall in Harr. specialize (Harr row Hrow).
      rewrite Forall_forall in Harr. by apply Harr. }
  assert (Hfirst' : concat ((λ row : list Z, (λ x, x + 128) <$> row) <$> array) !! 0%nat
                    = Some (first + 128)).
  { clear -Hfirst. induction array as [|[|x row] array IH]; simpl in *; [done|auto|].
    by injection Hfirst as ->. }
  assert (Hback : (λ row : list Z, (λ x, (x - 128) `mod` 256) <$> row)
           <$> ((λ row : list Z, (λ x, x + 128) <$> row) <$> array) = array).
  2:{ unfold mbind at 1. unfold M_bind at 1. rewrite Hfirst'. simpl lift.
      unfold mret at 1, M_ret at 1. cbv beta iota.
      rewrite bool_decide_true by lia. rewrite Hback.
      symmetry. unfold mbind at 1. unfold M_bind at 1. rewrite Hfirst. simpl lift.
      unfold mret at 1, M_ret at 1. cbv beta iota. by rewrite bool_decide_false by lia. }
  symmetry.
  rewrite <-list_fmap_compose. rewrite <-(list_fmap_id array) at 1.
  apply Forall_fmap_ext_1. eapply Forall_impl; [done|]. intros row Hrow. simpl.
  rewrite <-list_fmap_compose. rewrite <-(list_fmap_id row) at 1.
  apply Forall_fmap_ext_1. eapply Forall_impl; [done|]. intros x Hx. simpl.
  unfold id, compose. simpl in Hx. rewrite Z.mod_small; lia.
Qed.

(** X8. A station record that is not two-dimensional, or has an extent of
    zero, makes the extraction raise. *)
Theorem station_record_malformed _fstlir header s :
  _fstlir "STNS" = Some header →
  (length (h_shape header) ≠ 2%nat ∨ 0%nat ∈ h_shape header) →
  get_station _fstlir s = None.
Proof.
  intros Hh Hbad. unfold get_station. rewrite Hh.
  destruct (h_shape header) as [|a [|b [|c rest]]] eqn:Hs; try done.
  destruct Hbad as [?|Hin]; [done|].
  assert (concat (transpose2 a b (h_d header)) = []) as Hempty.
  { unfold transpose2. apply elem_of_cons in Hin as [<-|Hin%list_elem_of_singleton].
    - simpl. induction (seq 0 b); [done|]. simpl. done.
    - by rewrite <-Hin. }
  unfold mbind at 1, M_bind at 1. by rewrite Hempty.
Qed.

(** ** Files without series data *)

(** A pass whose rounds do nothing. *)
Lemma for_each_skip {C} (body : C → variable → M (C * variable)) c vs s :
  Forall (λ v, ∀ c, body c v = mret (c, v)) vs →
  for_each body c vs s = Some ((c, vs), s).
Proof.
  intros Hall. induction Hall as [|v vs Hv _ IH]; simpl; [done|].
  rewrite Hv. unfold mbind at 1, M_bind at 1. simpl.
  unfold mbind at 1, M_bind at 1. by rewrite IH.
Qed.

(** X21. Without station, forecast and vertical records, without squashing,
    and with no variable of type 'T', [Series._makevars] returns the
    variables and the store as they were. *)
Theorem ordinary_file_untouched self _fstlir stamp2datetime_scalar _get_header_atts
    _iter_axes vars s :
  _fstlir "STNS" = None → _fstlir "HH  " = None →
  _fstlir "SH  " = None → _fstlir "SV  " = None →
  _squash_forecasts self = false →
  Forall (λ v, att_is v "typvar" "T" = false) vars →
  Series_makevars self _fstlir stamp2datetime_scalar _get_header_atts _iter_axes vars s
  = Some (vars, s).
Proof.
  intros Hst Hhh Hsh Hsv Hsq Hall.
  assert (H1 : ∀ u, for_each (name_station_axis None) u vars s = Some ((u, vars), s)).
  { intros u. apply for_each_skip. eapply Forall_impl; [done|].
    intros v Hv []. apply name_station_axis_skip. by rewrite Hv. }
  assert (H2 : ∀ u, for_each drop_level u vars s = Some ((u, vars), s)).
  { intros u. apply for_each_skip. eapply Forall_impl; [done|].
    intros v Hv []. apply drop_level_skip. by rewrite Hv. }
  assert (H3 : ∀ k, for_each (remap_profile self None None None) k vars s
                    = Some ((k, vars), s)).
  { intros k. apply for_each_skip. eapply Forall_impl; [done|].
    intros v Hv c. apply remap_profile_skip. by rewrite Hv. }
  apply wp_returns.
  unfold Series_makevars, get_station, get_forecast_axis, get_vertical.
  rewrite Hst, Hhh, Hsh, Hsv. wp_simpl.
  unfold remap_axes, squash_forecasts, hook_stations. rewrite Hsq. wp_simpl.
  rewrite (wp_value _ _ _ _ _ _ (H1 tt)). wp_simpl.
  rewrite (wp_value _ _ _ _ _ _ (H2 tt)). wp_simpl.
  rewrite (wp_value _ _ _ _ _ _ (H3 ∅)). by wp_simpl.
Qed.

(** * The station binder over its groups *)

Section grows.
Context {A B : Type}.

Lemma grows_ret (x : A) : grows (mret x).
Proof. intros s y s' [= <- <-]. apply extends_refl. Qed.

Lemma grows_raise : grows (@raise A).
Proof. by intros s y s'. Qed.

Lemma grows_lift (o : option A) : grows (lift o).
Proof. destruct o; [apply grows_ret|apply grows_raise]. Qed.

Lemma grows_bind (m : M A) (k : A → M B) :
  grows m → (∀ x, grows (k x)) → grows (m ≫= k).
Proof.
  intros Hm Hk s y s' H. unfold mbind, M_bind in H.
  destruct (m s) as [[x s1]|] eqn:Hms; [|done].
  eapply extends_trans; [by eapply Hm|by eapply Hk].
Qed.

End grows.

Lemma grows_get_axes : grows get_axes.
Proof. intros s y s' [= <- <-]. apply extends_refl. Qed.

Lemma grows_new_axis a : grows (new_axis a).
Proof. intros s y s' [= <- <-]. apply extends_new_axis. Qed.

Lemma grows_new_coord c : grows (new_coord c).
Proof. intros s y s' [= <- <-]. apply extends_new_coord. Qed.

Lemma grows_for_group body group vars :
  (∀ v, grows (body v)) → grows (for_group body group vars).
Proof.
  intros Hb. revert vars. induction group as [|i group IH]; intros vars; simpl;
    [apply grows_ret|].
  apply grows_bind; [apply grows_lift|]. intros v. apply grows_bind; [done|].
  intros v'. apply IH.
Qed.

Ltac grows_step :=
  match goal with
  | |- grows (mret _) => apply grows_ret
  | |- grows raise => apply grows_raise
  | |- grows (lift _) => apply grows_lift
  | |- grows get_axes => apply grows_get_axes
  | |- grows (new_axis _) => apply grows_new_axis
  | |- grows (new_coord _) => apply grows_new_coord
  | |- grows (for_group _ _ _) => apply grows_for_group; intros ?
  | |- grows (_ ≫= _) => apply grows_bind; [|intros ?]
  | |- grows (if ?b then _ else _) => destruct b
  | |- grows (match ?x with _ => _ end) => destruct x
  | |- grows (let '(_, _) := ?x in _) => destruct x
  end.

Lemma grows_attach_station station vars g : grows (attach_station station vars g).
Proof.
  unfold attach_station, station_shape0, station_axis, len, array_of, chars_of,
    dims, index, setitem.
  repeat grows_step.
Qed.

Lemma grows_attach_stations station groups vars :
  grows (attach_stations station groups vars).
Proof.
  revert vars. induction groups as [|g groups IH]; intros vars; simpl; [apply grows_ret|].
  apply grows_bind; [apply grows_attach_station|done].
Qed.

(** The rounds of the binder, one group after the other. *)
Lemma attach_stations_app station l1 l2 vars s :
  attach_stations station (l1 ++ l2) vars s
  = match attach_stations station l1 vars s with
    | Some (vars1, s1) => attach_stations station l2 vars1 s1
    | None => None
    end.
Proof.
  revert vars s. induction l1 as [|g l1 IH]; intros vars s; simpl; [done|].
  unfold mbind, M_bind. destruct (attach_station station vars g s) as [[vars1 s1]|]; [|done].
  apply IH.
Qed.

Lemma attach_stations_cons station g groups vars s :
  attach_stations station (g :: groups) vars s
  = match attach_station station vars g s with
    | Some (vars1, s1) => attach_stations station groups vars1 s1
    | None => None
    end.
Proof. done. Qed.

(** A group that does not list a variable leaves it alone. *)
Lemma for_group_outside body group vars s vars' s' i :
  for_group body group vars s = Some (vars', s') → i ∉ group → vars' !! i = vars !! i.
Proof.
  revert vars s. induction group as [|j group IH]; intros vars s Hrun Hi; simpl in Hrun.
  { by injection Hrun as <- <-. }
  apply not_elem_of_cons in Hi as [Hij Hi].
  unfold mbind, M_bind in Hrun. destruct (vars !! j) as [v|]; simpl in Hrun; [|done].
  destruct (body v s) as [[v' s1]|]; [|done].
  rewrite (IH _ _ Hrun Hi). by apply list_lookup_insert_ne.
Qed.

Lemma attach_station_outside station vars g s vars' s' i :
  attach_station station vars g s = Some (vars', s') → i ∉ g.2 → vars' !! i = vars !! i.
Proof.
  destruct g as [station_id group]. simpl. intros Hrun Hi. revert Hrun.
  unfold attach_station. unfold mbind at 1, M_bind at 1.
  destruct (len station_id s) as [[n s1]|]; [|done].
  unfold mbind at 1, M_bind at 1.
  destruct (station_shape0 station s1) as [[n0 s2]|]; [|done].
  unfold mbind at 1, M_bind at 1. case_bool_decide.
  - unfold mbind at 1, M_bind at 1.
    destruct (station_axis station 0 s2) as [[a0 s3]|]; [|done].
    unfold mbind at 1, M_bind at 1.
    destruct (for_group _ group vars s3) as [[vars1 s4]|] eqn:Hg; [|done].
    unfold mret at 1, M_ret at 1. intros Hrun.
    rewrite (for_group_outside _ _ _ _ _ _ _ Hrun Hi).
    by apply (for_group_outside _ _ _ _ _ _ _ Hg).
  - match goal with
    | |- match ?m s2 with _ => _ end = _ → _ =>
        destruct (m s2) as [[[vars1 c] s3]|] eqn:Hm; [|done]
    end.
    intros Hrun. rewrite (for_group_outside _ _ _ _ _ _ _ Hrun Hi).
    revert Hm. unfold mbind, M_bind.
    repeat (match goal with
            | |- match ?m ?s with _ => _ end = _ → _ => destruct (m s) as [[? ?]|]; [|done]
            end).
    unfold mret, M_ret. by intros [= <- _ _].
Qed.

Lemma attach_stations_outside station groups vars s vars' s' i :
  attach_stations station groups vars s = Some (vars', s') →
  Forall (λ g, i ∉ g.2) groups → vars' !! i = vars !! i.
Proof.
  revert vars s. induction groups as [|g groups IH]; intros vars s Hrun Hall; simpl in Hrun.
  { by injection Hrun as <- <-. }
  apply Forall_cons in Hall as [Hg Hall]. unfold mbind, M_bind in Hrun.
  destruct (attach_station station vars g s) as [[vars1 s1]|] eqn:Hb; [|done].
  rewrite (IH _ _ Hrun Hall). by eapply attach_station_outside.
Qed.

Lemma for_group_mret_inv (g : variable → variable) group vars s vars' s' :
  for_group (λ var, mret (g var)) group vars s = Some (vars', s') →
  s' = s ∧ vars' = foldl (λ vs i, alter g i vs) vars group
  ∧ Forall (λ i, (i < length vars)%nat) group.
Proof.
  revert vars. induction group as [|i group IH]; intros vars Hrun; simpl in Hrun.
  { injection Hrun as <- <-. by split_and!. }
  unfold mbind, M_bind in Hrun. destruct (vars !! i) as [v|] eqn:Hv; simpl in Hrun; [|done].
  apply IH in Hrun as (-> & -> & Hall). rewrite length_insert in Hall.
  split_and!; [done| |constructor; [by eapply lookup_lt_Some|done]].
  simpl. f_equal. apply list_eq. intros j. destruct (decide (j = i)) as [->|].
  - rewrite list_lookup_insert_eq by (by eapply lookup_lt_Some).
    by rewrite list_lookup_alter_eq, Hv.
  - by rewrite list_lookup_insert_ne, list_lookup_alter_ne.
Qed.

Lemma foldl_alter_outside (g : variable → variable) (group : list nat)
    (vars : list variable) (i : nat) :
  i ∉ group → foldl (λ vs i, alter g i vs) vars group !! i = vars !! i.
Proof.
  revert vars. induction group as [|j group IH]; intros vars Hi; simpl; [done|].
  apply not_elem_of_cons in Hi as [Hij Hi]. rewrite IH by done.
  by apply list_lookup_alter_ne.
Qed.

Lemma foldl_alter_elem (g : variable → variable) (P : variable → Prop)
    (group : list nat) (vars : list variable) (i : nat) :
  (∀ v, P (g v)) → i ∈ group → (i < length vars)%nat →
  ∃ v', foldl (λ vs i, alter g i vs) vars group !! i = Some v' ∧ P v'.
Proof.
  intros Hg. revert vars. induction group as [|j group IH]; intros vars Hi Hlt.
  { by apply elem_of_nil in Hi. }
  simpl. destruct (decide (i ∈ group)) as [Hin|Hout].
  - apply IH; [done|]. by rewrite length_alter.
  - apply elem_of_cons in Hi as [->|?]; [|done].
    rewrite foldl_alter_outside by done. rewrite list_lookup_alter_eq.
    destruct (lookup_lt_is_Some_2 vars j Hlt) as [v ->]. simpl. eauto.
Qed.

Lemma take_rows_Some rows ids array :
  take_rows rows ((λ x, x - 1) <$> ids) = Some array →
  length array = length ids
  ∧ ∀ j id, ids !! j = Some id → 1 ≤ id ≤ Z.of_nat (length rows) →
      array !! j = rows !! Z.to_nat (id - 1).
Proof.
  unfold take_rows. intros H%mapM_Some. apply Forall2_fmap_l in H.
  split; [symmetry; by eapply Forall2_length|].
  intros j id Hj Hid. destruct (Forall2_lookup_l _ _ _ _ _ H Hj) as (row & -> & Hrow).
  simpl in Hrow. by rewrite bool_decide_true in Hrow by lia.
Qed.

(** C8. In a run of the station binder that returns, take a group of
    [_iter_axes] whose station_id axis holds the identifiers [ids] and
    differs in length from the canonical station axis.  The binder has
    built a coordinate [c] whose rows are the canonical rows selected at
    (identifier - 1), in the order of the identifiers, identifiers being
    counted from 1, on a new station_id axis with the same identifiers;
    the group's own axis object is as it was; and [c] is among the
    dependencies of every variable of the group.  A variable listed once,
    and in this group only, keeps its axes and has [c] appended to its
    dependencies.  Stations A, B, C and identifiers [3,1] give the rows
    C, A. *)
Theorem station_subset_coordinate _iter_axes sa a0 a1 rows vars s vars' s'
    l1 station_id group l2 ids :
  let station := (sa, _var_type "station" [] [a0; a1] (chars rows)) in
  hook_stations _iter_axes (Some station) vars s = Some (vars', s') →
  _iter_axes "station_id" (axes_heap s) vars = l1 ++ (station_id, group) :: l2 →
  axes_heap s !! station_id ≫= axis_array = Some ids →
  is_Some (axes_heap s !! a0) →
  len_at (axes_heap s) station_id ≠ len_at (axes_heap s) a0 →
  ∃ array sid c,
    take_rows rows ((λ x, x - 1) <$> ids) = Some array
    ∧ length array = length ids
    ∧ (∀ j id, ids !! j = Some id → 1 ≤ id ≤ Z.of_nat (length rows) →
         array !! j = rows !! Z.to_nat (id - 1))
    ∧ (length (coord_heap s) ≤ c)%nat
    ∧ coord_heap s' !! c = Some (_var_type "station" [] [sid; a1] (chars array))
    ∧ (length (axes_heap s) ≤ sid)%nat
    ∧ axes_heap s' !! sid = Some (_axis_type "station_id" [] ids)
    ∧ axes_heap s' !! station_id = axes_heap s !! station_id
    ∧ (∀ i, i ∈ group →
         ∃ v v', vars !! i = Some v ∧ vars' !! i = Some v' ∧ c ∈ v_deps v'
           ∧ (NoDup group → Forall (λ g, i ∉ g.2) (l1 ++ l2) →
              v_axes v' = v_axes v ∧ v_deps v' = v_deps v ++ [c]))
    ∧ (rows = [["A"%char]; ["B"%char]; ["C"%char]] → ids = [3; 1] →
       array = [["C"%char]; ["A"%char]]).
Proof.
  intros station Hrun Hgroups Hids [x0 Hx0] Hlen.
  unfold hook_stations in Hrun. unfold mbind, M_bind, get_axes in Hrun.
  rewrite Hgroups, attach_stations_app in Hrun.
  destruct (attach_stations station l1 vars s) as [[vars1 s1]|] eqn:H1; [|done].
  rewrite attach_stations_cons in Hrun.
  destruct (attach_station station vars1 (station_id, group) s1) as [[vars2 s2]|] eqn:H2;
    [|done].
  pose proof (grows_attach_stations _ _ _ _ _ _ H1) as Hext1.
  pose proof (grows_attach_stations _ _ _ _ _ _ Hrun) as Hext2.
  pose proof (extends_array _ _ _ _ Hext1 Hids) as Hids1.
  assert (Hsid : is_Some (axes_heap s !! station_id)).
  { destruct (axes_heap s !! station_id); [by eexists|done]. }
  unfold station in H2.
  rewrite (attach_station_subset sa a0 a1 rows vars1 s1 station_id group ids Hids1) in H2.
  2:{ rewrite (extends_len_at s s1 _ Hext1) by done.
      by rewrite (extends_len_at s s1 _ Hext1) by (by eexists). }
  destruct (take_rows rows ((λ x, x - 1) <$> ids)) as [array|] eqn:Htake; [|done].
  apply for_group_mret_inv in H2 as (-> & -> & Hin).
  destruct (take_rows_Some _ _ _ Htake) as [Hlarr Hrows].
  pose proof (yields_attach_stations station l1 vars vars
                (Forall_Forall2_diag _ _ (Forall_true _ _ var_step_refl)) _ _ _ H1) as Hv1.
  set (g := λ var : variable, set_deps (v_deps var ++ [length (coord_heap s1)]) var) in *.
  set (vars2 := foldl (λ vs i, alter g i vs) vars1 group) in *.
  pose proof (yields_attach_stations station l2 vars2 vars2
                (Forall_Forall2_diag _ _ (Forall_true _ _ var_step_refl)) _ _ _ Hrun) as Hv2.
  exists array, (length (axes_heap s1)), (length (coord_heap s1)).
  split_and!; try done.
  - destruct Hext1 as (_ & [l ->] & _). rewrite length_app. lia.
  - eapply extends_lookup_coord; [done|]. simpl.
    by rewrite lookup_app_r, Nat.sub_diag.
  - destruct Hext1 as ([l ->] & _). rewrite length_app. lia.
  - eapply extends_lookup_axis; [done|]. simpl.
    by rewrite lookup_app_r, Nat.sub_diag.
  - apply extends_lookup_axis_inv; [|done].
    eapply extends_trans; [done|]. eapply extends_trans; [|done].
    split_and!; simpl; [by apply prefix_app_r..|done].
  - intros i Hi.
    assert (Hlt : (i < length vars1)%nat).
    { rewrite Forall_forall in Hin. by apply Hin. }
    destruct (foldl_alter_elem g (λ v, length (coord_heap s1) ∈ v_deps v) group vars1 i)
      as (v2 & Hv2i & Hc); [|done..|].
    { intros v. simpl. set_solver. }
    destruct (Forall2_lookup_l _ _ _ _ _ Hv2 Hv2i) as (v' & Hv' & Hstep).
    assert (is_Some (vars !! i)) as [v Hv].
    { apply lookup_lt_is_Some. by rewrite (Forall2_length _ _ _ Hv1). }
    exists v, v'. split_and!; try done.
    + destruct Hstep as (_ & _ & [l ->] & _). set_solver.
    + intros Hnodup Hall. apply Forall_app in Hall as [Hall1 Hall2].
      pose proof (attach_stations_outside _ _ _ _ _ _ _ H1 Hall1) as E1.
      pose proof (attach_stations_outside _ _ _ _ _ _ _ Hrun Hall2) as E2.
      unfold vars2 in E2. rewrite foldl_alter_lookup, bool_decide_true in E2 by done.
      rewrite E1, Hv, Hv' in E2. by injection E2 as ->.
  - intros -> ->. vm_compute in Htake. by injection Htake as <-.
Qed.

(** * The further properties on sample data *)

Lemma names_of_plain_witness : plain_name "VV".
Proof.
  apply (names_of_plain " UU, VV " "VV").
  apply (bool_decide_unpack _). by_computation.
Defined.

Lemma names_of_concat_witness :
  Options.names_of (Options.arg_str (String.concat "," ["UU"; "VV"; "TT"])) = ["UU"; "VV"; "TT"].
Proof.
  apply (names_of_concat ["UU"; "VV"; "TT"]).
  repeat constructor; (discriminate || reflexivity).
Defined.

Lemma unmasked_station_is_series_witness :
  Classifier.is_series Sample.fields !! 0%nat = Some true
  ∧ Classifier.ip1 (Classifier.Series_init Sample.fields) !! 0%nat = Some 0.
Proof.
  destruct (unmasked_station_is_series Sample.fields 0
              (Classifier.masked [7; 0; 0] [false; true; true]) 7)
    as (Hs & _ & _ & _ & _ & Hip1 & _); [reflexivity..|].
  split; [exact Hs|]. apply (Hip1 12000). reflexivity.
Defined.

Lemma station_names_decoded_witness :
  get_station (Cases.only_stns Cases.stns_record) Sample.no_store
  = Some (Some (0%nat, _var_type "station" [] [0; 1]%nat
                         (chars (nul_padded 3 <$> Cases.stns_names))),
          {| axes_heap := [_dim_type "station_id" 2; _dim_type "station_strlen" 3];
             coord_heap := [_var_type "station" [] [0; 1]%nat
                              (chars (nul_padded 3 <$> Cases.stns_names))];
             warnings := [] |}).
Proof.
  apply (station_names_decoded (Cases.only_stns Cases.stns_record) Cases.stns_record
           3 2 Cases.stns_names Sample.no_store).
  - reflexivity.
  - split_and!; [reflexivity..|].
    intros [|[|i]] name j; simpl; [intros [= <-]..|done];
      (destruct j as [|[|[|j]]]; [reflexivity..|lia]).
  - repeat apply Forall_cons_2; [..|apply Forall_nil_2];
      (split_and!; [simpl; lia|repeat constructor; lia|]);
      simpl; intros x [= <-]; (split; [lia|reflexivity]).
  - lia.
  - lia.
Defined.

Lemma station_names_high_bit_witness :
  get_station (Cases.only_stns Cases.stns_high) Sample.no_store
  = get_station (Cases.only_stns Cases.stns_record) Sample.no_store.
Proof.
  apply (station_names_high_bit (Cases.only_stns Cases.stns_record)
           (Cases.only_stns Cases.stns_high) Cases.stns_record Cases.stns_high 3 2);
    try reflexivity; try lia.
  repeat constructor; lia.
Defined.

Lemma station_record_malformed_witness :
  get_station (Cases.only_stns Cases.stns_empty) Sample.no_store = None.
Proof.
  apply (station_record_malformed _ Cases.stns_empty); [reflexivity|].
  right. apply (bool_decide_unpack _). by_computation.
Defined.

Lemma vertical_axis_extracted_witness :
  get_vertical Sample.both_lists_trimmed Sample.two_levels Sample.no_atts "SH  "
    (None, None) Sample.no_store
  = Some ((Some 0%nat, None),
          {| axes_heap := [_axis_type "level" [] [10]]; coord_heap := [];
             warnings := [] |}).
Proof.
  destruct (vertical_axis_extracted Sample.both_lists_trimmed Sample.two_levels
              Sample.no_atts "SH  "
              {| h_shape := [1%nat; 2%nat]; h_d := [10; 20]; h_dateo := 0 |}
              (None, None) Sample.no_store 2) as [Hrun _];
    [by left|reflexivity|reflexivity|].
  exact Hrun.
Defined.

Lemma vertical_record_not_1d_witness :
  get_vertical Sample.both_lists_trimmed Cases.single_value Sample.no_atts "SH  "
    (None, None) Sample.no_store = None
  ∧ get_vertical Sample.both_lists Cases.single_value Sample.no_atts "SH  "
      (None, None) Sample.no_store = Some ((None, None), Sample.no_store).
Proof.
  split.
  - apply (vertical_record_not_1d Sample.both_lists_trimmed Cases.single_value
             Sample.no_atts "SH  "
             {| h_shape := [1%nat; 1%nat]; h_d := [10]; h_dateo := 0 |});
      [reflexivity|simpl; lia].
  - apply (vertical_record_not_1d Sample.both_lists Cases.single_value
             Sample.no_atts "SH  "
             {| h_shape := [1%nat; 1%nat]; h_d := [10]; h_dateo := 0 |});
      [reflexivity|simpl; lia].
Defined.

Lemma other_variables_untouched_witness :
  Cases.y_outcome.1 !! 1%nat = Some (Sample.plain_var "GZ" [2; 3]%nat []).
Proof.
  apply (other_variables_untouched Sample.no_lists (Some (0%nat, Cases.two_stations))
           None None None Cases.y_vars Cases.y_store _ Cases.y_outcome.2);
    by_computation.
Defined.

Lemma y_series_station_axis_witness :
  Cases.y_outcome.1 !! 0%nat = Some (Cases.y_var "PN" [0; 3]%nat []).
Proof.
  destruct (y_series_station_axis Sample.no_lists 0 Cases.two_stations 0
              None None None Cases.y_vars Cases.y_store Cases.y_outcome.1
              Cases.y_outcome.2 0 (Cases.y_var "PN" [2; 3]%nat []))
    as (Hsame & _); [by_computation..|].
  apply (Hsame 0%nat 2%nat); by_computation.
Defined.

Lemma level_extent_must_be_one_witness :
  remap_axes Sample.no_lists None None None None
    [Sample.profile_var "TT" [0; 1]%nat [2%nat]] Cases.two_level_records = None.
Proof.
  apply (level_extent_must_be_one Sample.no_lists None None None None _ _ 0
           (Sample.profile_var "TT" [0; 1]%nat [2%nat]) 0 0).
  - reflexivity.
  - split; by_computation.
  - by_computation.
  - discriminate.
Defined.

Lemma forecast_axis_substituted_witness :
  ∃ known' var' s',
    remap_profile Sample.no_lists (Some 2%nat) None None ∅
      (Sample.profile_var "TT" [0; 1]%nat []) Cases.forecast_store
    = Some ((known', var'), s')
    ∧ v_axes var' !! 0%nat = Some 2%nat.
Proof.
  apply (forecast_axis_substituted Sample.no_lists 2 None None ∅
           (Sample.profile_var "TT" [0; 1]%nat []) Cases.forecast_store 0 0).
  - split; by_computation.
  - split_and!; [intros f [= <-]; reflexivity|discriminate..].
  - by_computation.
  - reflexivity.
Defined.

Lemma vertical_axis_attached_witness :
  ∃ var',
    remap_profile Sample.both_lists None (Some 2%nat) (Some 1%nat) ∅
      (Sample.profile_var "UU" [0%nat] []) Sample.both_store
    = Some ((∅, var'),
            renamed_warned 0 (misfits Sample.both_lists (Some 2%nat) (Some 1%nat)
                                Sample.both_store (Sample.profile_var "UU" [0%nat] []) 0)
              Sample.both_store)
    ∧ v_axes var' !! 0%nat = Some 2%nat
    ∧ length (v_axes var') = 1%nat
    ∧ v_atts var' = <["kind" := att_int 5]> (v_atts (Sample.profile_var "UU" [0%nat] []))
    ∧ v_name var' = "UU".
Proof.
  apply (vertical_axis_attached Sample.both_lists None (Some 2%nat) (Some 1%nat) ∅
           (Sample.profile_var "UU" [0%nat] []) Sample.both_store 0 0 2).
  - split; by_computation.
  - split_and!; [discriminate|intros m [= <-]; reflexivity..].
  - by_computation.
  - discriminate.
  - right. split.
    + split_and!; [reflexivity|apply (bool_decide_unpack _); by_computation|reflexivity].
    + intros t (_ & Hin & _). revert Hin. apply (bool_decide_unpack _). by_computation.
Defined.

Lemma vertical_axis_fallback_witness :
  ∃ d known' var' s',
    remap_profile Sample.both_lists None (Some 1%nat) None ∅
      (Sample.profile_var "UU" [0%nat] []) Cases.misfit_store
    = Some ((known', var'), s')
    ∧ v_axes var' !! 0%nat = Some d
    ∧ length (v_axes var') = 1%nat
    ∧ axes_heap s' !! d = Some (_dim_type "level" 4)
    ∧ known' !! 4%nat = Some d
    ∧ v_atts var' = v_atts (Sample.profile_var "UU" [0%nat] [])
    ∧ v_name var' = "UU"
    ∧ warnings s' = [] ++ [momentum_msg]
                    ++ [unable_msg (Sample.profile_var "UU" [0%nat] [])].
Proof.
  apply (vertical_axis_fallback Sample.both_lists None (Some 1%nat) None ∅
           (Sample.profile_var "UU" [0%nat] []) Cases.misfit_store 0 0).
  - split; by_computation.
  - split_and!; [discriminate|intros m [= <-]; reflexivity|discriminate].
  - intros n d H. by rewrite lookup_empty in H.
  - by_computation.
  - discriminate.
  - intros m ([= <-] & _ & Hlen). discriminate Hlen.
  - intros t (Hx & _). discriminate Hx.
Defined.

Lemma station_canonical_coordinate_witness :
  ∃ vars' v',
    attach_station (0%nat, _var_type "station" [] [0; 1]%nat (chars Sample.abc))
      [Sample.profile_var "TT" [2%nat] [3%nat]] (2%nat, [0%nat]) Cases.all_stations_store
    = Some (vars', Cases.all_stations_store)
    ∧ vars' !! 0%nat = Some v'
    ∧ v_axes v' = [0%nat] ∧ v_deps v' = [0%nat].
Proof.
  destruct (station_canonical_coordinate 0
              (_var_type "station" [] [0; 1]%nat (chars Sample.abc)) 0
              [Sample.profile_var "TT" [2%nat] [3%nat]] Cases.all_stations_store 2 [0%nat])
    as (vars' & Hrun & _ & _ & Hin).
  - reflexivity.
  - reflexivity.
  - repeat constructor. eexists. split; [reflexivity|].
    apply (bool_decide_unpack _). by_computation.
  - apply (bool_decide_unpack _). by_computation.
  - destruct (Hin 0%nat (Sample.profile_var "TT" [2%nat] [3%nat]) eq_refl)
      as (k & a & v' & Hfind & Hv' & Haxes & Hdeps & _).
    { apply (bool_decide_unpack _). by_computation. }
    exists vars', v'. split_and!; [exact Hrun|exact Hv'| |exact Hdeps].
    rewrite Haxes. revert Hfind. vm_compute. by intros [= <- _].
Defined.

Lemma station_id_out_of_range_witness :
  attach_station (0%nat, _var_type "station" [] [0; 1]%nat (chars Sample.abc))
    Sample.station_vars (2%nat, [0%nat]) (Cases.stations_store [4; 1]) = None.
Proof.
  apply (station_id_out_of_range 0 0 1 Sample.abc Sample.station_vars
           (Cases.stations_store [4; 1]) 2 [0%nat] [4; 1] 4).
  - reflexivity.
  - discriminate.
  - apply (bool_decide_unpack _). by_computation.
  - right. simpl. lia.
Defined.

Lemma station_id_wraps_around_witness :
  ∃ vars' s' array,
    attach_station (0%nat, _var_type "station" [] [0; 1]%nat (chars Sample.abc))
      Sample.station_vars (2%nat, [0%nat]) (Cases.stations_store [0]) = Some (vars', s')
    ∧ coord_heap s'
      = coord_heap (Cases.stations_store [0])
        ++ [_var_type "station" [] [3%nat; 1%nat] (chars array)]
    ∧ Forall2 (λ id row, Sample.abc !! Z.to_nat ((id - 1) `mod` 3) = Some row) [0] array
    ∧ (∀ row, [0] = [0] → last Sample.abc = Some row → array = [row]).
Proof.
  apply (station_id_wraps_around 0 0 1 Sample.abc Sample.station_vars
           (Cases.stations_store [0]) 2 [0%nat] [0]).
  - reflexivity.
  - discriminate.
  - repeat constructor; simpl; lia.
  - repeat constructor. by eexists.
Defined.

Lemma variables_kept_witness :
  length Sample.shared_outcome.1 = 2%nat
  ∧ ∀ p v, Sample.shared_vars !! p = Some v →
      ∃ v', Sample.shared_outcome.1 !! p = Some v'
        ∧ v_name v' = v_name v
        ∧ (v_atts v' = v_atts v ∨ v_atts v' = <["kind" := att_int 5]> (v_atts v))
        ∧ v_deps v `prefix_of` v_deps v'
        ∧ (length (v_axes v') ≤ length (v_axes v))%nat.
Proof.
  apply (variables_kept Sample.no_lists Sample.no_records Sample.noon Sample.no_atts
           Sample.no_groups Sample.shared_vars Sample.shared_store
           Sample.shared_outcome.1 Sample.shared_outcome.2).
  by_computation.
Defined.

Lemma ordinary_file_untouched_witness :
  Series_makevars Sample.both_lists Sample.no_records Sample.noon Sample.no_atts
    Sample.no_groups [Sample.plain_var "GZ" [0%nat] []] Sample.shared_store
  = Some ([Sample.plain_var "GZ" [0%nat] []], Sample.shared_store).
Proof.
  apply (ordinary_file_untouched Sample.both_lists Sample.no_records Sample.noon
           Sample.no_atts Sample.no_groups); try reflexivity.
  repeat constructor.
Defined.

Lemma station_subset_coordinate_witness :
  ∃ array sid c,
    take_rows Sample.abc ((λ x, x - 1) <$> [3; 1]) = Some array
    ∧ length array = length [3; 1]
    ∧ (∀ j id, [3; 1] !! j = Some id → 1 ≤ id ≤ Z.of_nat (length Sample.abc) →
         array !! j = Sample.abc !! Z.to_nat (id - 1))
    ∧ (length (coord_heap Sample.groups_store) ≤ c)%nat
    ∧ coord_heap Sample.groups_outcome.2 !! c
      = Some (_var_type "station" [] [sid; 1%nat] (chars array))
    ∧ (length (axes_heap Sample.groups_store) ≤ sid)%nat
    ∧ axes_heap Sample.groups_outcome.2 !! sid = Some (_axis_type "station_id" [] [3; 1])
    ∧ axes_heap Sample.groups_outcome.2 !! 2%nat = axes_heap Sample.groups_store !! 2%nat
    ∧ (∀ i, i ∈ [0%nat] →
         ∃ v v', Sample.groups_vars !! i = Some v ∧ Sample.groups_outcome.1 !! i = Some v'
           ∧ c ∈ v_deps v'
           ∧ (NoDup [0%nat] → Forall (λ g, i ∉ g.2) ([(3%nat, [1%nat])] ++ []) →
              v_axes v' = v_axes v ∧ v_deps v' = v_deps v ++ [c]))
    ∧ (Sample.abc = [["A"%char]; ["B"%char]; ["C"%char]] → [3; 1] = [3; 1] →
       array = [["C"%char]; ["A"%char]]).
Proof.
  apply (station_subset_coordinate Sample.two_groups 0 0 1 Sample.abc Sample.groups_vars Sample.groups_store
           Sample.groups_outcome.1 Sample.groups_outcome.2 [(3%nat, [1%nat])] 2 [0%nat] [] [3; 1]).
  - by_computation.
  - reflexivity.
  - reflexivity.
  - by eexists.
  - discriminate.
Defined.
